(** * Divisor: the commands of [cli.py]

    A shallow embedding of the orchestrator of the Divisor site generator
    ([generate] in [cli.py]) together with the parts of Python's [posixpath]
    and [os] modules it calls, and the properties of the destination layout
    that the orchestrator computes; and of the commands [setup], [themes]
    and [clean] of the same file.

    Python [str] values are lists of characters; the operating system is an
    interface of primitives over an abstract world; the collaborators that
    live in other modules of the package ([load_config], [SourceFetcher],
    [JekyllSite], [Converter], [AssetHandler]) are arbitrary world
    transformers that may raise.  The loop over [os.walk] lists each
    directory in the world in which it enters it, so that it finds what
    the calls of its body have written there. *)

From Stdlib Require Import Ascii String ZArith Lia Bool Arith List.
Import ListNotations.


(** ** Python strings *)

Definition str := list ascii.

Definition lit (s : string) : str := list_ascii_of_string s.

Module Str.

Definition sep : ascii := "/"%char.
Definition extsep : ascii := "."%char.

Fixpoint eqb (a b : str) : bool :=
  match a, b with
  | [], [] => true
  | x :: a', y :: b' => Ascii.eqb x y && eqb a' b'
  | _, _ => false
  end.

(** [s.startswith(p)] *)
Fixpoint startswith (s p : str) {struct p} : bool :=
  match p, s with
  | [], _ => true
  | y :: p', x :: s' => Ascii.eqb x y && startswith s' p'
  | _ :: _, [] => false
  end.

(** [s.endswith(p)] *)
Definition endswith (s p : str) : bool := startswith (rev s) (rev p).

(** [s.rfind(c)] for a one-character needle: the highest index, or -1. *)
Fixpoint rfind (s : str) (c : ascii) : Z :=
  match s with
  | [] => (-1)%Z
  | x :: s' =>
      let r := rfind s' c in
      if (0 <=? r)%Z then (r + 1)%Z
      else if Ascii.eqb x c then 0%Z else (-1)%Z
  end.

(** Slices [s[:i]] and [s[i:]] for an index [0 <= i]. *)
Definition upto (s : str) (i : Z) : str := firstn (Z.to_nat i) s.
Definition from (s : str) (i : Z) : str := skipn (Z.to_nat i) s.

(** [s.rstrip(c)] and [s.lstrip(c)] for a one-character set. *)
Fixpoint lstrip (s : str) (c : ascii) : str :=
  match s with
  | x :: s' => if Ascii.eqb x c then lstrip s' c else s
  | [] => []
  end.

Definition rstrip (s : str) (c : ascii) : str := rev (lstrip (rev s) c).

(** [s.split(c)]: cut at every occurrence of [c]; never the empty list. *)
Fixpoint split (s : str) (c : ascii) : list str :=
  match s with
  | [] => [[]]
  | x :: s' =>
      if Ascii.eqb x c then [] :: split s' c
      else match split s' c with
           | h :: t => (x :: h) :: t
           | [] => [[x]]
           end
  end.

(** [c.join(l)] *)
Fixpoint join (c : ascii) (l : list str) : str :=
  match l with
  | [] => []
  | [a] => a
  | a :: l' => a ++ c :: join c l'
  end.

(** Python orders strings by code point, lexicographically. *)
Fixpoint ltb (a b : str) : bool :=
  match a, b with
  | [], [] => false
  | [], _ :: _ => true
  | _ :: _, [] => false
  | x :: a', y :: b' =>
      if (nat_of_ascii x <? nat_of_ascii y)%nat then true
      else if (nat_of_ascii y <? nat_of_ascii x)%nat then false
      else ltb a' b'
  end.

Definition leb (a b : str) : bool := negb (ltb b a).

End Str.

(** ** Exceptions and results *)

Inductive exn : Type :=
| FileExistsError
| OSError
| ValueError
| IndexError
| CollaboratorError.

Inductive result (A : Type) : Type :=
| Ok (a : A)
| Raise (e : exn).

Arguments Ok {A} a.
Arguments Raise {A} e.

(** ** [posixpath] *)

Module PosixPath.

Import Str.

Definition curdir : str := lit ".".
Definition pardir : str := lit "..".

(** [posixpath.join(a, b)] *)
Definition join (a b : str) : str :=
  if startswith b [sep] then b
  else if match a with [] => true | _ => endswith a [sep] end then a ++ b
  else a ++ sep :: b.

(** [posixpath.join(a, *p)] *)
Definition join_all (a : str) (p : list str) : str := fold_left join p a.

Definition isabs (s : str) : bool := startswith s [sep].

(** The [while] loop of [genericpath._splitext]: it looks, from
    [filenameIndex] up to [dotIndex], for a character that is not a dot.
    [n] counts the positions left, [rest] is [p[filenameIndex:]]. *)
Fixpoint has_stem (n : nat) (rest : str) : bool :=
  match n with
  | O => false
  | S n' =>
      match rest with
      | x :: rest' => if Ascii.eqb x extsep then has_stem n' rest' else true
      | [] => true
      end
  end.

(** [posixpath.splitext(p)] *)
Definition splitext (p : str) : str * str :=
  let sepIndex := rfind p sep in
  let dotIndex := rfind p extsep in
  if (sepIndex <? dotIndex)%Z then
    let filenameIndex := (sepIndex + 1)%Z in
    if has_stem (Z.to_nat (dotIndex - filenameIndex)) (from p filenameIndex)
    then (upto p dotIndex, from p dotIndex)
    else (p, [])
  else (p, []).

(** [posixpath.split(p)] *)
Definition split (p : str) : str * str :=
  let i := (rfind p sep + 1)%Z in
  let head := upto p i in
  let tail := from p i in
  let head :=
    match head with
    | [] => head
    | _ => if Str.eqb head (repeat sep (length head)) then head
           else rstrip head sep
    end in
  (head, tail).

(** One iteration of the component loop of [posixpath.normpath]. *)
Definition norm_step (initial_slashes : nat) (new_comps : list str)
    (comp : str) : list str :=
  if Str.eqb comp [] || Str.eqb comp curdir then new_comps
  else if negb (Str.eqb comp pardir)
          || (Nat.eqb initial_slashes 0
              && match new_comps with [] => true | _ => false end)
          || match new_comps with
             | [] => false
             | _ => Str.eqb (last new_comps []) pardir
             end
       then new_comps ++ [comp]
       else match new_comps with
            | [] => new_comps
            | _ => removelast new_comps
            end.

Definition initial_slashes_of (path : str) : nat :=
  if startswith path [sep] then
    if startswith path [sep; sep] && negb (startswith path [sep; sep; sep])
    then 2 else 1
  else 0.

(** [posixpath.normpath(path)] *)
Definition normpath (path : str) : str :=
  match path with
  | [] => curdir
  | _ =>
      let initial_slashes := initial_slashes_of path in
      let comps := Str.split path sep in
      let new_comps := fold_left (norm_step initial_slashes) comps [] in
      let path := Str.join sep new_comps in
      let path := repeat sep initial_slashes ++ path in
      match path with
      | [] => curdir
      | _ => path
      end
  end.

(** [posixpath.abspath(path)], with the result of [os.getcwd()]. *)
Definition abspath (cwd path : str) : str :=
  normpath (if isabs path then path else join cwd path).

(** Python compares lists lexicographically, element by element. *)
Fixpoint list_ltb (a b : list str) : bool :=
  match a, b with
  | [], [] => false
  | [], _ :: _ => true
  | _ :: _, [] => false
  | x :: a', y :: b' =>
      if Str.ltb x y then true
      else if Str.ltb y x then false
      else list_ltb a' b'
  end.

(** [min([a, b])] and [max([a, b])]: the first of two equal elements. *)
Definition min2 (a b : list str) : list str := if list_ltb b a then b else a.
Definition max2 (a b : list str) : list str := if list_ltb a b then b else a.

(** The loop of [genericpath.commonprefix]: [s2[i]] beyond the end of
    [s2] raises [IndexError]. *)
Fixpoint commonprefix_loop (s1 s2 : list str) : result (list str) :=
  match s1 with
  | [] => Ok []
  | c :: s1' =>
      match s2 with
      | [] => Raise IndexError
      | d :: s2' =>
          if Str.eqb c d then
            match commonprefix_loop s1' s2' with
            | Ok l => Ok (c :: l)
            | Raise e => Raise e
            end
          else Ok []
      end
  end.

(** [genericpath.commonprefix([a, b])] on two lists of components. *)
Definition commonprefix (a b : list str) : result (list str) :=
  commonprefix_loop (min2 a b) (max2 a b).

Definition nonempty (s : str) : bool :=
  match s with [] => false | _ => true end.

(** [posixpath.relpath(path, start)], with the result of [os.getcwd()]. *)
Definition relpath (cwd path start : str) : result str :=
  match path with
  | [] => Raise ValueError
  | _ =>
      let start_list := filter nonempty (Str.split (abspath cwd start) sep) in
      let path_list := filter nonempty (Str.split (abspath cwd path) sep) in
      match commonprefix start_list path_list with
      | Raise e => Raise e
      | Ok common =>
          let i := length common in
          let rel_list :=
            repeat pardir (length start_list - i) ++ skipn i path_list in
          match rel_list with
          | [] => Ok curdir
          | a :: p => Ok (join_all a p)
          end
      end
  end.

End PosixPath.

(** ** The source tree as [os.walk] sees it *)

(** A directory listing, in the order in which [os.scandir] returns the
    entries.  A directory that cannot be read, or that is a symbolic link
    (which [os.walk] lists but does not enter), has no children here. *)
#[local] Unset Elimination Schemes.
Inductive entry : Type :=
| File (name : str)
| Dir (name : str) (children : list entry).
#[local] Set Elimination Schemes.

Definition dirnames (es : list entry) : list str :=
  flat_map (fun e => match e with Dir d _ => [d] | File _ => [] end) es.

Definition filenames (es : list entry) : list str :=
  flat_map (fun e => match e with File f => [f] | Dir _ _ => [] end) es.

(** [os.walk(top)], top-down, over a tree that does not change while
    the generator runs: the triple of a directory comes before those of
    its sub-directories, which are entered in listing order.
    [walk_entry top e] is what the walk yields for the entry [e] of the
    directory [top]. *)
Fixpoint walk_entry (top : str) (e : entry) : list (str * list str * list str) :=
  match e with
  | File _ => []
  | Dir d sub =>
      let new_path := PosixPath.join top d in
      (new_path, dirnames sub, filenames sub)
      :: flat_map (walk_entry new_path) sub
  end.

Definition walk (top : str) (es : list entry) : list (str * list str * list str) :=
  (top, dirnames es, filenames es) :: flat_map (walk_entry top) es.

(** A name that a directory listing can hold: not empty, not [.] or [..],
    and without a separator. *)
Definition name_ok (c : str) : bool :=
  PosixPath.nonempty c
  && negb (Str.eqb c PosixPath.curdir)
  && negb (Str.eqb c PosixPath.pardir)
  && negb (existsb (Ascii.eqb Str.sep) c).

Fixpoint names_ok_entry (e : entry) : bool :=
  match e with
  | File f => name_ok f
  | Dir d sub => name_ok d && forallb names_ok_entry sub
  end.

Definition names_ok (es : list entry) : bool := forallb names_ok_entry es.

Definition entry_name (e : entry) : str :=
  match e with
  | File f => f
  | Dir d _ => d
  end.

(** No two entries of a listing have the same name. *)
Fixpoint unique (l : list str) : bool :=
  match l with
  | [] => true
  | x :: l' => negb (existsb (Str.eqb x) l') && unique l'
  end.

Fixpoint distinct_entry (e : entry) : bool :=
  match e with
  | File _ => true
  | Dir _ sub => unique (map entry_name sub) && forallb distinct_entry sub
  end.

Definition distinct (es : list entry) : bool :=
  unique (map entry_name es) && forallb distinct_entry es.

(** The listing of the directory named [d] in a listing, and of the
    directory that the names [ds] lead to. *)
Fixpoint find_dir (d : str) (es : list entry) : option (list entry) :=
  match es with
  | [] => None
  | Dir d' sub :: es' => if Str.eqb d' d then Some sub else find_dir d es'
  | File _ :: es' => find_dir d es'
  end.

Fixpoint subtree (es : list entry) (ds : list str) : option (list entry) :=
  match ds with
  | [] => Some es
  | d :: ds' =>
      match find_dir d es with
      | Some sub => subtree sub ds'
      | None => None
      end
  end.

(** The number of levels of directories of a tree, its top included. *)
Fixpoint levels_entry (e : entry) : nat :=
  match e with
  | File _ => 0
  | Dir _ sub => S (list_max (map levels_entry sub))
  end.

Definition levels (es : list entry) : nat := S (list_max (map levels_entry es)).

(** ** The operating system *)

(** The primitives of [os] that the orchestrator reaches, over a world [W].
    [mkdir] leaves the world as it is when it raises.  [scantree p w] is the
    tree below [p] in the world [w], when [os.scandir(p)] succeeds there. *)
Class OS (W : Type) : Type := {
  getcwd : W -> str;
  path_exists : str -> W -> bool;
  path_isdir : str -> W -> bool;
  mkdir : str -> W -> result W;
  scantree : str -> W -> option (list entry)
}.

(** [os.scandir] on the directory that the names [ds] lead to from [top],
    in the world [w]: the listing that [os.walk(top)] reads when it enters
    this directory. *)
Definition listdir {W} {os : OS W} (top : str) (ds : list str) (w : W)
  : option (list entry) :=
  match scantree top w with
  | Some es => subtree es ds
  | None => None
  end.

Definition is_oserror (e : exn) : bool :=
  match e with
  | FileExistsError | OSError => true
  | _ => false
  end.

Section Makedirs.

Context {W : Type} {os : OS W}.

(** The last step of [os.makedirs]: [mkdir], and under [exist_ok] an
    [OSError] is dropped when the name is a directory. *)
Definition makedirs_leaf (name : str) (exist_ok : bool) (w : W)
  : W * result unit :=
  match mkdir name w with
  | Ok w' => (w', Ok tt)
  | Raise e =>
      if is_oserror e
      then if negb exist_ok || negb (path_isdir name w)
           then (w, Raise e) else (w, Ok tt)
      else (w, Raise e)
  end.

(** The [head, tail] that [os.makedirs] works with. *)
Definition makedirs_split (name : str) : str * str :=
  let (head, tail) := PosixPath.split name in
  match tail with
  | [] => PosixPath.split head
  | _ => (head, tail)
  end.

(** [os.makedirs(name, exist_ok=exist_ok)]; [n] bounds the depth of the
    recursion on [head], which is shorter than [name]. *)
Fixpoint makedirs_fuel (n : nat) (name : str) (exist_ok : bool) (w : W)
  : W * result unit :=
  match n with
  | O => (w, Raise OSError)
  | S n' =>
      let (head, tail) := makedirs_split name in
      if PosixPath.nonempty head && PosixPath.nonempty tail
         && negb (path_exists head w)
      then
        let (w1, r) := makedirs_fuel n' head exist_ok w in
        match r with
        | Raise FileExistsError | Ok _ =>
            if Str.eqb tail PosixPath.curdir then (w1, Ok tt)
            else makedirs_leaf name exist_ok w1
        | Raise e => (w1, Raise e)
        end
      else makedirs_leaf name exist_ok w
  end.

Definition makedirs (name : str) (exist_ok : bool) (w : W)
  : W * result unit :=
  makedirs_fuel (S (length name)) name exist_ok w.

End Makedirs.

(** ** Configuration *)

Record ContentMapping : Type := {
  home_page_source : str;
  subpages_folder : option str;
  destination_folder : str;
  media_destination_folder : str
}.

Record Config : Type := {
  source_repository : str;
  content_mapping : ContentMapping
}.

(** ** Collaborators *)

(** The functions and methods of the other modules of the package that
    [generate] calls.  Each constructor call is folded into the method call
    that follows it: [Converter(cfg).convert_file(...)] is [convert_file cfg]. *)
Class Collaborators (W : Type) : Type := {
  load_config : str -> W -> W * result Config;
  fetch : str -> W -> W * result unit;
  create_structure : str -> Config -> W -> W * result unit;
  convert_file : Config -> str -> str -> str -> W -> W * result unit;
  copy_assets : Config -> str -> str -> W -> W * result unit
}.

(** ** Calls and runs *)

(** What the orchestrator does to the outside, with the arguments it passes. *)
Inductive call : Type :=
| LoadConfig (path : str)
| Fetch (repository : str)
| Print (message : str)
| CreateStructure (destination : str)
| ConvertFile (source_path dest_path base : str)
| MakeDirs (name : str) (exist_ok : bool)
| CopyAssets (source_root target_root : str)
| Echo (message : str).

(** A computation runs in a world, logs each call with the world in which
    it was made, and returns or raises; the world survives an exception. *)
Definition M (W A : Type) : Type := W -> list (W * call) * W * result A.

Section Monad.

Context {W : Type}.

Definition ret {A} (a : A) : M W A := fun w => ([], w, Ok a).

Definition bind {A B} (m : M W A) (k : A -> M W B) : M W B :=
  fun w =>
    match m w with
    | (t1, w1, Ok a) =>
        match k a w1 with
        | (t2, w2, r) => (t1 ++ t2, w2, r)
        end
    | (t1, w1, Raise e) => (t1, w1, Raise e)
    end.

(** A logged call to something that changes the world. *)
Definition invoke {A} (c : call) (f : W -> W * result A) : M W A :=
  fun w => let (w', r) := f w in ([(w, c)], w', r).

(** A call that only produces output. *)
Definition emit (c : call) : M W unit := invoke c (fun w => (w, Ok tt)).

(** Reading the world, and a pure computation that may raise. *)
Definition reads {A} (f : W -> A) : M W A := fun w => ([], w, Ok (f w)).
Definition try_ {A} (f : W -> result A) : M W A := fun w => ([], w, f w).

(** [for x in l: body(x)] *)
Fixpoint for_each {A} (l : list A) (body : A -> M W unit) : M W unit :=
  match l with
  | [] => ret tt
  | x :: l' => bind (body x) (fun _ => for_each l' body)
  end.

End Monad.

Declare Scope run_scope.
Delimit Scope run_scope with run.
Notation "x <- m ;; k" := (bind m (fun x => k))
  (at level 61, m at next level, right associativity) : run_scope.
Notation "m ;; k" := (bind m (fun _ => k))
  (at level 61, right associativity) : run_scope.

(** ** [generate] *)

Module Cli.

Section Generate.

Context {W : Type} {os : OS W} {co : Collaborators W}.

Local Open Scope run_scope.

Definition source_repo : str := lit "source_repo".
Definition index_md : str := lit "index.md".
Definition none_marker : str := lit "<none>".
Definition md_suffix : str := lit ".md".

(** [cfg.content_mapping.subpages_folder and
     cfg.content_mapping.subpages_folder != "<none>"] *)
Definition subpages_configured (cfg : Config) : option str :=
  match subpages_folder (content_mapping cfg) with
  | None => None
  | Some s =>
      if PosixPath.nonempty s && negb (Str.eqb s none_marker)
      then Some s else None
  end.

(** The body of the inner loop (lines 51 to 57). *)
Definition convert_subpage (cfg : Config)
    (subpages_source_dir subpages_dest_dir root file : str) : M W unit :=
  if Str.endswith file md_suffix then
    let source_path := PosixPath.join root file in
    relative_path <-
      try_ (fun w => PosixPath.relpath (getcwd w) source_path
                       subpages_source_dir) ;;
    let dest_dir :=
      PosixPath.join subpages_dest_dir
        (fst (PosixPath.splitext relative_path)) in
    invoke (MakeDirs dest_dir true) (makedirs dest_dir true) ;;
    let dest_path := PosixPath.join dest_dir index_md in
    invoke (ConvertFile source_path dest_path source_repo)
      (convert_file cfg source_path dest_path source_repo)
  else ret tt.

(** Lines 49 to 57: [for root, _, files in os.walk(subpages_source_dir)]
    with its body, from the directory [root], which the names [ds] lead to.
    The generator of [os.walk] lists a directory when it enters it, in the
    world that the body of the loop has left; it yields the directory with
    its files, the body runs on them, and the generator goes on into the
    sub-directories that it listed.  A directory that cannot be listed is
    passed over ([onerror] is [None]).  The recursion is not structural:
    [fuel] bounds the depth to which the walk descends, and directories
    below it are not entered. *)
Fixpoint walk_subpages (fuel : nat) (cfg : Config)
    (subpages_source_dir subpages_dest_dir root : str) (ds : list str)
  : M W unit :=
  match fuel with
  | O => ret tt
  | S fuel' =>
      listing <- reads (listdir subpages_source_dir ds) ;;
      match listing with
      | None => ret tt
      | Some es =>
          for_each (filenames es)
            (convert_subpage cfg subpages_source_dir subpages_dest_dir root) ;;
          for_each (dirnames es) (fun d =>
            walk_subpages fuel' cfg subpages_source_dir subpages_dest_dir
              (PosixPath.join root d) (ds ++ [d]))
      end
  end.

(** Lines 44 to 57. *)
Definition convert_subpages (fuel : nat) (cfg : Config) : M W unit :=
  match subpages_configured cfg with
  | Some folder =>
      let subpages_source_dir := lit "source_repo/" ++ folder in
      let subpages_dest_dir := destination_folder (content_mapping cfg) in
      present <- reads (path_exists subpages_source_dir) ;;
      if present then
        walk_subpages fuel cfg subpages_source_dir subpages_dest_dir
          subpages_source_dir []
      else ret tt
  | None => ret tt
  end.

(** Lines 37 to 42. *)
Definition convert_home (cfg : Config) : M W unit :=
  let source_path :=
    lit "source_repo/" ++ home_page_source (content_mapping cfg) in
  let dest_path :=
    destination_folder (content_mapping cfg) ++ lit "/index.md" in
  invoke (ConvertFile source_path dest_path source_repo)
    (convert_file cfg source_path dest_path source_repo).

(** Lines 59 to 64. *)
Definition copy_all_assets (cfg : Config) : M W unit :=
  let target :=
    destination_folder (content_mapping cfg) ++ lit "/"
    ++ media_destination_folder (content_mapping cfg) in
  invoke (CopyAssets source_repo target) (copy_assets cfg source_repo target).

(** [generate(config)] *)
Definition generate (fuel : nat) (config : str) : M W unit :=
  cfg <- invoke (LoadConfig config) (load_config config) ;;
  invoke (Fetch (source_repository cfg)) (fetch (source_repository cfg)) ;;
  emit (Print (lit "Destination folder: "
               ++ destination_folder (content_mapping cfg))) ;;
  invoke (CreateStructure (destination_folder (content_mapping cfg)))
    (create_structure (destination_folder (content_mapping cfg)) cfg) ;;
  convert_home cfg ;;
  convert_subpages fuel cfg ;;
  copy_all_assets cfg ;;
  emit (Echo (lit "Website generated successfully!")).

End Generate.

End Cli.

(** ** A file system *)

(** A world in which the primitives are computed: a tree of directories and
    files below the root, and a working directory.  Paths are resolved as
    POSIX does without symbolic links: component by component, every
    component that is passed must be a directory, and [..] moves to the
    parent. *)
Module Model.

#[local] Unset Elimination Schemes.
Inductive node : Type :=
| NFile
| NDir (entries : list (str * node)).
#[local] Set Elimination Schemes.

Record world : Type := {
  cwd : list str;
  root : list (str * node)
}.

Fixpoint find (name : str) (es : list (str * node)) : option node :=
  match es with
  | [] => None
  | (n, nd) :: es' => if Str.eqb n name then Some nd else find name es'
  end.

(** The node at a canonical path, a list of names from the root. *)
Fixpoint lookup (es : list (str * node)) (path : list str) : option node :=
  match path with
  | [] => Some (NDir es)
  | c :: path' =>
      match find c es with
      | Some (NDir sub) => lookup sub path'
      | Some NFile => match path' with [] => Some NFile | _ => None end
      | None => None
      end
  end.

Definition is_dir (o : option node) : bool :=
  match o with Some (NDir _) => true | _ => false end.

Definition is_some (o : option node) : bool :=
  match o with Some _ => true | None => false end.

(** Resolution of the components [comps] from the canonical path [cur]. *)
Fixpoint nav (es : list (str * node)) (cur comps : list str)
  : option (list str) :=
  match comps with
  | [] => Some cur
  | c :: comps' =>
      if is_dir (lookup es cur) then
        if Str.eqb c [] || Str.eqb c PosixPath.curdir then nav es cur comps'
        else if Str.eqb c PosixPath.pardir then nav es (removelast cur) comps'
        else nav es (cur ++ [c]) comps'
      else None
  end.

Definition start_of (w : world) (p : str) : list str :=
  if PosixPath.isabs p then [] else cwd w.

Definition resolve (w : world) (p : str) : option (list str) :=
  match p with
  | [] => None
  | _ => nav (root w) (start_of w p) (Str.split p Str.sep)
  end.

Definition stat (w : world) (p : str) : option node :=
  match resolve w p with
  | Some cur => lookup (root w) cur
  | None => None
  end.

(** Adding the entry [(name, nd)] to the directory at the canonical [path]. *)
Fixpoint add (es : list (str * node)) (path : list str) (name : str)
    (nd : node) : list (str * node) :=
  match path with
  | [] => es ++ [(name, nd)]
  | c :: path' =>
      map (fun e : str * node =>
             let (n, x) := e in
             if Str.eqb n c
             then match x with
                  | NDir sub => (n, NDir (add sub path' name nd))
                  | NFile => e
                  end
             else e) es
  end.

(** Trailing separators do not count: [mkdir("a/b/")] makes [a/b]. *)
Fixpoint strip_trailing (comps : list str) : list str :=
  match comps with
  | [] => []
  | c :: comps' =>
      match strip_trailing comps' with
      | [] => match c with [] => [] | _ => [c] end
      | l => c :: l
      end
  end.

(** Creating a node named by the path [p]. *)
Definition create (nd : node) (p : str) (w : world) : result world :=
  match p with
  | [] => Raise OSError
  | _ =>
      let comps := strip_trailing (Str.split p Str.sep) in
      let name := last comps [] in
      match nav (root w) (start_of w p) (removelast comps) with
      | Some cur =>
          if is_dir (lookup (root w) cur) then
            if name_ok name then
              if is_some (lookup (root w) (cur ++ [name]))
              then Raise FileExistsError
              else Ok {| cwd := cwd w; root := add (root w) cur name nd |}
            else Raise FileExistsError
          else Raise OSError
      | None => Raise OSError
      end
  end.

(** The tree below a directory, as the walk lists it. *)
Fixpoint to_entry (n : str) (nd : node) : entry :=
  match nd with
  | NFile => File n
  | NDir sub => Dir n (map (fun e : str * node => let (m, x) := e in to_entry m x) sub)
  end.

Definition to_entries (es : list (str * node)) : list entry :=
  map (fun e : str * node => let (m, x) := e in to_entry m x) es.

(** The primitives over the tree.  A tree is listed when its names are
    names of a file system: each of them a name of a listing, no two of
    them equal in one directory. *)
#[global] Instance model_os : OS world := {
  getcwd w := Str.sep :: Str.join Str.sep (cwd w);
  path_exists p w := is_some (stat w p);
  path_isdir p w := is_dir (stat w p);
  mkdir := create (NDir []);
  scantree p w :=
    match stat w p with
    | Some (NDir es) =>
        if names_ok (to_entries es) && distinct (to_entries es)
        then Some (to_entries es) else None
    | _ => None
    end
}.

(** Collaborators that do the least: the configuration is given, the
    layout builder makes the destination folder, the converter needs its
    source file and writes or overwrites its destination file, the rest does
    nothing. *)
Definition model_collaborators (cfg : Config) : Collaborators world := {|
  load_config _ w := (w, Ok cfg);
  fetch _ w := (w, Ok tt);
  create_structure dest _ w := makedirs dest true w;
  convert_file _ src dst _ w :=
    match stat w src with
    | Some NFile =>
        match stat w dst with
        | Some NFile => (w, Ok tt)
        | _ =>
            match create NFile dst w with
            | Ok w' => (w', Ok tt)
            | Raise e => (w, Raise e)
            end
        end
    | _ => (w, Raise CollaboratorError)
    end;
  copy_assets _ _ _ w := (w, Ok tt)
|}.

End Model.

(** The calls of a run, without the worlds. *)
Definition events {W} (t : list (W * call)) : list call := map snd t.

Definition trace_of {W A} (x : list (W * call) * W * result A) : list (W * call) :=
  fst (fst x).

Definition outcome_of {W A} (x : list (W * call) * W * result A) : result A :=
  snd x.

Definition final_world {W A} (x : list (W * call) * W * result A) : W :=
  snd (fst x).

(** ** Vocabulary of the statements *)

(** [prefix l1 l2]: the list [l1] is a beginning of [l2]. *)
Definition prefix {A} (l1 l2 : list A) : Prop := exists r, l2 = l1 ++ r.

(** [dir_at es ds sub]: following the directory names [ds] from the listing
    [es] leads to the listing [sub]. *)
Inductive dir_at : list entry -> list str -> list entry -> Prop :=
| dir_here es : dir_at es [] es
| dir_below es d sub ds sub' :
    In (Dir d sub) es -> dir_at sub ds sub' -> dir_at es (d :: ds) sub'.

(** [file_at es ds f]: the tree [es] holds a file named [f] in the
    directory reached by the names [ds]. *)
Definition file_at (es : list entry) (ds : list str) (f : str) : Prop :=
  exists sub, dir_at es ds sub /\ In (File f) sub.

(** [a] followed by a separator unless it is empty or ends in one: what
    [posixpath.join] puts before a relative second argument. *)
Definition with_sep (a : str) : str :=
  match a with
  | [] => a
  | _ => if Str.endswith a [Str.sep] then a else a ++ [Str.sep]
  end.

(** The path that the walk builds for the file [f] below the directories
    [ds] of [top]: [os.path.join(root, f)] with [root] joined from [top]. *)
Definition walked_path (top : str) (ds : list str) (f : str) : str :=
  PosixPath.join (PosixPath.join_all top ds) f.

(** The facts about the operating system that the proofs rely on. *)
Record OSLaws {W} (os : OS W) : Prop := {
  getcwd_abs : forall w, PosixPath.isabs (getcwd w) = true;
  isdir_exists : forall p w, path_isdir p w = true -> path_exists p w = true;
  mkdir_isdir : forall p w w', mkdir p w = Ok w' -> path_isdir p w' = true;
  mkdir_present : forall p w,
    path_isdir p w = true -> exists e, mkdir p w = Raise e /\ is_oserror e = true;
  exists_prefix : forall p q w,
    p <> [] ->
    Str.endswith p [Str.sep] = true \/ Str.startswith q [Str.sep] = true ->
    path_exists (p ++ q) w = true -> path_exists p w = true;
  scantree_names : forall p w es,
    scantree p w = Some es -> names_ok es = true /\ distinct es = true
}.

Arguments getcwd_abs {W os} _ w.
Arguments isdir_exists {W os} _ p w _.
Arguments mkdir_isdir {W os} _ p w w' _.
Arguments mkdir_present {W os} _ p w _.
Arguments exists_prefix {W os} _ p q w _ _ _.
Arguments scantree_names {W os} _ p w es _.

(** The files of a tree in the order in which the walk reaches them, each
    with the names of the directories that lead to it: the files of a
    directory in listing order, then those of its sub-directories. *)
Fixpoint entry_files (e : entry) : list (list str * str) :=
  match e with
  | File _ => []
  | Dir d sub =>
      map (fun x : list str * str => (d :: fst x, snd x))
        (map (fun f => ([], f)) (filenames sub) ++ flat_map entry_files sub)
  end.

Definition tree_files (es : list entry) : list (list str * str) :=
  map (fun f => ([], f)) (filenames es) ++ flat_map entry_files es.

Definition is_md (x : list str * str) : bool := Str.endswith (snd x) Cli.md_suffix.

(** [has_nondot stem]: some character of [stem] is not a dot, which is when
    [splitext] takes the text after the last dot of [stem ++ ".md"] for an
    extension. *)
Definition has_nondot (stem : str) : bool :=
  existsb (fun c => negb (Ascii.eqb c Str.extsep)) stem.

(** The directory and the paths that the loop body computes for the file
    [f] below the directories [ds] of the walked folder [top]. *)
Definition page_dir (dest : str) (ds : list str) (f : str) : str :=
  PosixPath.join dest (fst (PosixPath.splitext (Str.join Str.sep (ds ++ [f])))).

Definition page_dest (dest : str) (ds : list str) (f : str) : str :=
  PosixPath.join (page_dir dest ds f) Cli.index_md.

(** The two calls of the loop body for one markdown file. *)
Definition page_calls (top dest : str) (x : list str * str) : list call :=
  [MakeDirs (page_dir dest (fst x) (snd x)) true;
   ConvertFile (walked_path top (fst x) (snd x)) (page_dest dest (fst x) (snd x))
     Cli.source_repo].

Section Pages.

Context {W : Type} {os : OS W} {co : Collaborators W}.

(** The loop body for one markdown file, with its relative path known. *)
Definition run_page (cfg : Config) (top dest : str) (x : list str * str)
  : M W unit :=
  bind (invoke (MakeDirs (page_dir dest (fst x) (snd x)) true)
          (makedirs (page_dir dest (fst x) (snd x)) true))
    (fun _ =>
       invoke (ConvertFile (walked_path top (fst x) (snd x))
                 (page_dest dest (fst x) (snd x)) Cli.source_repo)
         (convert_file cfg (walked_path top (fst x) (snd x))
            (page_dest dest (fst x) (snd x)) Cli.source_repo)).

(** [pages_trace cfg top dest l t r]: the log [t] and the outcome [r] of
    the loop over the markdown files [l].  The loop stops at the first
    call that raises. *)
Inductive pages_trace (cfg : Config) (top dest : str)
  : list (list str * str) -> list (W * call) -> result unit -> Prop :=
| pages_done : pages_trace cfg top dest [] [] (Ok tt)
| pages_makedirs_raises x l w w1 e :
    makedirs (page_dir dest (fst x) (snd x)) true w = (w1, Raise e) ->
    pages_trace cfg top dest (x :: l)
      [(w, MakeDirs (page_dir dest (fst x) (snd x)) true)] (Raise e)
| pages_convert_raises x l w w1 w2 e :
    makedirs (page_dir dest (fst x) (snd x)) true w = (w1, Ok tt) ->
    convert_file cfg (walked_path top (fst x) (snd x))
      (page_dest dest (fst x) (snd x)) Cli.source_repo w1 = (w2, Raise e) ->
    pages_trace cfg top dest (x :: l)
      [(w, MakeDirs (page_dir dest (fst x) (snd x)) true);
       (w1, ConvertFile (walked_path top (fst x) (snd x))
              (page_dest dest (fst x) (snd x)) Cli.source_repo)] (Raise e)
| pages_next x l w w1 w2 t r :
    makedirs (page_dir dest (fst x) (snd x)) true w = (w1, Ok tt) ->
    convert_file cfg (walked_path top (fst x) (snd x))
      (page_dest dest (fst x) (snd x)) Cli.source_repo w1 = (w2, Ok tt) ->
    pages_trace cfg top dest l t r ->
    pages_trace cfg top dest (x :: l)
      ((w, MakeDirs (page_dir dest (fst x) (snd x)) true)
       :: (w1, ConvertFile (walked_path top (fst x) (snd x))
                 (page_dest dest (fst x) (snd x)) Cli.source_repo)
       :: t) r.

End Pages.

(** The source paths of the conversions among some calls, in order. *)
Definition sources_of (cs : list call) : list str :=
  flat_map (fun c => match c with ConvertFile s _ _ => [s] | _ => [] end) cs.

(** The paths [os.path.join(root, file)] of the markdown files that
    [os.walk(top)] yields over a tree that does not change, in order. *)
Definition walk_sources (top : str) (es : list entry) : list str :=
  flat_map (fun t : str * list str * list str =>
              map (PosixPath.join (fst (fst t)))
                (filter (fun f => Str.endswith f (lit ".md")) (snd t)))
    (walk top es).

(** The folder that the run walks, when one is configured. *)
Definition subpages_top (folder : str) : str := lit "source_repo/" ++ folder.

(** The arguments of the calls of a run, from the configuration. *)
Definition home_source (cfg : Config) : str :=
  lit "source_repo/" ++ home_page_source (content_mapping cfg).

Definition home_dest (cfg : Config) : str :=
  destination_folder (content_mapping cfg) ++ lit "/index.md".

Definition media_root (cfg : Config) : str :=
  destination_folder (content_mapping cfg) ++ lit "/"
  ++ media_destination_folder (content_mapping cfg).

Definition banner (cfg : Config) : str :=
  lit "Destination folder: " ++ destination_folder (content_mapping cfg).

Definition success : str := lit "Website generated successfully!".

(** The calls of a run up to the subpage step, and after it. *)
Definition opening (config : str) (cfg : Config) : list call :=
  [LoadConfig config;
   Fetch (source_repository cfg);
   Print (banner cfg);
   CreateStructure (destination_folder (content_mapping cfg));
   ConvertFile (home_source cfg) (home_dest cfg) Cli.source_repo].



(** The calls of the subpage step. *)
Definition is_page_call (c : call) : bool :=
  match c with
  | MakeDirs _ _ | ConvertFile _ _ _ => true
  | _ => false
  end.






(** What a run writes for the user to read. *)
Definition outputs (cs : list call) : list str :=
  flat_map (fun c => match c with Print m | Echo m => [m] | _ => [] end) cs.

(** Lexical order of a sequence of paths. *)
Fixpoint lexically_sorted (l : list str) : bool :=
  match l with
  | [] => true
  | a :: rest =>
      match rest with
      | [] => true
      | b :: _ => Str.leb a b && lexically_sorted rest
      end
  end.

(** [all_calls P m]: whatever the world, the calls of [m] satisfy [P]. *)
Definition all_calls {W A} (P : call -> bool) (m : M W A) : Prop :=
  forall w, Forall (fun c => P c = true) (events (trace_of (m w))).

(** [walks cfg folder es w]: in the world [w] the subpage step walks the
    configured folder, whose tree is [es] and holds file names only. *)
Definition walks {W} {os : OS W} (cfg : Config) (folder : str)
    (es : list entry) (w : W) : Prop :=
  Cli.subpages_configured cfg = Some folder
  /\ path_exists (subpages_top folder) w = true
  /\ scantree (subpages_top folder) w = Some es
  /\ names_ok es = true.

(** The worlds of a run, in order: those in which it makes its calls,
    and the world that it leaves. *)
Definition worlds {W A} (x : list (W * call) * W * result A) : list W :=
  map fst (trace_of x) ++ [final_world x].

(** [threaded m]: a run of [m] makes its first call in the world in
    which it starts, and leaves that world as it is when it makes none. *)
Definition threaded {W A} (m : M W A) : Prop :=
  forall w, hd w (worlds (m w)) = w.

(** [tree_kept top es x]: the tree below [top] is [es] in every world of
    the run [x].  The loop of the subpage step then lists, in each
    directory that it enters, what was there when the loop started: no
    call of the step writes below [top]. *)
Definition tree_kept {W A} {os : OS W} (top : str) (es : list entry)
    (x : list (W * call) * W * result A) : Prop :=
  Forall (fun w => scantree top w = Some es) (worlds x).

(** A markdown file with the names of the directories that lead to it,
    all of them names of a listing. *)
Definition page_ok (x : list str * str) : bool :=
  forallb name_ok (fst x) && name_ok (snd x) && is_md x.

(** [paged cfg top dest m]: the log of every run of [m] is that of the
    loop body over some markdown files of [top]. *)
Definition paged {W} {os : OS W} {co : Collaborators W}
    (cfg : Config) (top dest : str) (m : M W unit) : Prop :=
  forall w, exists l,
    pages_trace cfg top dest l (trace_of (m w)) (outcome_of (m w))
    /\ forallb page_ok l = true.

(** ** The asset relocator *)

(** Modelled from the spec: the Asset Relocator, [AssetHandler.copy_assets]
    of [divisor.assets], which [cli.py] calls and does not contain.  Its
    contract (section 4.3) is [copyAssets(sourceRoot, mediaDestination)]:
    for every non-markdown file reachable under the source root an
    AssetRecord is made and the bytes are copied to
    [mediaDestination/<relative path>]; markdown files and dot-prefixed
    version-control directories are skipped. *)
Module Assets.






End Assets.

(** ** Sample worlds *)

Module Sample.

Import Model.

Definition dir (n : string) (es : list (str * node)) : str * node :=
  (lit n, NDir es).

Definition file (n : string) : str * node := (lit n, NFile).

Definition config_with (sub : option str) : Config := {|
  source_repository := lit "https://example.org/wiki.git";
  content_mapping := {|
    home_page_source := lit "home.md";
    subpages_folder := sub;
    destination_folder := lit "site";
    media_destination_folder := lit "assets/media"
  |}
|}.

Definition cfg_site : Config := config_with (Some (lit "sub")).

(** The same site, with a separator at the end of the destination folder. *)
Definition cfg_slash : Config := {|
  source_repository := lit "https://example.org/wiki.git";
  content_mapping := {|
    home_page_source := lit "home.md";
    subpages_folder := Some (lit "sub");
    destination_folder := lit "site/";
    media_destination_folder := lit "assets/media"
  |}
|}.
Definition cfg_unset : Config := config_with None.
Definition cfg_none : Config := config_with (Some (lit "<none>")).

Definition world_with (sub : string) (es : list (str * node)) : world := {|
  cwd := [lit "home"; lit "u"];
  root := [dir "home" [dir "u" [dir "source_repo" [file "home.md"; dir sub es]]]]
|}.

(** Pages at two levels, a file that is not markdown and one whose
    suffix is in upper case; every listing is in the order of the names. *)
Definition pages : list (str * node) :=
  [dir "a" [file "b.md"; file "c.txt"]; file "x.MD"; file "z.md"].

Definition w_site : world := world_with "sub" pages.

(** Two files whose names begin with a dot. *)
Definition dotted : list (str * node) := [file ".md"; file ".md.md"].

Definition w_dotted : world := world_with "sub" dotted.

(** A directory that is named like the marker of an unset folder. *)
Definition w_none : world := world_with "<none>" [file "p.md"].

(** A source tree without the folder. *)
Definition w_bare : world := {|
  cwd := [lit "home"; lit "u"];
  root := [dir "home" [dir "u" [dir "source_repo" [file "home.md"]]]]
|}.

(** A bound that the walks of the sample worlds do not reach. *)
Definition fuel : nat := 8.

Definition step (cfg : Config) (w : world) :=
  @Cli.convert_subpages world model_os (model_collaborators cfg) fuel cfg w.

Definition run (cfg : Config) (w : world) :=
  @Cli.generate world model_os (model_collaborators cfg) fuel
    (lit "config.yml") w.

(** A fetched source and a site built in the default destination folder. *)
Definition w_built : world := {|
  cwd := [lit "home"; lit "u"];
  root := [dir "home" [dir "u" [dir "source_repo" [file "home.md"];
                                dir "site_contents" [file "index.md"];
                                dir "site" [file "index.md"]]]]
|}.

(** A regular file where the fetched source should be. *)
Definition w_stray : world := {|
  cwd := [lit "home"; lit "u"];
  root := [dir "home" [dir "u" [file "source_repo";
                                dir "site_contents" [file "index.md"]]]]
|}.

(** A directory named [config.yml]. *)
Definition w_config_dir : world := {|
  cwd := [lit "home"; lit "u"];
  root := [dir "home" [dir "u" [dir "config.yml" []]]]
|}.

(** The destination folder [out] inside the walked folder: the step
    writes its pages where the walk goes next. *)
Definition cfg_inside : Config := {|
  source_repository := lit "https://example.org/wiki.git";
  content_mapping := {|
    home_page_source := lit "home.md";
    subpages_folder := Some (lit "sub");
    destination_folder := lit "source_repo/sub/out";
    media_destination_folder := lit "assets/media"
  |}
|}.

Definition inside : list (str * node) :=
  [file "x.md"; dir "a" [file "b.md"]; dir "out" []].

Definition w_inside : world := world_with "sub" inside.

(** The same, with a regular file where the directory of a page that the
    step has written would be made. *)
Definition w_inside_blocked : world :=
  world_with "sub" [file "x.md"; dir "out" [dir "out" [file "x"]]].

(** The pages of [w_site], and a regular file [a] in the destination
    folder, where the directory of the pages of [a] should be made. *)
Definition w_blocked : world := {|
  cwd := [lit "home"; lit "u"];
  root := [dir "home" [dir "u" [dir "source_repo" [file "home.md"; dir "sub" pages];
                                dir "site" [file "a"]]]]
|}.

End Sample.

(** ** [setup] and [themes] *)

Module Setup.

(** [l[i]] for a Python list: a negative index counts from the end, an
    index out of range raises [IndexError]. *)
Definition py_index {A} (l : list A) (i : Z) : result A :=
  let n := Z.of_nat (length l) in
  let j := if (i <? 0)%Z then (i + n)%Z else i in
  if (j <? 0)%Z || (n <=? j)%Z then Raise IndexError
  else match nth_error l (Z.to_nat j) with
       | Some x => Ok x
       | None => Raise IndexError
       end.

(** [s[:stop]]: a negative [stop] counts from the end, and the bounds are
    clipped to the string. *)
Definition slice_until (s : str) (stop : Z) : str :=
  let n := Z.of_nat (length s) in
  let k := if (stop <? 0)%Z then Z.max 0 (n + stop) else Z.min stop n in
  firstn (Z.to_nat k) s.

(** [click.prompt(text, default=default)] on the line that the user typed:
    an empty line gives the default. *)
Definition prompt (input default : str) : str :=
  match input with
  | [] => default
  | _ => input
  end.

(** The lines that [themes()] writes. *)
Definition themes : list str :=
  [lit "Available themes:";
   lit "- architect"; lit "- cayman"; lit "- dinky"; lit "- hacker";
   lit "- leap-day"; lit "- merlot"; lit "- midnight"; lit "- minima";
   lit "- minimal"; lit "- modernist"; lit "- slate"; lit "- tactile";
   lit "- time-machine"].

Definition available_themes : list str :=
  [lit "architect"; lit "cayman"; lit "dinky"; lit "hacker"; lit "leap-day";
   lit "merlot"; lit "midnight"; lit "minima"; lit "minimal"; lit "modernist";
   lit "slate"; lit "tactile"; lit "time-machine"].

(** What the user types at the prompts of [setup()], in their order.  The
    choice of the theme is the number that [click.IntRange] accepted, or
    nothing for an empty line. *)
Record Inputs : Type := {
  in_title : str;
  in_description : str;
  in_theme : option Z;
  in_github_repository_url : str;
  in_github_pages_url : str;
  in_custom_domain : str;
  in_source_repository : str;
  in_home_page_source : str;
  in_subpages_folder : str;
  in_destination_folder : str;
  in_media_destination_folder : str
}.

(** The value that [yaml.dump] receives: strings, and mappings whose keys
    are in insertion order ([sort_keys=False]). *)
#[local] Unset Elimination Schemes.
Inductive yaml : Type :=
| YStr (s : str)
| YMap (items : list (str * yaml)).
#[local] Set Elimination Schemes.

(** [d[key]] on a mapping. *)
Fixpoint get (key : str) (items : list (str * yaml)) : option yaml :=
  match items with
  | [] => None
  | (k, v) :: items' => if Str.eqb k key then Some v else get key items'
  end.

(** Lines 130 to 136: the default of the GitHub Pages URL. *)
Definition default_pages_url (repo_url : str) : result str :=
  if Str.endswith repo_url (lit ".git") then
    match py_index (Str.split repo_url "/"%char) (-1) with
    | Raise e => Raise e
    | Ok last_part =>
        let repo_name := slice_until last_part (-4) in
        match py_index (Str.split repo_url "/"%char) (-2) with
        | Raise e => Raise e
        | Ok owner_part =>
            match py_index (Str.split owner_part ":"%char) (-1) with
            | Raise e => Raise e
            | Ok user_name =>
                Ok (lit "https://" ++ user_name ++ lit ".github.io/"
                    ++ repo_name ++ lit "/")
            end
        end
    end
  else Ok (lit "https://your-username.github.io/your-repo/").

(** Lines 106 to 148 of [setup()]: the [config_data] that the answers
    give, or the exception that ends the command before [config.yml] is
    opened. *)
Definition config_data (i : Inputs) : result yaml :=
  let title := prompt (in_title i) (lit "My Awesome Website") in
  let description :=
    prompt (in_description i) (lit "Website created with fonte.wiki and Divisor") in
  let theme_choice_index :=
    match in_theme i with Some n => n | None => 8%Z end in
  match py_index available_themes (theme_choice_index - 1) with
  | Raise e => Raise e
  | Ok theme =>
      let github_repository_url :=
        prompt (in_github_repository_url i)
          (lit "git@github.com:your-username/your-repo.git") in
      match default_pages_url github_repository_url with
      | Raise e => Raise e
      | Ok pages_default =>
          Ok (YMap
            [(lit "site_metadata",
              YMap
                [(lit "title", YStr title);
                 (lit "description", YStr description);
                 (lit "theme", YStr theme);
                 (lit "github_repository_url", YStr github_repository_url);
                 (lit "github_pages_url",
                  YStr (prompt (in_github_pages_url i) pages_default));
                 (lit "custom_domain",
                  YStr (prompt (in_custom_domain i) (lit "<none>")))]);
             (lit "source_repository",
              YStr (prompt (in_source_repository i)
                      (lit "https://github.com/fonte-wiki/Backup-fonte-wiki")));
             (lit "content_mapping",
              YMap
                [(lit "home_page_source",
                  YStr (prompt (in_home_page_source i) (lit "home.md")));
                 (lit "subpages_folder",
                  YStr (prompt (in_subpages_folder i) (lit "<none>")));
                 (lit "destination_folder",
                  YStr (prompt (in_destination_folder i) (lit "site_contents")));
                 (lit "media_destination_folder",
                  YStr (prompt (in_media_destination_folder i)
                          (lit "assets/media")))])])
      end
  end.

(** Lines 150 to 152: [open("config.yml", "w")] and
    [yaml.dump(config_data, f, ...)], which may raise (the name may be
    that of a directory, the directory may not be writable). *)
Class ConfigFile (W : Type) : Type := {
  write_config : yaml -> W -> W * result unit
}.

(** [setup()]: the world that it leaves, and the [config_data] that it
    dumped when it returns. *)
Definition setup {W} {cf : ConfigFile W} (i : Inputs) (w : W)
  : W * result yaml :=
  match config_data i with
  | Raise e => (w, Raise e)
  | Ok data =>
      match write_config data w with
      | (w', Ok _) => (w', Ok data)
      | (w', Raise e) => (w', Raise e)
      end
  end.

(** The numbers that [click.IntRange(1, len(available_themes))] accepts;
    an empty line stands for the default. *)
Definition in_range (choice : option Z) : Prop :=
  match choice with
  | None => True
  | Some n => (1 <= n <= Z.of_nat (length available_themes))%Z
  end.

(** [config_data[section][key]] *)
Definition field (section key : str) (data : yaml) : option yaml :=
  match data with
  | YMap items =>
      match get section items with
      | Some (YMap fields) => get key fields
      | _ => None
      end
  | YStr _ => None
  end.

(** Nothing typed at any prompt. *)
Definition no_input : Inputs := {|
  in_title := [];
  in_description := [];
  in_theme := None;
  in_github_repository_url := [];
  in_github_pages_url := [];
  in_custom_domain := [];
  in_source_repository := [];
  in_home_page_source := [];
  in_subpages_folder := [];
  in_destination_folder := [];
  in_media_destination_folder := []
|}.

(** The same, but for the repository URL and the number of the theme. *)
Definition typed (url : str) (theme : option Z) : Inputs := {|
  in_title := [];
  in_description := [];
  in_theme := theme;
  in_github_repository_url := url;
  in_github_pages_url := [];
  in_custom_domain := [];
  in_source_repository := [];
  in_home_page_source := [];
  in_subpages_folder := [];
  in_destination_folder := [];
  in_media_destination_folder := []
|}.

End Setup.

(** [config.yml] in the file system of [Model]: a directory of that name
    cannot be opened for writing, a file is overwritten or created. *)
Module Writing.

Import Model.

#[global] Instance model_config_file : Setup.ConfigFile world := {
  write_config _ w :=
    match stat w (lit "config.yml") with
    | Some NFile => (w, Ok tt)
    | Some (NDir _) => (w, Raise OSError)
    | None =>
        match create NFile (lit "config.yml") w with
        | Ok w' => (w', Ok tt)
        | Raise e => (w, Raise e)
        end
    end
}.

End Writing.

(** ** [clean] *)

(** [shutil.rmtree], beside the primitives of [OS]. *)
Class Remover (W : Type) : Type := {
  rmtree : str -> W -> W * result unit
}.

(** What [clean()] does to the outside. *)
Inductive clean_call : Type :=
| RmTree (path : str)
| Say (message : str).

Section Clean.

Context {W : Type} {os : OS W} {rm : Remover W}.

(** One of the two [if os.path.exists(...)] blocks of [clean()]. *)
Definition clean_one (path message : str) (w : W)
  : list clean_call * W * result unit :=
  if path_exists path w then
    match rmtree path w with
    | (w', Ok _) => ([RmTree path; Say message], w', Ok tt)
    | (w', Raise e) => ([RmTree path], w', Raise e)
    end
  else ([], w, Ok tt).

(** [clean()] *)
Definition clean (w : W) : list clean_call * W * result unit :=
  match clean_one (lit "source_repo") (lit "Removed source_repo directory.") w with
  | (t1, w1, Ok _) =>
      match clean_one (lit "site_contents")
              (lit "Removed site_contents directory.") w1 with
      | (t2, w2, r) => (t1 ++ t2, w2, r)
      end
  | (t1, w1, Raise e) => (t1, w1, Raise e)
  end.

End Clean.

(** What the proofs about [clean] rely on: a tree that [shutil.rmtree]
    removed is gone, and removing never makes a path exist. *)
Record RemoverLaws {W} (os : OS W) (rm : Remover W) : Prop := {
  rmtree_gone : forall p w w',
    rmtree p w = (w', Ok tt) -> path_exists p w' = false;
  rmtree_no_new : forall p q w w' r,
    path_exists p w = false -> rmtree q w = (w', r) ->
    path_exists p w' = false
}.

Arguments rmtree_gone {W os rm} _ p w w' _.
Arguments rmtree_no_new {W os rm} _ p q w w' r _ _.

(** Removal in the file system of [Model]. *)
Module Removal.

Import Model.

(** The tree without the entries at the canonical [path]. *)
Fixpoint remove (es : list (str * node)) (path : list str)
  : list (str * node) :=
  match path with
  | [] => es
  | c :: path' =>
      match path' with
      | [] => filter (fun e : str * node => negb (Str.eqb (fst e) c)) es
      | _ =>
          map (fun e : str * node =>
                 let (n, x) := e in
                 if Str.eqb n c
                 then match x with
                      | NDir sub => (n, NDir (remove sub path'))
                      | NFile => e
                      end
                 else e) es
      end
  end.

#[global] Instance model_remover : Remover world := {
  rmtree p w :=
    match resolve w p with
    | Some cur =>
        match cur with
        | [] => (w, Raise OSError)
        | _ =>
            if is_dir (lookup (root w) cur)
            then ({| cwd := cwd w; root := remove (root w) cur |}, Ok tt)
            else (w, Raise OSError)
        end
    | None => (w, Raise OSError)
    end
}.

End Removal.

(** * Properties *)

(** ** [posixpath] on sample paths *)

Example splitext_page :
  PosixPath.splitext (lit "a/b/c.md") = (lit "a/b/c", lit ".md").
Proof. reflexivity. Qed.

Example splitext_dotfile :
  PosixPath.splitext (lit "a/.md") = (lit "a/.md", lit "").
Proof. reflexivity. Qed.

Example splitext_dotfile_md :
  PosixPath.splitext (lit ".md.md") = (lit ".md", lit ".md").
Proof. reflexivity. Qed.

Example relpath_page :
  PosixPath.relpath (lit "/home/u") (lit "source_repo/sub/a/b/c.md")
    (lit "source_repo/sub") = Ok (lit "a/b/c.md").
Proof. reflexivity. Qed.

Example relpath_up :
  PosixPath.relpath (lit "/home/u") (lit "x/y") (lit "x/z/w") = Ok (lit "../../y").
Proof. reflexivity. Qed.

Example normpath_dots :
  PosixPath.normpath (lit "//a/./b/../c//") = lit "//a/c".
Proof. reflexivity. Qed.

Example split_trailing :
  PosixPath.split (lit "a/b//c") = (lit "a/b", lit "c").
Proof. reflexivity. Qed.

(** ** Strings *)

Module StrFacts.

Import Str.

Lemma eqb_refl (a : str) : eqb a a = true.
Proof.
  induction a as [|x a IH]; simpl; [reflexivity|].
  now rewrite Ascii.eqb_refl.
Qed.

Lemma eqb_eq (a b : str) : eqb a b = true <-> a = b.
Proof.
  split.
  - revert b; induction a as [|x a IH]; intros [|y b]; simpl; try discriminate; auto.
    intros H. apply andb_true_iff in H as [Hx Hab].
    apply Ascii.eqb_eq in Hx. subst. f_equal. now apply IH.
  - intros ->. apply eqb_refl.
Qed.

Lemma eqb_neq (a b : str) : eqb a b = false <-> a <> b.
Proof.
  rewrite <- eqb_eq. destruct (eqb a b); split; congruence.
Qed.

Lemma startswith_iff (s p : str) :
  startswith s p = true <-> exists r, s = p ++ r.
Proof.
  revert s; induction p as [|y p IH]; intros s; simpl.
  - split; [intros _; now exists s | reflexivity].
  - destruct s as [|x s].
    + split; [discriminate | intros [r Hr]; discriminate].
    + rewrite andb_true_iff, Ascii.eqb_eq, IH. split.
      * intros [-> [r ->]]. now exists r.
      * intros [r Hr]. injection Hr as -> ->. split; [reflexivity | now exists r].
Qed.

Lemma endswith_iff (s p : str) :
  endswith s p = true <-> exists r, s = r ++ p.
Proof.
  unfold endswith. rewrite startswith_iff. split.
  - intros [r Hr]. exists (rev r).
    rewrite <- (rev_involutive s), Hr, rev_app_distr.
    now rewrite rev_involutive.
  - intros [r ->]. exists (rev r). apply rev_app_distr.
Qed.

Lemma rfind_ge (s : str) (c : ascii) : (-1 <= rfind s c)%Z.
Proof.
  induction s as [|x s IH]; simpl; [lia|].
  destruct (Z.leb_spec 0 (rfind s c)); [lia|].
  destruct (Ascii.eqb x c); lia.
Qed.

Lemma rfind_notin (s : str) (c : ascii) : ~ In c s -> rfind s c = (-1)%Z.
Proof.
  induction s as [|x s IH]; simpl; intros H; [reflexivity|].
  rewrite IH by tauto. simpl.
  destruct (Ascii.eqb_spec x c); [subst; tauto | reflexivity].
Qed.

Lemma rfind_app_notin (a b : str) (c : ascii) :
  ~ In c b -> rfind (a ++ b) c = rfind a c.
Proof.
  intros H. induction a as [|x a IH]; simpl.
  - now apply rfind_notin.
  - now rewrite IH.
Qed.

Lemma rfind_app_last (a b : str) (c : ascii) :
  ~ In c b -> rfind (a ++ c :: b) c = Z.of_nat (length a).
Proof.
  intros H. induction a as [|x a IH].
  - simpl. rewrite (rfind_notin _ _ H). simpl. now rewrite Ascii.eqb_refl.
  - cbn [app rfind length]. rewrite IH.
    destruct (Z.leb_spec 0 (Z.of_nat (length a))); lia.
Qed.

Lemma split_nonnil (s : str) (c : ascii) : split s c <> [].
Proof.
  destruct s as [|x s]; simpl; [discriminate|].
  destruct (Ascii.eqb x c); [discriminate|].
  destruct (split s c); discriminate.
Qed.

Lemma split_notin (s : str) (c : ascii) : ~ In c s -> split s c = [s].
Proof.
  induction s as [|x s IH]; simpl; intros H; [reflexivity|].
  destruct (Ascii.eqb_spec x c); [subst; tauto|].
  rewrite IH by tauto. reflexivity.
Qed.

Lemma split_app_sep (a b : str) (c : ascii) :
  split (a ++ c :: b) c = split a c ++ split b c.
Proof.
  induction a as [|x a IH]; cbn [app split].
  - now rewrite Ascii.eqb_refl.
  - destruct (Ascii.eqb x c); [now rewrite IH|].
    rewrite IH. destruct (split a c) eqn:E; [|reflexivity].
    now apply split_nonnil in E.
Qed.

Lemma split_free (s : str) (c : ascii) : Forall (fun x => ~ In c x) (split s c).
Proof.
  induction s as [|x s IH]; simpl.
  - constructor; [tauto | constructor].
  - destruct (Ascii.eqb_spec x c).
    + constructor; [tauto | assumption].
    + destruct (split s c) as [|h t]; [repeat constructor; simpl; intuition congruence|].
      inversion IH; subst. constructor; [|assumption].
      simpl. intuition congruence.
Qed.

Lemma split_join (l : list str) (c : ascii) :
  l <> [] -> Forall (fun x => ~ In c x) l -> split (join c l) c = l.
Proof.
  induction l as [|a l IH]; intros Hne Hall; [congruence|].
  inversion Hall as [|? ? Ha Hl]; subst.
  destruct l as [|b l].
  - simpl. now apply split_notin.
  - change (join c (a :: b :: l)) with (a ++ c :: join c (b :: l)).
    rewrite split_app_sep, split_notin by assumption.
    rewrite IH by (assumption || discriminate). reflexivity.
Qed.

Lemma join_cons (c : ascii) (a : str) (l : list str) :
  l <> [] -> join c (a :: l) = a ++ c :: join c l.
Proof. destruct l; [congruence | reflexivity]. Qed.

Lemma join_snoc (c : ascii) (l : list str) (a : str) :
  l <> [] -> join c (l ++ [a]) = join c l ++ c :: a.
Proof.
  induction l as [|b l IH]; intros H; [congruence|].
  destruct l as [|b' l]; [reflexivity|].
  change ((b :: b' :: l) ++ [a]) with (b :: ((b' :: l) ++ [a])).
  rewrite join_cons by (simpl; discriminate).
  rewrite IH by discriminate.
  rewrite (join_cons c b (b' :: l)) by discriminate.
  now rewrite <- app_assoc.
Qed.

Lemma firstn_length_app {A} (a b : list A) : firstn (length a) (a ++ b) = a.
Proof. induction a as [|x a IH]; simpl; [reflexivity | now rewrite IH]. Qed.

Lemma skipn_length_app {A} (a b : list A) : skipn (length a) (a ++ b) = b.
Proof. induction a as [|x a IH]; simpl; [reflexivity | exact IH]. Qed.

Lemma ltb_irrefl (a : str) : ltb a a = false.
Proof.
  induction a as [|x a IH]; simpl; [reflexivity|].
  now rewrite Nat.ltb_irrefl.
Qed.

End StrFacts.

(** ** Paths *)

Module PathFacts.

Import Str StrFacts PosixPath.

Lemma name_ok_spec (c : str) :
  name_ok c = true ->
  c <> [] /\ c <> curdir /\ c <> pardir /\ ~ In sep c.
Proof.
  unfold name_ok. rewrite !andb_true_iff, !negb_true_iff.
  intros [[[H1 H2] H3] H4]. repeat split.
  - destruct c; [discriminate | congruence].
  - now apply eqb_neq.
  - now apply eqb_neq.
  - intros Hin.
    assert (existsb (Ascii.eqb sep) c = true) as E
      by (apply existsb_exists; exists sep; split; [assumption | apply Ascii.eqb_refl]).
    congruence.
Qed.

Lemma names_free (l : list str) :
  forallb name_ok l = true -> Forall (fun x => ~ In sep x) l.
Proof.
  rewrite forallb_forall, Forall_forall. intros H x Hx.
  now apply name_ok_spec, H.
Qed.

Lemma startswith_sep_false (b : str) :
  b <> [] -> ~ In sep b -> startswith b [sep] = false.
Proof.
  destruct b as [|x b]; [congruence|]. intros _ H. simpl.
  destruct (Ascii.eqb_spec x sep); [|reflexivity].
  subst. exfalso. apply H. now left.
Qed.

Lemma endswith_sep_false (b : str) :
  ~ In sep b -> endswith b [sep] = false.
Proof.
  intros H. destruct (endswith b [sep]) eqn:E; [|reflexivity].
  apply endswith_iff in E as [r ->]. exfalso. apply H.
  apply in_or_app. right. now left.
Qed.

Lemma with_sep_nonempty (a : str) : a <> [] -> with_sep a <> [].
Proof.
  destruct a as [|x a]; [congruence|]. intros _. unfold with_sep.
  destruct (endswith (x :: a) [sep]); discriminate.
Qed.

(** [with_sep a] is [a] up to one separator at the end. *)
Lemma with_sep_cases (a : str) :
  a <> [] ->
  exists b, with_sep a = b ++ [sep] /\ (a = b \/ a = b ++ [sep]).
Proof.
  intros Ha. unfold with_sep. destruct a as [|x a]; [congruence|].
  destruct (endswith (x :: a) [sep]) eqn:E.
  - apply endswith_iff in E as [r Hr]. exists r. rewrite Hr. auto.
  - exists (x :: a). auto.
Qed.

Lemma join_relative (a b : str) :
  startswith b [sep] = false -> join a b = with_sep a ++ b.
Proof.
  intros Hb. unfold join, with_sep. rewrite Hb.
  destruct a as [|x a]; [reflexivity|].
  destruct (endswith (x :: a) [sep]); [reflexivity|].
  now rewrite <- app_assoc.
Qed.

Lemma join_plain (a b : str) :
  a <> [] -> endswith a [sep] = false -> startswith b [sep] = false ->
  join a b = a ++ sep :: b.
Proof.
  intros Ha Ea Hb. unfold join. rewrite Hb, Ea.
  destruct a; [congruence | reflexivity].
Qed.

Lemma endswith_app_name (a b : str) :
  b <> [] -> ~ In sep b -> endswith (a ++ b) [sep] = false.
Proof.
  intros Hb Hfree. destruct (endswith (a ++ b) [sep]) eqn:E; [|reflexivity].
  apply endswith_iff in E as [r Hr]. exfalso.
  destruct (exists_last Hb) as [b' [y ->]].
  rewrite app_assoc in Hr. apply app_inj_tail in Hr as [_ ->].
  apply Hfree, in_or_app. right. now left.
Qed.

(** Joining names one after the other is joining them with separators. *)
Lemma join_all_names (a : str) (l : list str) :
  forallb name_ok l = true ->
  l <> [] ->
  join_all a l = with_sep a ++ Str.join sep l.
Proof.
  revert a. induction l as [|b l IH]; intros a Hl Hne; [congruence|].
  simpl in Hl. apply andb_true_iff in Hl as [Hb Hl].
  destruct (name_ok_spec b Hb) as (Hb1 & _ & _ & Hb4).
  unfold join_all. cbn [fold_left]. fold (join_all (join a b) l).
  rewrite (join_relative a) by now apply startswith_sep_false.
  destruct l as [|b' l]; [reflexivity|].
  rewrite IH by (assumption || discriminate).
  assert (with_sep (with_sep a ++ b) = with_sep a ++ b ++ [sep]) as ->.
  { unfold with_sep at 1.
    rewrite endswith_app_name by assumption.
    destruct (with_sep a ++ b) eqn:E.
    - apply app_eq_nil in E as [_ ?]. congruence.
    - now rewrite <- E, <- app_assoc. }
  rewrite (join_cons sep b (b' :: l)) by discriminate.
  now rewrite <- !app_assoc.
Qed.

Lemma join_names_nonempty (l : list str) :
  forallb name_ok l = true -> l <> [] -> Str.join sep l <> [].
Proof.
  destruct l as [|a l]; [congruence|]. intros H _.
  simpl in H. apply andb_true_iff in H as [Ha _].
  destruct (name_ok_spec a Ha) as (Ha1 & _).
  destruct l; simpl; [assumption|].
  destruct a; [congruence | discriminate].
Qed.

Lemma join_names_relative (l : list str) :
  forallb name_ok l = true -> l <> [] ->
  startswith (Str.join sep l) [sep] = false.
Proof.
  destruct l as [|a l]; [congruence|]. intros H _.
  simpl in H. apply andb_true_iff in H as [Ha _].
  destruct (name_ok_spec a Ha) as (Ha1 & _ & _ & Ha4).
  destruct a as [|x a]; [congruence|].
  assert (x <> sep) as Hx by (intros ->; apply Ha4; now left).
  apply Ascii.eqb_neq in Hx.
  destruct l; simpl; now rewrite Hx.
Qed.

(** The path of a walked file is the top, a separator, and the names. *)
Lemma walked_path_eq (top : str) (ds : list str) (f : str) :
  forallb name_ok ds = true -> name_ok f = true ->
  walked_path top ds f = with_sep top ++ Str.join sep (ds ++ [f]).
Proof.
  intros Hds Hf. unfold walked_path.
  assert (join (join_all top ds) f = join_all top (ds ++ [f])) as ->
    by (unfold join_all; now rewrite fold_left_app).
  apply join_all_names.
  - rewrite forallb_app, Hds. simpl. now rewrite Hf.
  - destruct ds; discriminate.
Qed.

(** *** [normpath] and [relpath] *)

Local Abbreviation good := (fun c : str => c <> [] /\ ~ In sep c /\ c <> pardir).

Lemma norm_step_name (k : nat) (nc : list str) (c : str) :
  name_ok c = true -> norm_step k nc c = nc ++ [c].
Proof.
  intros H. destruct (name_ok_spec c H) as (H1 & H2 & H3 & _).
  apply eqb_neq in H1, H2, H3. unfold norm_step.
  now rewrite H1, H2, H3.
Qed.

Lemma norm_fold_names (k : nat) (l nc : list str) :
  forallb name_ok l = true -> fold_left (norm_step k) l nc = nc ++ l.
Proof.
  revert nc. induction l as [|c l IH]; intros nc H; simpl.
  - now rewrite app_nil_r.
  - simpl in H. apply andb_true_iff in H as [Hc Hl].
    rewrite norm_step_name by assumption.
    rewrite IH by assumption. now rewrite <- app_assoc.
Qed.

Lemma norm_step_pos (k : nat) (nc : list str) (c : str) :
  k <> 0 -> norm_step k nc c = norm_step 1 nc c.
Proof.
  intros Hk. unfold norm_step.
  destruct k; [congruence | reflexivity].
Qed.

Lemma norm_fold_pos (k : nat) (l nc : list str) :
  k <> 0 -> fold_left (norm_step k) l nc = fold_left (norm_step 1) l nc.
Proof.
  intros Hk. revert nc. induction l as [|c l IH]; intros nc; simpl; [reflexivity|].
  now rewrite IH, norm_step_pos.
Qed.

Lemma Forall_removelast {A} (P : A -> Prop) (l : list A) :
  Forall P l -> Forall P (removelast l).
Proof.
  induction l as [|x l IH]; intros H; [assumption|].
  inversion H; subst. simpl. destruct l; [constructor|].
  constructor; auto.
Qed.

Lemma Forall_last {A} (P : A -> Prop) (l : list A) (d : A) :
  l <> [] -> Forall P l -> P (last l d).
Proof.
  induction l as [|x l IH]; intros Hne H; [congruence|].
  inversion H; subst. destruct l; [assumption|].
  apply IH; [discriminate | assumption].
Qed.

Lemma norm_step_good (nc : list str) (c : str) :
  ~ In sep c -> Forall good nc -> Forall good (norm_step 1 nc c).
Proof.
  intros Hc Hnc. unfold norm_step.
  destruct (eqb c []) eqn:E1; [assumption|].
  destruct (eqb c curdir) eqn:E2; [assumption|]. simpl.
  apply eqb_neq in E1.
  destruct (eqb c pardir) eqn:E3; simpl.
  - destruct nc as [|x nc]; [constructor|].
    destruct (eqb (last (x :: nc) []) pardir) eqn:E4.
    + apply eqb_eq in E4. exfalso.
      assert (good (last (x :: nc) [])) as (_ & _ & Hl)
        by (apply (Forall_last good); [discriminate | assumption]).
      congruence.
    + now apply Forall_removelast.
  - apply eqb_neq in E3. apply Forall_app. split; [assumption|].
    constructor; [tauto | constructor].
Qed.

Lemma norm_fold_good (l nc : list str) :
  Forall (fun c => ~ In sep c) l -> Forall good nc ->
  Forall good (fold_left (norm_step 1) l nc).
Proof.
  revert nc. induction l as [|c l IH]; intros nc Hl Hnc; [assumption|].
  inversion Hl; subst. simpl. apply IH; [assumption|].
  now apply norm_step_good.
Qed.

(** The components that an absolute path normalizes to. *)
Local Abbreviation norm_comps p := (fold_left (norm_step 1) (Str.split p sep) []).

Lemma normpath_abs (p : str) :
  startswith p [sep] = true ->
  exists k, normpath p = sep :: repeat sep k ++ Str.join sep (norm_comps p).
Proof.
  intros Hp. destruct p as [|x p]; [discriminate|].
  unfold normpath.
  assert (exists k, initial_slashes_of (x :: p) = S k) as [k Hk].
  { unfold initial_slashes_of. rewrite Hp.
    destruct (_ && _); eauto. }
  rewrite Hk. exists k.
  rewrite norm_fold_pos by discriminate. reflexivity.
Qed.

Lemma filter_split_seps (k : nat) (y : str) :
  filter nonempty (Str.split (repeat sep k ++ y) sep)
  = filter nonempty (Str.split y sep).
Proof.
  induction k as [|k IH]; [reflexivity|].
  cbn [repeat app Str.split]. rewrite Ascii.eqb_refl. simpl. exact IH.
Qed.

Lemma filter_nonempty_good (l : list str) :
  Forall good l -> filter nonempty l = l.
Proof.
  induction 1 as [|c l (Hc & _) _ IH]; [reflexivity|].
  simpl. destruct c; [congruence|]. simpl. now rewrite IH.
Qed.

Lemma filter_split_join (l : list str) :
  Forall good l -> filter nonempty (Str.split (Str.join sep l) sep) = l.
Proof.
  intros H. destruct l as [|a l]; [reflexivity|].
  rewrite split_join.
  - now apply filter_nonempty_good.
  - discriminate.
  - eapply Forall_impl; [|exact H]. simpl. tauto.
Qed.

Lemma comps_normpath_abs (p : str) :
  startswith p [sep] = true ->
  filter nonempty (Str.split (normpath p) sep) = norm_comps p.
Proof.
  intros Hp. destruct (normpath_abs p Hp) as [k ->].
  change (sep :: repeat sep k ++ ?y) with (repeat sep (S k) ++ y).
  rewrite filter_split_seps. apply filter_split_join.
  apply norm_fold_good; [apply split_free | constructor].
Qed.

Lemma with_sep_abs (a : str) :
  startswith a [sep] = true -> exists r, with_sep a = sep :: r.
Proof.
  destruct a as [|x a]; [discriminate|]. simpl.
  destruct (Ascii.eqb_spec x sep); [subst | discriminate]. intros _.
  unfold with_sep. destruct (endswith _ _); eauto.
Qed.

Lemma comps_abspath (cwd p : str) :
  isabs cwd = true -> isabs p = false ->
  filter nonempty (Str.split (abspath cwd p) sep)
  = norm_comps (with_sep cwd ++ p).
Proof.
  intros Hc Hp. unfold abspath. rewrite Hp.
  rewrite join_relative by exact Hp.
  apply comps_normpath_abs.
  destruct (with_sep_abs cwd Hc) as [r ->]. reflexivity.
Qed.

Lemma norm_comps_trailing (p : str) :
  norm_comps (p ++ [sep]) = norm_comps p.
Proof.
  rewrite split_app_sep. simpl. rewrite fold_left_app. reflexivity.
Qed.

Lemma list_ltb_app_l (a l : list str) : list_ltb (a ++ l) a = false.
Proof.
  induction a as [|x a IH]; simpl.
  - destruct l; reflexivity.
  - now rewrite ltb_irrefl.
Qed.

Lemma list_ltb_app_r (a l : list str) : l <> [] -> list_ltb a (a ++ l) = true.
Proof.
  intros Hl. induction a as [|x a IH]; simpl.
  - destruct l; [congruence | reflexivity].
  - now rewrite ltb_irrefl.
Qed.

Lemma commonprefix_loop_app (a l : list str) :
  commonprefix_loop a (a ++ l) = Ok a.
Proof.
  induction a as [|x a IH]; simpl; [reflexivity|].
  now rewrite eqb_refl, IH.
Qed.

Lemma commonprefix_app (a l : list str) : commonprefix a (a ++ l) = Ok a.
Proof.
  unfold commonprefix, min2, max2. rewrite list_ltb_app_l.
  destruct l as [|y l].
  - rewrite app_nil_r. destruct (list_ltb a a);
      rewrite <- (app_nil_r a) at 2; apply commonprefix_loop_app.
  - rewrite list_ltb_app_r by discriminate. apply commonprefix_loop_app.
Qed.

Lemma relpath_unfold (cwd path start : str) :
  path <> [] ->
  relpath cwd path start =
    let start_list := filter nonempty (Str.split (abspath cwd start) sep) in
    let path_list := filter nonempty (Str.split (abspath cwd path) sep) in
    match commonprefix start_list path_list with
    | Raise e => Raise e
    | Ok common =>
        let i := length common in
        let rel_list :=
          repeat pardir (length start_list - i) ++ skipn i path_list in
        match rel_list with
        | [] => Ok curdir
        | a :: p => Ok (join_all a p)
        end
    end.
Proof. destruct path; [congruence | reflexivity]. Qed.

(** [relpath] gives back the names that were joined to the start. *)
Lemma relpath_names (cwd top : str) (l : list str) :
  isabs cwd = true -> top <> [] -> isabs top = false ->
  forallb name_ok l = true -> l <> [] ->
  relpath cwd (with_sep top ++ Str.join sep l) top = Ok (Str.join sep l).
Proof.
  intros Hcwd Htop Hrel Hl Hne.
  assert (isabs (with_sep top ++ Str.join sep l) = false) as Hrel'.
  { destruct top as [|x top]; [congruence|].
    unfold with_sep. destruct (endswith _ _); exact Hrel. }
  rewrite relpath_unfold
    by (intros E; apply app_eq_nil in E as [E _]; now apply with_sep_nonempty in E).
  cbv zeta. rewrite !comps_abspath by assumption.
  assert (norm_comps (with_sep cwd ++ with_sep top ++ Str.join sep l)
          = norm_comps (with_sep cwd ++ top) ++ l) as ->.
  { destruct (with_sep_cases top Htop) as [b [-> Hb]].
    rewrite <- app_assoc. cbn [app]. rewrite app_assoc, split_app_sep.
    rewrite split_join by (assumption || now apply names_free).
    rewrite fold_left_app, norm_fold_names by assumption.
    f_equal. destruct Hb as [-> | ->]; [reflexivity|].
    now rewrite app_assoc, norm_comps_trailing. }
  rewrite commonprefix_app.
  rewrite Nat.sub_diag, skipn_app, skipn_all, Nat.sub_diag. simpl.
  destruct l as [|a l]; [congruence|].
  simpl in Hl. apply andb_true_iff in Hl as [Ha Hl].
  destruct l as [|b l]; [reflexivity|].
  rewrite join_all_names by (assumption || discriminate).
  destruct (name_ok_spec a Ha) as (Ha1 & _ & _ & Ha4).
  unfold with_sep. rewrite endswith_sep_false by assumption.
  destruct a; [congruence|].
  rewrite (join_cons sep _ (b :: l)) by discriminate.
  now rewrite <- app_assoc.
Qed.

End PathFacts.

(** ** Runs *)

Module RunFacts.

Section Laws.

Context {W : Type}.

Lemma bind_ret_l {A B} (a : A) (k : A -> M W B) (w : W) :
  bind (ret a) k w = k a w.
Proof.
  unfold bind, ret. destruct (k a w) as [[t w'] r]. reflexivity.
Qed.

Lemma bind_reads {A B} (f : W -> A) (k : A -> M W B) (w : W) :
  bind (reads f) k w = k (f w) w.
Proof.
  unfold bind, reads. destruct (k (f w) w) as [[t w'] r]. reflexivity.
Qed.

Lemma bind_try {A B} (f : W -> result A) (k : A -> M W B) (w : W) :
  bind (try_ f) k w
  = match f w with
    | Ok a => k a w
    | Raise e => ([], w, Raise e)
    end.
Proof.
  unfold bind, try_. destruct (f w) as [a|e]; [|reflexivity].
  destruct (k a w) as [[t w'] r]. reflexivity.
Qed.

Lemma bind_assoc {A B C} (m : M W A) (k : A -> M W B) (h : B -> M W C) (w : W) :
  bind (bind m k) h w = bind m (fun a => bind (k a) h) w.
Proof.
  unfold bind. destruct (m w) as [[t1 w1] [a|e]]; [|reflexivity].
  destruct (k a w1) as [[t2 w2] [b|e]]; [|reflexivity].
  destruct (h b w2) as [[t3 w3] r]. now rewrite app_assoc.
Qed.

Lemma bind_ext {A B} (m : M W A) (k k' : A -> M W B) (w : W) :
  (forall a w', k a w' = k' a w') -> bind m k w = bind m k' w.
Proof.
  intros H. unfold bind. destruct (m w) as [[t1 w1] [a|e]]; [|reflexivity].
  now rewrite H.
Qed.

Lemma for_each_app {A} (l1 l2 : list A) (body : A -> M W unit) (w : W) :
  for_each (l1 ++ l2) body w
  = bind (for_each l1 body) (fun _ => for_each l2 body) w.
Proof.
  revert w. induction l1 as [|x l1 IH]; intros w; simpl.
  - now rewrite bind_ret_l.
  - rewrite bind_assoc. apply bind_ext. intros _ w'. apply IH.
Qed.

Lemma for_each_ext {A} (l : list A) (body body' : A -> M W unit) (w : W) :
  (forall x w', In x l -> body x w' = body' x w') ->
  for_each l body w = for_each l body' w.
Proof.
  revert w. induction l as [|x l IH]; intros w H; simpl; [reflexivity|].
  unfold bind. rewrite (H x w) by now left.
  destruct (body' x w) as [[t1 w1] [a|e]]; [|reflexivity].
  rewrite IH; [reflexivity|]. intros y w' Hy. apply H. now right.
Qed.

Lemma for_each_map {A B} (g : A -> B) (l : list A) (body : B -> M W unit) (w : W) :
  for_each (map g l) body w = for_each l (fun x => body (g x)) w.
Proof.
  revert w. induction l as [|x l IH]; intros w; simpl; [reflexivity|].
  apply bind_ext. intros _ w'. apply IH.
Qed.

Lemma for_each_flat_map {A B} (g : A -> list B) (l : list A)
    (body : B -> M W unit) (w : W) :
  for_each (flat_map g l) body w
  = for_each l (fun x => for_each (g x) body) w.
Proof.
  revert w. induction l as [|x l IH]; intros w; simpl; [reflexivity|].
  rewrite for_each_app. apply bind_ext. intros _ w'. apply IH.
Qed.

Lemma for_each_filter {A} (keep : A -> bool) (l : list A)
    (body : A -> M W unit) (w : W) :
  (forall x w', In x l -> keep x = false -> body x w' = ret tt w') ->
  for_each l body w = for_each (filter keep l) body w.
Proof.
  revert w. induction l as [|x l IH]; intros w H; simpl; [reflexivity|].
  destruct (keep x) eqn:E; simpl.
  - apply bind_ext. intros _ w'. apply IH.
    intros y w'' Hy. apply H. now right.
  - unfold bind at 1. rewrite (H x w) by (assumption || now left).
    unfold ret. rewrite IH by (intros y w'' Hy; apply H; now right).
    destruct (for_each (filter keep l) body w) as [[t w'] r]. reflexivity.
Qed.

End Laws.

End RunFacts.

(** ** The walk *)

Module WalkFacts.

Import PosixPath.

Lemma entry_induction (P : entry -> Prop) :
  (forall f, P (File f)) ->
  (forall d sub, Forall P sub -> P (Dir d sub)) ->
  forall e, P e.
Proof.
  intros HF HD. fix IH 1. intros [f|d sub]; [apply HF | apply HD].
  revert sub. fix IHl 1. intros [|x l]; constructor; [apply IH | apply IHl].
Qed.

(** The pairs of a directory and a file name that the two loops reach. *)
Abbreviation visit :=
  (fun t : str * list str * list str => map (pair (fst (fst t))) (snd t)).

Local Abbreviation locate top :=
  (fun x : list str * str => (join_all top (fst x), snd x)).

Lemma flat_map_flat_map {A B C} (g : B -> list C) (h : A -> list B) (l : list A) :
  flat_map g (flat_map h l) = flat_map (fun x => flat_map g (h x)) l.
Proof.
  induction l as [|x l IH]; simpl; [reflexivity|].
  now rewrite flat_map_app, IH.
Qed.

Lemma flat_map_ext_in {A B} (g h : A -> list B) (l : list A) :
  Forall (fun x => g x = h x) l -> flat_map g l = flat_map h l.
Proof.
  induction 1 as [|x l E _ IH]; simpl; [reflexivity|]. now rewrite E, IH.
Qed.

Lemma map_flat_map {A B C} (g : B -> C) (h : A -> list B) (l : list A) :
  map g (flat_map h l) = flat_map (fun x => map g (h x)) l.
Proof.
  induction l as [|x l IH]; simpl; [reflexivity|].
  now rewrite map_app, IH.
Qed.

Lemma visit_entry (e : entry) :
  forall top,
    flat_map visit (walk_entry top e) = map (locate top) (entry_files e).
Proof.
  induction e as [f|d sub IH] using entry_induction; intros top; [reflexivity|].
  cbn [walk_entry entry_files flat_map fst snd].
  rewrite map_map, map_app, map_map. f_equal.
  rewrite flat_map_flat_map, map_flat_map.
  apply flat_map_ext_in. eapply Forall_impl; [|exact IH].
  intros e He. cbn beta in He. now rewrite He.
Qed.

(** What the nested loops iterate over is the files of the tree, each
    with the directory that the walk joined for it. *)
Lemma visit_walk (top : str) (es : list entry) :
  flat_map visit (walk top es) = map (locate top) (tree_files es).
Proof.
  unfold walk, tree_files. cbn [flat_map fst snd].
  rewrite map_app, map_map. f_equal.
  rewrite flat_map_flat_map, map_flat_map.
  apply flat_map_ext_in, Forall_forall. intros e _. apply visit_entry.
Qed.

Lemma in_filenames (es : list entry) (f : str) :
  In f (filenames es) <-> In (File f) es.
Proof.
  unfold filenames. rewrite in_flat_map. split.
  - intros [[g|d sub] [He Hin]]; simpl in Hin; [|tauto].
    destruct Hin as [->|[]]. assumption.
  - intros H. exists (File f). split; [assumption | now left].
Qed.

Lemma in_entry_files (e : entry) :
  forall ds f,
    In (ds, f) (entry_files e) <->
    exists d sub ds', e = Dir d sub /\ ds = d :: ds' /\ file_at sub ds' f.
Proof.
  induction e as [g|d sub IH] using entry_induction; intros ds f.
  - simpl. split; [tauto | intros (d & sub & ds' & E & _); discriminate].
  - cbn [entry_files]. rewrite in_map_iff. split.
    + intros [[ds' f'] [E Hin]]. simpl in E. injection E as <- <-.
      exists d, sub, ds'. repeat split.
      apply in_app_or in Hin as [Hin|Hin].
      * apply in_map_iff in Hin as [g [E Hg]]. injection E as <- <-.
        exists sub. split; [constructor | now apply in_filenames].
      * apply in_flat_map in Hin as [e [He Hin]].
        rewrite Forall_forall in IH. apply (IH e He) in Hin.
        destruct Hin as (d' & sub' & ds'' & -> & -> & [s [Hs Hf]]).
        exists s. split; [|assumption]. econstructor; eassumption.
    + intros (d' & sub' & ds' & E & -> & [s [Hs Hf]]). injection E as <- <-.
      exists (ds', f). split; [reflexivity|]. apply in_or_app.
      inversion Hs as [|? d' sub' ds'' ? Hd Hs']; subst.
      * left. apply in_map_iff. exists f. split; [reflexivity|].
        now apply in_filenames.
      * right. apply in_flat_map. exists (Dir d' sub'). split; [assumption|].
        rewrite Forall_forall in IH. apply (IH _ Hd).
        exists d', sub', ds''. repeat split. now exists s.
Qed.

(** The walk reaches exactly the files of the tree. *)
Lemma in_tree_files (es : list entry) (ds : list str) (f : str) :
  In (ds, f) (tree_files es) <-> file_at es ds f.
Proof.
  unfold tree_files. rewrite in_app_iff, in_map_iff, in_flat_map. split.
  - intros [[g [E Hg]] | [e [He Hin]]].
    + injection E as <- <-. exists es. split; [constructor | now apply in_filenames].
    + apply in_entry_files in Hin as (d & sub & ds' & -> & -> & [s [Hs Hf]]).
      exists s. split; [|assumption]. econstructor; eassumption.
  - intros [s [Hs Hf]]. inversion Hs as [|? d sub ds' ? Hd Hs']; subst.
    + left. exists f. split; [reflexivity | now apply in_filenames].
    + right. exists (Dir d sub). split; [assumption|].
      apply in_entry_files. exists d, sub, ds'. repeat split. now exists s.
Qed.

Lemma dir_at_names (es : list entry) (ds : list str) (sub : list entry) :
  dir_at es ds sub -> names_ok es = true ->
  forallb name_ok ds = true /\ names_ok sub = true.
Proof.
  induction 1 as [es|es d sub ds sub' Hd _ IH]; intros Hes; [auto|].
  unfold names_ok in Hes. rewrite forallb_forall in Hes.
  apply Hes in Hd. simpl in Hd. apply andb_true_iff in Hd as [Hd Hsub].
  destruct (IH Hsub) as [Hds Hsub']. simpl. now rewrite Hd, Hds.
Qed.

Lemma file_at_names (es : list entry) (ds : list str) (f : str) :
  file_at es ds f -> names_ok es = true ->
  forallb name_ok ds = true /\ name_ok f = true.
Proof.
  intros [sub [Hs Hf]] Hes.
  destruct (dir_at_names _ _ _ Hs Hes) as [Hds Hsub]. split; [assumption|].
  unfold names_ok in Hsub. rewrite forallb_forall in Hsub.
  exact (Hsub _ Hf).
Qed.

End WalkFacts.

(** ** The subpage step *)

Module StepFacts.

Import PosixPath PathFacts RunFacts WalkFacts.

Section Step.

Context {W : Type} {os : OS W} {co : Collaborators W} {fuel : nat}.
Hypothesis laws : OSLaws os.

Lemma subpages_top_relative (folder : str) :
  subpages_top folder <> [] /\ isabs (subpages_top folder) = false.
Proof. split; [discriminate | reflexivity]. Qed.

(** The loop body on a walked file: its relative path is the names that
    lead to it, whatever the working directory is. *)
Lemma convert_subpage_page (cfg : Config) (top dest : str)
    (ds : list str) (f : str) (w : W) :
  top <> [] -> isabs top = false ->
  forallb name_ok ds = true -> name_ok f = true ->
  Cli.convert_subpage cfg top dest (join_all top ds) f w
  = if is_md (ds, f) then run_page cfg top dest (ds, f) w else ret tt w.
Proof.
  intros Htop Hrel Hds Hf. unfold Cli.convert_subpage, is_md. cbn [snd].
  destruct (Str.endswith f Cli.md_suffix); [|reflexivity].
  rewrite bind_try.
  fold (walked_path top ds f).
  rewrite (walked_path_eq top ds f Hds Hf) at 1.
  rewrite relpath_names; try assumption.
  - reflexivity.
  - apply (getcwd_abs laws).
  - rewrite forallb_app, Hds. simpl. now rewrite Hf.
  - destruct ds; discriminate.
Qed.

Lemma convert_subpages_unset (cfg : Config) (w : W) :
  Cli.subpages_configured cfg = None ->
  Cli.convert_subpages fuel cfg w = ret tt w.
Proof. intros H. unfold Cli.convert_subpages. now rewrite H. Qed.

Lemma convert_subpages_absent (cfg : Config) (folder : str) (w : W) :
  Cli.subpages_configured cfg = Some folder ->
  path_exists (subpages_top folder) w = false ->
  Cli.convert_subpages fuel cfg w = ret tt w.
Proof.
  intros H E. unfold Cli.convert_subpages. rewrite H.
  fold (subpages_top folder). now rewrite bind_reads, E.
Qed.

Lemma convert_subpages_walk (cfg : Config) (folder : str) (w : W) :
  Cli.subpages_configured cfg = Some folder ->
  path_exists (subpages_top folder) w = true ->
  Cli.convert_subpages fuel cfg w
  = Cli.walk_subpages fuel cfg (subpages_top folder)
      (destination_folder (content_mapping cfg)) (subpages_top folder) [] w.
Proof.
  intros H E. unfold Cli.convert_subpages. rewrite H.
  fold (subpages_top folder). now rewrite bind_reads, E.
Qed.

Lemma walk_unreadable (n : nat) (cfg : Config) (top dest root : str)
    (ds : list str) (w : W) :
  listdir top ds w = None ->
  Cli.walk_subpages n cfg top dest root ds w = ret tt w.
Proof.
  intros E. destruct n as [|n]; [reflexivity|].
  cbn [Cli.walk_subpages]. now rewrite bind_reads, E.
Qed.

Lemma convert_subpages_unreadable (cfg : Config) (folder : str) (w : W) :
  Cli.subpages_configured cfg = Some folder ->
  scantree (subpages_top folder) w = None ->
  Cli.convert_subpages fuel cfg w = ret tt w.
Proof.
  intros H E. unfold Cli.convert_subpages. rewrite H.
  fold (subpages_top folder). rewrite bind_reads.
  destruct (path_exists (subpages_top folder) w); [|reflexivity].
  apply walk_unreadable. unfold listdir. now rewrite E.
Qed.

End Step.

End StepFacts.

(** ** [os.makedirs] *)

Module MakedirsFacts.

Import Str StrFacts PosixPath.

Lemma lstrip_repeat (s : str) (c : ascii) :
  exists k, s = repeat c k ++ lstrip s c.
Proof.
  induction s as [|x s [k IH]]; [now exists 0|]. simpl.
  destruct (Ascii.eqb_spec x c).
  - subst. exists (S k). simpl. now f_equal.
  - now exists 0.
Qed.

Lemma rev_repeat {A} (x : A) (k : nat) : rev (repeat x k) = repeat x k.
Proof.
  induction k as [|k IH]; [reflexivity|]. simpl. rewrite IH.
  clear IH. induction k as [|k IH]; [reflexivity|]. simpl. now rewrite IH.
Qed.

Lemma rstrip_repeat (s : str) (c : ascii) :
  exists k, s = rstrip s c ++ repeat c k.
Proof.
  unfold rstrip. destruct (lstrip_repeat (rev s) c) as [k Hk]. exists k.
  rewrite <- (rev_involutive s) at 1. rewrite Hk at 1.
  now rewrite rev_app_distr, rev_repeat.
Qed.

Lemma rfind_found (s : str) (c : ascii) :
  (0 <= rfind s c)%Z ->
  exists a b, s = a ++ c :: b /\ rfind s c = Z.of_nat (length a).
Proof.
  induction s as [|x s IH]; simpl; [lia|].
  destruct (Z.leb_spec 0 (rfind s c)) as [Hr|Hr].
  - intros _. destruct (IH Hr) as (a & b & -> & E).
    exists (x :: a), b. split; [reflexivity|]. rewrite E. simpl length. lia.
  - destruct (Ascii.eqb_spec x c); [|lia]. intros _. subst.
    exists [], s. split; reflexivity.
Qed.

(** [posixpath.split] cuts at a separator: the head, separators, the tail. *)
Lemma split_parts (p : str) :
  exists k,
    p = fst (split p) ++ repeat sep k ++ snd (split p)
    /\ (fst (split p) = [] \/ endswith (fst (split p)) [sep] = true \/ 0 < k).
Proof.
  unfold split. cbn [fst snd].
  destruct (Z.leb_spec 0 (rfind p sep)) as [Hr|Hr].
  - destruct (rfind_found p sep Hr) as (a & b & E & Hi).
    rewrite Hi.
    assert (upto p (Z.of_nat (length a) + 1) = a ++ [sep]) as Hu.
    { unfold upto. replace (Z.to_nat (Z.of_nat (length a) + 1)) with (length (a ++ [sep]))
        by (rewrite length_app; simpl; lia).
      rewrite E. change (a ++ sep :: b) with (a ++ [sep] ++ b).
      rewrite app_assoc. apply firstn_length_app. }
    assert (from p (Z.of_nat (length a) + 1) = b) as Hf.
    { unfold from. replace (Z.to_nat (Z.of_nat (length a) + 1)) with (length (a ++ [sep]))
        by (rewrite length_app; simpl; lia).
      rewrite E. change (a ++ sep :: b) with (a ++ [sep] ++ b).
      rewrite app_assoc. apply skipn_length_app. }
    rewrite Hu, Hf.
    destruct (a ++ [sep]) eqn:Ea; [destruct a; discriminate|]. rewrite <- Ea.
    destruct (eqb (a ++ [sep]) (repeat sep (length (a ++ [sep])))) eqn:Eall.
    + exists 0. split.
      * rewrite E. simpl. now rewrite <- app_assoc.
      * right. left. apply endswith_iff. now exists a.
    + destruct (rstrip_repeat (a ++ [sep]) sep) as [k Hk]. exists k. split.
      * rewrite E. change (a ++ sep :: b) with (a ++ [sep] ++ b).
        rewrite app_assoc. rewrite Hk at 1. now rewrite <- app_assoc.
      * destruct k as [|k]; [|right; right; lia].
        right. left. simpl in Hk. rewrite app_nil_r in Hk. rewrite <- Hk.
        apply endswith_iff. now exists a.
  - assert (rfind p sep = (-1)%Z) as -> by (pose proof (rfind_ge p sep); lia).
    exists 0. simpl. split; [reflexivity | now left].
Qed.

Lemma startswith_repeat_sep (k : nat) (q : str) :
  0 < k -> startswith (repeat sep k ++ q) [sep] = true.
Proof. destruct k; [lia | reflexivity]. Qed.

(** The head that [os.makedirs] recurses on is a beginning of the name,
    cut at a separator, and shorter than the name when there is a tail. *)
Lemma makedirs_split_parts (name : str) :
  exists q,
    name = fst (makedirs_split name) ++ q
    /\ (fst (makedirs_split name) = []
        \/ endswith (fst (makedirs_split name)) [sep] = true
        \/ startswith q [sep] = true)
    /\ length (fst (makedirs_split name)) + length (snd (makedirs_split name))
       <= length name.
Proof.
  unfold makedirs_split.
  destruct (split_parts name) as (k & E & B).
  destruct (split name) as [h t]. cbn [fst snd] in *.
  destruct t as [|y t].
  - destruct (split_parts h) as (k2 & E2 & B2).
    destruct (split h) as [h2 t2]. cbn [fst snd] in *.
    exists (repeat sep k2 ++ t2 ++ repeat sep k). repeat split.
    + rewrite E at 1. rewrite E2 at 1. now rewrite app_nil_r, <- !app_assoc.
    + destruct B2 as [B2|[B2|B2]]; auto.
      right. right. now apply startswith_repeat_sep.
    + apply (f_equal (@length _)) in E, E2.
      rewrite !length_app, !repeat_length in E, E2. cbn [length fst snd] in *. lia.
  - exists (repeat sep k ++ y :: t). repeat split.
    + exact E.
    + destruct B as [B|[B|B]]; auto.
      right. right. now apply startswith_repeat_sep.
    + apply (f_equal (@length _)) in E.
      rewrite !length_app, !repeat_length in E. cbn [length fst snd] in *. lia.
Qed.

Section Laws.

Context {W : Type} {os : OS W}.
Hypothesis laws : OSLaws os.

Lemma makedirs_leaf_isdir (name : str) (w w' : W) :
  makedirs_leaf name true w = (w', Ok tt) -> path_isdir name w' = true.
Proof.
  unfold makedirs_leaf. destruct (mkdir name w) as [w1|e] eqn:E.
  - intros H. injection H as <-. eapply (mkdir_isdir laws); eassumption.
  - destruct (is_oserror e); [|discriminate]. simpl.
    destruct (path_isdir name w) eqn:D; simpl; [|discriminate].
    intros H. injection H as <-. exact D.
Qed.

Lemma makedirs_leaf_present (name : str) (w : W) :
  path_isdir name w = true -> makedirs_leaf name true w = (w, Ok tt).
Proof.
  intros D. unfold makedirs_leaf.
  destruct (mkdir_present laws name w D) as (e & -> & ->).
  now rewrite D.
Qed.

(** When [os.makedirs] returns, the name is a directory. *)
Lemma makedirs_isdir (name : str) (w w' : W) :
  snd (makedirs_split name) <> curdir ->
  makedirs name true w = (w', Ok tt) -> path_isdir name w' = true.
Proof.
  intros Ht. unfold makedirs. cbn [makedirs_fuel].
  destruct (makedirs_split name) as [head tail]. cbn [snd] in Ht.
  apply eqb_neq in Ht.
  destruct (nonempty head && nonempty tail && negb (path_exists head w)).
  - destruct (makedirs_fuel (length name) head true w) as [w1 [[]|e]].
    + rewrite Ht. apply makedirs_leaf_isdir.
    + destruct e; try discriminate. rewrite Ht. apply makedirs_leaf_isdir.
  - apply makedirs_leaf_isdir.
Qed.

(** Under [exist_ok], a name that is a directory already is no error,
    and nothing is changed. *)
Lemma makedirs_present (name : str) (w : W) :
  path_isdir name w = true -> makedirs name true w = (w, Ok tt).
Proof.
  intros D. unfold makedirs. cbn [makedirs_fuel].
  destruct (makedirs_split_parts name) as (q & E & B & _).
  destruct (makedirs_split name) as [head tail]. cbn [fst] in E, B.
  destruct (nonempty head && nonempty tail && negb (path_exists head w)) eqn:C.
  - exfalso. apply andb_true_iff in C as [C Hex].
    apply andb_true_iff in C as [Hh _].
    assert (path_exists head w = true) as Hex'.
    { apply (exists_prefix laws head q).
      - destruct head; [discriminate | congruence].
      - destruct B as [B|[B|B]]; auto. subst head. discriminate.
      - rewrite <- E. now apply (isdir_exists laws). }
    rewrite Hex' in Hex. discriminate.
  - now apply makedirs_leaf_present.
Qed.

(** The bound on the recursion is never reached. *)
Lemma makedirs_fuel_enough (n : nat) (name : str) (exist_ok : bool) (w : W) :
  length name < n ->
  makedirs_fuel n name exist_ok w = makedirs name exist_ok w.
Proof.
  unfold makedirs.
  remember (length name) as m eqn:Em.
  revert n name exist_ok w Em.
  induction m as [m IH] using lt_wf_ind. intros n name exist_ok w Em Hn.
  destruct n as [|n]; [lia|]. cbn [makedirs_fuel].
  destruct (makedirs_split_parts name) as (_ & _ & _ & L).
  destruct (makedirs_split name) as [head tail]. cbn [fst snd] in L.
  destruct (nonempty head && nonempty tail && negb (path_exists head w)) eqn:C;
    [|reflexivity].
  apply andb_true_iff in C as [C _]. apply andb_true_iff in C as [_ Ht].
  assert (length head < m) as Hlt by (destruct tail; [discriminate | simpl in L; lia]).
  rewrite (IH (length head) Hlt n head exist_ok w eq_refl) by lia.
  rewrite (IH (length head) Hlt m head exist_ok w eq_refl) by lia.
  reflexivity.
Qed.

End Laws.

End MakedirsFacts.

(** ** The destination of a page *)

Module PageFacts.

Import Str StrFacts PosixPath PathFacts.

Lemma has_stem_app (stem rest : str) :
  has_stem (length stem) (stem ++ rest) = has_nondot stem.
Proof.
  induction stem as [|x stem IH]; [reflexivity|].
  cbn [length has_stem app]. unfold has_nondot. cbn [existsb].
  destruct (Ascii.eqb x extsep); [exact IH | reflexivity].
Qed.

Lemma rfind_boundary (x : str) :
  x = [] \/ (exists x', x = x' ++ [sep]) ->
  (rfind x sep + 1)%Z = Z.of_nat (length x).
Proof.
  intros [->|[x' ->]]; [reflexivity|].
  rewrite (rfind_app_last x' [] sep) by (simpl; tauto).
  rewrite length_app. simpl. lia.
Qed.

(** [splitext] on a file name that ends in [.md], after directories. *)
Lemma splitext_md (x stem : str) :
  x = [] \/ (exists x', x = x' ++ [sep]) ->
  ~ In sep stem ->
  splitext (x ++ stem ++ lit ".md")
  = if has_nondot stem then (x ++ stem, lit ".md")
    else (x ++ stem ++ lit ".md", []).
Proof.
  intros Hx Hs. unfold splitext.
  assert (rfind (x ++ stem ++ lit ".md") sep = (Z.of_nat (length x) - 1)%Z) as ->.
  { rewrite rfind_app_notin.
    - pose proof (rfind_boundary x Hx). lia.
    - intros Hin. apply in_app_or in Hin as [Hin|Hin]; [tauto|].
      simpl in Hin. unfold sep in Hin. intuition discriminate. }
  assert (rfind (x ++ stem ++ lit ".md") extsep = Z.of_nat (length (x ++ stem))) as ->.
  { rewrite app_assoc. change (lit ".md") with (extsep :: lit "md").
    apply rfind_app_last. simpl. unfold extsep. intuition discriminate. }
  rewrite length_app.
  destruct (Z.ltb_spec (Z.of_nat (length x) - 1)
            (Z.of_nat (length x + length stem))); [|lia].
  replace (Z.to_nat (Z.of_nat (length x + length stem) - (Z.of_nat (length x) - 1 + 1)))
    with (length stem) by lia.
  unfold from, upto.
  replace (Z.to_nat (Z.of_nat (length x) - 1 + 1)) with (length x) by lia.
  rewrite skipn_length_app, has_stem_app.
  destruct (has_nondot stem); [|reflexivity].
  replace (Z.to_nat (Z.of_nat (length x + length stem))) with (length (x ++ stem))
    by (rewrite length_app; lia).
  rewrite app_assoc. now rewrite firstn_length_app, skipn_length_app.
Qed.

(** The tail of [posixpath.split] is the last name. *)
Lemma split_tail (x t : str) :
  x = [] \/ (exists x', x = x' ++ [sep]) ->
  ~ In sep t ->
  snd (split (x ++ t)) = t.
Proof.
  intros Hx Ht. unfold split. cbn [snd].
  rewrite rfind_app_notin by assumption.
  rewrite (rfind_boundary x Hx). unfold from.
  rewrite Nat2Z.id. apply skipn_length_app.
Qed.

Lemma join_snoc_prefix (ds : list str) :
  exists x,
    (x = [] \/ exists x', x = x' ++ [sep])
    /\ forall g, Str.join sep (ds ++ [g]) = x ++ g.
Proof.
  destruct ds as [|d ds].
  - exists []. split; [now left | reflexivity].
  - exists (Str.join sep (d :: ds) ++ [sep]). split.
    + right. now exists (Str.join sep (d :: ds)).
    + intros g. rewrite join_snoc by discriminate. now rewrite <- app_assoc.
Qed.

(** The name of the directory of a page: the file name without [.md],
    or the whole file name when nothing but dots comes before [.md]. *)
Lemma endswith_md (f : str) :
  endswith f Cli.md_suffix = true -> exists stem, f = stem ++ lit ".md".
Proof. apply endswith_iff. Qed.

Lemma stem_name_ok (stem : str) :
  name_ok (stem ++ lit ".md") = true -> has_nondot stem = true ->
  name_ok stem = true.
Proof.
  intros Hf Hs. destruct (name_ok_spec _ Hf) as (_ & _ & _ & Hfree).
  unfold name_ok. rewrite !andb_true_iff, !negb_true_iff. repeat split.
  - destruct stem; [discriminate | reflexivity].
  - apply eqb_neq. intros ->. discriminate.
  - apply eqb_neq. intros ->. discriminate.
  - destruct (existsb (Ascii.eqb sep) stem) eqn:E; [|reflexivity].
    apply existsb_exists in E as [c [Hc Ec]]. apply Ascii.eqb_eq in Ec. subst c.
    exfalso. apply Hfree, in_or_app. now left.
Qed.

Lemma page_stem (ds : list str) (stem : str) :
  name_ok (stem ++ lit ".md") = true ->
  fst (splitext (Str.join sep (ds ++ [stem ++ lit ".md"])))
  = Str.join sep (ds ++ [if has_nondot stem then stem else stem ++ lit ".md"]).
Proof.
  intros Hf. destruct (name_ok_spec _ Hf) as (_ & _ & _ & Hfree).
  destruct (join_snoc_prefix ds) as (x & Hx & E).
  rewrite !E, splitext_md; try assumption.
  - destruct (has_nondot stem); reflexivity.
  - intros Hin. apply Hfree, in_or_app. now left.
Qed.

Lemma page_name_ok (stem : str) :
  name_ok (stem ++ lit ".md") = true ->
  name_ok (if has_nondot stem then stem else stem ++ lit ".md") = true.
Proof.
  intros Hf. destruct (has_nondot stem) eqn:E; [|assumption].
  now apply stem_name_ok.
Qed.

Lemma names_snoc (ds : list str) (g : str) :
  forallb name_ok ds = true -> name_ok g = true ->
  forallb name_ok (ds ++ [g]) = true.
Proof. intros Hds Hg. rewrite forallb_app, Hds. simpl. now rewrite Hg. Qed.

(** The directory of a page is the destination folder and the names. *)
Lemma page_dir_eq (dest : str) (ds : list str) (stem : str) :
  forallb name_ok ds = true -> name_ok (stem ++ lit ".md") = true ->
  page_dir dest ds (stem ++ lit ".md")
  = with_sep dest
    ++ Str.join sep (ds ++ [if has_nondot stem then stem else stem ++ lit ".md"]).
Proof.
  intros Hds Hf. unfold page_dir. rewrite page_stem by assumption.
  apply join_relative, join_names_relative.
  - apply names_snoc; [assumption | now apply page_name_ok].
  - destruct ds; discriminate.
Qed.

Lemma page_dest_eq (dest : str) (ds : list str) (stem : str) :
  forallb name_ok ds = true -> name_ok (stem ++ lit ".md") = true ->
  page_dest dest ds (stem ++ lit ".md")
  = with_sep dest
    ++ Str.join sep (ds ++ [if has_nondot stem then stem else stem ++ lit ".md"])
    ++ lit "/index.md".
Proof.
  intros Hds Hf. unfold page_dest. rewrite page_dir_eq by assumption.
  pose proof (page_name_ok stem Hf) as Hn.
  destruct (name_ok_spec _ Hn) as (Hn1 & _ & _ & Hn4).
  destruct (join_snoc_prefix ds) as (x & Hx & E). rewrite E.
  rewrite join_plain.
  - now rewrite <- !app_assoc.
  - intros H. apply app_eq_nil in H as [_ H]. apply app_eq_nil in H as [_ H].
    congruence.
  - rewrite app_assoc. now apply endswith_app_name.
  - reflexivity.
Qed.

(** [os.makedirs] on the directory of a page never sees the tail [.]. *)
Lemma page_dir_tail (dest : str) (ds : list str) (stem : str) :
  forallb name_ok ds = true -> name_ok (stem ++ lit ".md") = true ->
  snd (makedirs_split (page_dir dest ds (stem ++ lit ".md"))) <> curdir.
Proof.
  intros Hds Hf. rewrite page_dir_eq by assumption.
  pose proof (page_name_ok stem Hf) as Hn.
  destruct (name_ok_spec _ Hn) as (Hn1 & Hn2 & _ & Hn4).
  destruct (join_snoc_prefix ds) as (x & Hx & E). rewrite E, app_assoc.
  unfold makedirs_split.
  assert (with_sep dest ++ x = [] \/ exists y, with_sep dest ++ x = y ++ [sep]) as Hb.
  { destruct Hx as [->|[x' ->]].
    - rewrite app_nil_r. destruct dest as [|c dest]; [now left|].
      destruct (with_sep_cases (c :: dest)) as (b & -> & _); [discriminate|].
      right. now exists b.
    - right. exists (with_sep dest ++ x'). now rewrite app_assoc. }
  pose proof (split_tail _ _ Hb Hn4) as Ht.
  destruct (split _) as [h t]. cbn [snd] in Ht. subst t.
  remember (if has_nondot stem then stem else stem ++ lit ".md") as t eqn:Es.
  destruct t; [congruence | exact Hn2].
Qed.

End PageFacts.

(** ** The log of the subpage step *)

Module TraceFacts.

Import RunFacts.

Lemma prefix_nil {A} (l : list A) : prefix [] l.
Proof. now exists l. Qed.


Lemma prefix_cons {A} (x : A) (l1 l2 : list A) :
  prefix l1 l2 -> prefix (x :: l1) (x :: l2).
Proof. intros [r ->]. now exists r. Qed.

Lemma prefix_app {A} (l l1 l2 : list A) :
  prefix l1 l2 -> prefix (l ++ l1) (l ++ l2).
Proof. intros [r ->]. exists r. now rewrite app_assoc. Qed.

Lemma prefix_in {A} (l1 l2 : list A) (x : A) :
  prefix l1 l2 -> In x l1 -> In x l2.
Proof. intros [r ->] H. apply in_or_app. now left. Qed.

Section Step.

Context {W : Type} {os : OS W} {co : Collaborators W} {fuel : nat}.

Lemma for_each_page_step (cfg : Config) (top dest : str)
    (x : list str * str) (l : list (list str * str)) (w : W) :
  for_each (x :: l) (run_page cfg top dest) w
  = let mk := MakeDirs (page_dir dest (fst x) (snd x)) true in
    let cv := ConvertFile (walked_path top (fst x) (snd x))
                (page_dest dest (fst x) (snd x)) Cli.source_repo in
    match makedirs (page_dir dest (fst x) (snd x)) true w with
    | (w1, Ok _) =>
        match convert_file cfg (walked_path top (fst x) (snd x))
                (page_dest dest (fst x) (snd x)) Cli.source_repo w1 with
        | (w2, Ok _) =>
            match for_each l (run_page cfg top dest) w2 with
            | (t, w3, r) => ((w, mk) :: (w1, cv) :: t, w3, r)
            end
        | (w2, Raise e) => ([(w, mk); (w1, cv)], w2, Raise e)
        end
    | (w1, Raise e) => ([(w, mk)], w1, Raise e)
    end.
Proof.
  cbn [for_each]. unfold bind, run_page, bind, invoke. cbv zeta.
  destruct (makedirs _ true w) as [w1 [[]|e]]; [|reflexivity].
  destruct (convert_file cfg _ _ _ w1) as [w2 [[]|e]]; [|reflexivity].
  destruct (for_each l _ w2) as [[t w3] r]. reflexivity.
Qed.

Lemma for_each_pages_trace (cfg : Config) (top dest : str)
    (l : list (list str * str)) (w : W) :
  pages_trace cfg top dest l
    (trace_of (for_each l (run_page cfg top dest) w))
    (outcome_of (for_each l (run_page cfg top dest) w)).
Proof.
  revert w. induction l as [|x l IH]; intros w; [constructor|].
  rewrite for_each_page_step. cbv zeta.
  destruct (makedirs (page_dir dest (fst x) (snd x)) true w) as [w1 [[]|e]] eqn:E1.
  - destruct (convert_file cfg _ _ _ w1) as [w2 [[]|e]] eqn:E2.
    + specialize (IH w2).
      destruct (for_each l (run_page cfg top dest) w2) as [[t w3] r].
      eapply pages_next; eassumption.
    + eapply pages_convert_raises; eassumption.
  - eapply pages_makedirs_raises; eassumption.
Qed.

(** The calls of the step are those of the pages, up to where it stops. *)
Lemma pages_trace_events (cfg : Config) (top dest : str)
    (l : list (list str * str)) (t : list (W * call)) (r : result unit) :
  pages_trace cfg top dest l t r ->
  prefix (events t) (flat_map (page_calls top dest) l)
  /\ (r = Ok tt -> events t = flat_map (page_calls top dest) l).
Proof.
  induction 1 as [|x l w w1 e H1|x l w w1 w2 e H1 H2|x l w w1 w2 t r H1 H2 _ [IHp IHe]].
  - split; [apply prefix_nil | reflexivity].
  - split; [|discriminate]. cbn [flat_map page_calls events map snd].
    apply (prefix_cons _ [] _), prefix_nil.
  - split; [|discriminate]. cbn [flat_map page_calls events map snd].
    apply (prefix_app [_; _] []), prefix_nil.
  - split.
    + cbn [flat_map page_calls events map snd].
      apply (prefix_app [_; _]). exact IHp.
    + intros Hr. cbn [flat_map page_calls events map snd app].
      unfold events in IHe. now rewrite IHe.
Qed.

(** In the log, a conversion comes right after the [makedirs] of its
    directory, which returned, and runs in the world that it left. *)
Lemma pages_trace_blocks (cfg : Config) (top dest : str)
    (l : list (list str * str)) (t : list (W * call)) (r : result unit) :
  pages_trace cfg top dest l t r ->
  forall pre w1 s d b post,
    t = pre ++ (w1, ConvertFile s d b) :: post ->
    exists pre' w x,
      In x l
      /\ pre = pre' ++ [(w, MakeDirs (page_dir dest (fst x) (snd x)) true)]
      /\ makedirs (page_dir dest (fst x) (snd x)) true w = (w1, Ok tt)
      /\ s = walked_path top (fst x) (snd x)
      /\ d = page_dest dest (fst x) (snd x)
      /\ b = Cli.source_repo.
Proof.
  induction 1 as [|x l w w1 e H1|x l w w1 w2 e H1 H2|x l w w1 w2 t r H1 H2 _ IH];
    intros pre w' s d b post E.
  - destruct pre; discriminate.
  - destruct pre as [|? [|? ?]]; discriminate.
  - destruct pre as [|? [|? [|? ?]]]; try discriminate.
    simpl in E. inversion E; subst.
    exists [], w, x. repeat split; auto. now left.
  - destruct pre as [|? [|? pre]]; try discriminate.
    + simpl in E. inversion E; subst.
      exists [], w, x. repeat split; auto. now left.
    + simpl in E. inversion E as [[E1 E2 E3]]; subst.
      destruct (IH _ _ _ _ _ _ eq_refl)
        as (pre' & w0 & y & Hy & -> & Hm & Hs & Hd & Hb).
      eexists (_ :: _ :: pre'), w0, y. repeat split; auto. now right.
Qed.

End Step.

End TraceFacts.

(** ** The whole run *)

Module GenerateFacts.

Import RunFacts TraceFacts.

Section Run.

Context {W : Type} {os : OS W} {co : Collaborators W} {fuel : nat}.

Lemma bind_invoke {A B} (c : call) (f : W -> W * result A)
    (k : A -> M W B) (w : W) :
  bind (invoke c f) k w
  = match f w with
    | (w1, Ok a) =>
        match k a w1 with
        | (t, w2, r) => ((w, c) :: t, w2, r)
        end
    | (w1, Raise e) => ([(w, c)], w1, Raise e)
    end.
Proof.
  unfold bind, invoke. destruct (f w) as [w1 [a|e]]; reflexivity.
Qed.

Lemma all_calls_ret {A} (P : call -> bool) (a : A) :
  all_calls P (ret a : M W A).
Proof. intros w. constructor. Qed.

Lemma all_calls_reads {A} (P : call -> bool) (f : W -> A) :
  all_calls P (reads f).
Proof. intros w. constructor. Qed.

Lemma all_calls_try {A} (P : call -> bool) (f : W -> result A) :
  all_calls P (try_ f).
Proof. intros w. constructor. Qed.

Lemma all_calls_invoke {A} (P : call -> bool) (c : call)
    (f : W -> W * result A) :
  P c = true -> all_calls P (invoke c f).
Proof.
  intros H w. unfold invoke. destruct (f w) as [w' r].
  constructor; [exact H | constructor].
Qed.

Lemma all_calls_bind {A B} (P : call -> bool) (m : M W A) (k : A -> M W B) :
  all_calls P m -> (forall a, all_calls P (k a)) -> all_calls P (bind m k).
Proof.
  intros Hm Hk w. unfold bind. specialize (Hm w).
  destruct (m w) as [[t1 w1] [a|e]]; [|exact Hm].
  specialize (Hk a w1). destruct (k a w1) as [[t2 w2] r].
  unfold events, trace_of in *. cbn [fst] in *.
  rewrite map_app. apply Forall_app. now split.
Qed.

Lemma all_calls_for_each {A} (P : call -> bool) (l : list A)
    (body : A -> M W unit) :
  (forall x, all_calls P (body x)) -> all_calls P (for_each l body).
Proof.
  intros H. induction l as [|x l IH]; [apply all_calls_ret|].
  apply all_calls_bind; [apply H | intros _; exact IH].
Qed.

Lemma convert_subpage_calls (cfg : Config) (top dest root file : str) :
  all_calls is_page_call (Cli.convert_subpage cfg top dest root file).
Proof.
  unfold Cli.convert_subpage.
  destruct (Str.endswith file Cli.md_suffix); [|apply all_calls_ret].
  apply all_calls_bind; [apply all_calls_try|]. intros rel.
  apply all_calls_bind; [now apply all_calls_invoke|]. intros _.
  now apply all_calls_invoke.
Qed.

Lemma walk_subpages_calls (n : nat) (cfg : Config) (top dest : str) :
  forall root ds,
    all_calls is_page_call (Cli.walk_subpages n cfg top dest root ds).
Proof.
  induction n as [|n IH]; intros root ds; [apply all_calls_ret|].
  cbn [Cli.walk_subpages].
  apply all_calls_bind; [apply all_calls_reads|].
  intros [es|]; [|apply all_calls_ret].
  apply all_calls_bind.
  - apply all_calls_for_each. intros file. apply convert_subpage_calls.
  - intros _. apply all_calls_for_each. intros d. apply IH.
Qed.

(** The subpage step only makes directories and converts files. *)
Lemma convert_subpages_calls (cfg : Config) :
  all_calls is_page_call (Cli.convert_subpages fuel cfg).
Proof.
  unfold Cli.convert_subpages.
  destruct (Cli.subpages_configured cfg) as [folder|]; [|apply all_calls_ret].
  apply all_calls_bind; [apply all_calls_reads|]. intros [|]; [|apply all_calls_ret].
  apply walk_subpages_calls.
Qed.

(** A run, step by step: each collaborator returns or ends the run. *)
Lemma generate_steps (config : str) (w : W) :
  Cli.generate fuel config w
  = match load_config config w with
    | (w1, Raise e) => ([(w, LoadConfig config)], w1, Raise e)
    | (w1, Ok cfg) =>
      match fetch (source_repository cfg) w1 with
      | (w2, Raise e) =>
          ([(w, LoadConfig config); (w1, Fetch (source_repository cfg))],
           w2, Raise e)
      | (w2, Ok _) =>
        match create_structure (destination_folder (content_mapping cfg)) cfg w2 with
        | (w3, Raise e) =>
            ([(w, LoadConfig config); (w1, Fetch (source_repository cfg));
              (w2, Print (banner cfg));
              (w2, CreateStructure (destination_folder (content_mapping cfg)))],
             w3, Raise e)
        | (w3, Ok _) =>
          let head :=
            [(w, LoadConfig config); (w1, Fetch (source_repository cfg));
             (w2, Print (banner cfg));
             (w2, CreateStructure (destination_folder (content_mapping cfg)));
             (w3, ConvertFile (home_source cfg) (home_dest cfg) Cli.source_repo)] in
          match convert_file cfg (home_source cfg) (home_dest cfg)
                  Cli.source_repo w3 with
          | (w4, Raise e) => (head, w4, Raise e)
          | (w4, Ok _) =>
            match Cli.convert_subpages fuel cfg w4 with
            | (subs, w5, Raise e) => (head ++ subs, w5, Raise e)
            | (subs, w5, Ok _) =>
              match copy_assets cfg Cli.source_repo (media_root cfg) w5 with
              | (w6, Raise e) =>
                  (head ++ subs ++ [(w5, CopyAssets Cli.source_repo (media_root cfg))],
                   w6, Raise e)
              | (w6, Ok _) =>
                  (head ++ subs
                   ++ [(w5, CopyAssets Cli.source_repo (media_root cfg));
                       (w6, Echo success)],
                   w6, Ok tt)
              end
            end
          end
        end
      end
    end.
Proof.
  unfold Cli.generate. rewrite bind_invoke.
  destruct (load_config config w) as [w1 [cfg|e]]; [|reflexivity].
  rewrite bind_invoke.
  destruct (fetch (source_repository cfg) w1) as [w2 [[]|e]]; [|reflexivity].
  unfold emit at 1. rewrite bind_invoke, bind_invoke.
  destruct (create_structure _ cfg w2) as [w3 [[]|e]]; [|reflexivity].
  unfold Cli.convert_home. rewrite bind_invoke.
  fold (home_source cfg) (home_dest cfg).
  destruct (convert_file cfg _ _ _ w3) as [w4 [[]|e]]; [|reflexivity].
  unfold bind at 1.
  destruct (Cli.convert_subpages fuel cfg w4) as [[subs w5] [[]|e]]; [|reflexivity].
  unfold Cli.copy_all_assets. rewrite bind_invoke. fold (media_root cfg).
  destruct (copy_assets cfg _ _ w5) as [w6 [[]|e]].
  - unfold emit, invoke. cbv zeta. reflexivity.
  - cbv zeta. reflexivity.
Qed.

(** When the run reaches the subpage step, the log of the step is a part
    of the log of the run: what holds of the step in any world holds of the
    step of a run. *)
Lemma generate_runs_step (config : str) (cfg : Config) (w w1 w2 w3 w4 : W) :
  load_config config w = (w1, Ok cfg) ->
  fetch (source_repository cfg) w1 = (w2, Ok tt) ->
  create_structure (destination_folder (content_mapping cfg)) cfg w2
  = (w3, Ok tt) ->
  convert_file cfg (home_source cfg) (home_dest cfg) Cli.source_repo w3
  = (w4, Ok tt) ->
  exists rest,
    trace_of (Cli.generate fuel config w)
    = [(w, LoadConfig config); (w1, Fetch (source_repository cfg));
       (w2, Print (banner cfg));
       (w2, CreateStructure (destination_folder (content_mapping cfg)));
       (w3, ConvertFile (home_source cfg) (home_dest cfg) Cli.source_repo)]
      ++ trace_of (Cli.convert_subpages fuel cfg w4) ++ rest.
Proof.
  intros Hl Hf Hc Hh. rewrite generate_steps, Hl, Hf, Hc. cbv zeta. rewrite Hh.
  destruct (Cli.convert_subpages fuel cfg w4) as [[subs w5] [[]|e]].
  - destruct (copy_assets cfg _ _ w5) as [w6 [[]|e]]; eexists; reflexivity.
  - exists []. unfold trace_of. cbn [fst]. now rewrite app_nil_r.
Qed.

End Run.

End GenerateFacts.

(** ** The file system satisfies the laws *)

Module ModelFacts.

Import Str StrFacts PosixPath PathFacts Model.

Lemma nav_app (es : list (str * node)) (a b cur : list str) :
  nav es cur (a ++ b)
  = match nav es cur a with
    | Some c => nav es c b
    | None => None
    end.
Proof.
  revert cur. induction a as [|x a IH]; intros cur; [reflexivity|].
  cbn [app nav]. destruct (is_dir (lookup es cur)); [|reflexivity].
  destruct (eqb x [] || eqb x curdir); [apply IH|].
  destruct (eqb x pardir); apply IH.
Qed.

Lemma nav_nonempty_dir (es : list (str * node)) (l cur c : list str) :
  l <> [] -> nav es cur l = Some c -> is_dir (lookup es cur) = true.
Proof.
  destruct l as [|x l]; [congruence|]. intros _. simpl.
  destruct (is_dir (lookup es cur)); [reflexivity | discriminate].
Qed.

Lemma nav_empties (es : list (str * node)) (cur : list str) (k : nat) :
  is_dir (lookup es cur) = true -> nav es cur (repeat [] k) = Some cur.
Proof.
  intros D. induction k as [|k IH]; [reflexivity|].
  cbn [repeat nav]. now rewrite D.
Qed.

Lemma nav_empties_inv (es : list (str * node)) (cur c : list str) (k : nat) :
  nav es cur (repeat [] k) = Some c -> c = cur.
Proof.
  induction k as [|k IH]; simpl; [congruence|].
  destruct (is_dir (lookup es cur)); [exact IH | discriminate].
Qed.

Lemma nav_name (es : list (str * node)) (cur l : list str) (name : str) :
  name_ok name = true -> is_dir (lookup es cur) = true ->
  nav es cur (name :: l) = nav es (cur ++ [name]) l.
Proof.
  intros Hn D. destruct (name_ok_spec name Hn) as (H1 & H2 & H3 & _).
  apply eqb_neq in H1, H2, H3. cbn [nav]. now rewrite D, H1, H2, H3.
Qed.

Lemma strip_trailing_spec (comps : list str) :
  exists k, comps = strip_trailing comps ++ repeat [] k.
Proof.
  induction comps as [|c comps [k IH]]; [now exists 0|].
  cbn [strip_trailing]. destruct (strip_trailing comps) as [|d l].
  - destruct c as [|x c].
    + exists (S k). simpl in *. now rewrite <- IH.
    + exists k. simpl in *. now rewrite <- IH.
  - exists k. simpl in *. now rewrite <- IH.
Qed.

(** The components of a path whose last name is [name]. *)
Lemma split_last_name (p : str) :
  name_ok (last (strip_trailing (Str.split p sep)) []) = true ->
  exists k,
    Str.split p sep
    = removelast (strip_trailing (Str.split p sep))
      ++ last (strip_trailing (Str.split p sep)) [] :: repeat [] k.
Proof.
  intros Hn. destruct (strip_trailing_spec (Str.split p sep)) as [k E].
  exists k. rewrite E at 1.
  rewrite (app_removelast_last (l := strip_trailing (Str.split p sep)) []) at 1.
  - now rewrite <- app_assoc.
  - intros E0. rewrite E0 in Hn. discriminate.
Qed.

Lemma find_app (n : str) (es es' : list (str * node)) :
  find n (es ++ es')
  = match find n es with
    | Some x => Some x
    | None => find n es'
    end.
Proof.
  induction es as [|[m x] es IH]; [reflexivity|]. simpl.
  destruct (eqb m n); [reflexivity | exact IH].
Qed.

Lemma find_add (n c : str) (es : list (str * node)) (path : list str)
    (name : str) (nd : node) :
  find n (add es (c :: path) name nd)
  = match find n es with
    | Some (NDir sub) =>
        if eqb n c then Some (NDir (add sub path name nd)) else Some (NDir sub)
    | o => o
    end.
Proof.
  cbn [add]. induction es as [|[m x] es IH]; [reflexivity|].
  cbn [map find]. destruct (eqb m c) eqn:Emc.
  - apply eqb_eq in Emc. subst m. destruct x as [|sub]; cbn [find].
    + destruct (eqb c n) eqn:Ecn; [reflexivity | exact IH].
    + destruct (eqb c n) eqn:Ecn; [|exact IH].
      apply eqb_eq in Ecn. subst n. now rewrite eqb_refl.
  - cbn [find]. destruct (eqb m n) eqn:Emn; [|exact IH].
    apply eqb_eq in Emn. subst n. rewrite Emc. now destruct x.
Qed.

(** Adding an entry keeps every directory a directory. *)
Lemma lookup_add_dir (path : list str) (name : str) (nd : node) :
  forall es q,
    is_dir (lookup es q) = true ->
    is_dir (lookup (add es path name nd) q) = true.
Proof.
  induction path as [|c path IH]; intros es q D.
  - destruct q as [|d q]; [reflexivity|]. cbn [add lookup] in *.
    rewrite find_app. destruct (find d es) as [[|sub]|]; try discriminate.
    + destruct q; discriminate.
    + exact D.
  - destruct q as [|d q]; [reflexivity|]. cbn [lookup] in *.
    rewrite find_add. destruct (find d es) as [[|sub]|]; try exact D.
    destruct (eqb d c); [now apply IH | exact D].
Qed.

(** The added entry is where it was put. *)
Lemma lookup_add_new (cur : list str) (name : str) :
  forall es,
    is_dir (lookup es cur) = true ->
    lookup es (cur ++ [name]) = None ->
    is_dir (lookup (add es cur name (NDir [])) (cur ++ [name])) = true.
Proof.
  induction cur as [|c cur IH]; intros es D N.
  - cbn [add app lookup] in *. rewrite find_app.
    destruct (find name es) as [[|sub]|]; try discriminate.
    simpl. now rewrite eqb_refl.
  - cbn [app lookup] in *. rewrite find_add.
    destruct (find c es) as [[|sub]|]; try discriminate.
    + destruct cur; discriminate.
    + rewrite eqb_refl. now apply IH.
Qed.

Lemma nav_mono (es es' : list (str * node)) (l : list str) :
  (forall q, is_dir (lookup es q) = true -> is_dir (lookup es' q) = true) ->
  forall cur c, nav es cur l = Some c -> nav es' cur l = Some c.
Proof.
  intros Hm. induction l as [|x l IH]; intros cur c; [trivial|].
  cbn [nav]. destruct (is_dir (lookup es cur)) eqn:D; [|discriminate].
  rewrite (Hm _ D).
  destruct (eqb x [] || eqb x curdir); [apply IH|].
  destruct (eqb x pardir); apply IH.
Qed.

Lemma resolve_nonempty (w : world) (p : str) :
  p <> [] -> resolve w p = nav (root w) (start_of w p) (Str.split p sep).
Proof. destruct p; [congruence | reflexivity]. Qed.

Lemma model_mkdir_isdir (p : str) (w w' : world) :
  mkdir p w = Ok w' -> path_isdir p w' = true.
Proof.
  cbn [mkdir path_isdir model_os]. unfold create.
  destruct p as [|x0 p0] eqn:Ep; [discriminate|]. rewrite <- Ep.
  assert (p <> []) as Hp by (subst; discriminate). clear Ep.
  set (comps := strip_trailing (Str.split p sep)).
  destruct (nav (root w) (start_of w p) (removelast comps)) as [cur|] eqn:En;
    [|discriminate].
  destruct (is_dir (lookup (root w) cur)) eqn:D; [|discriminate].
  destruct (name_ok (last comps [])) eqn:Hn; [|discriminate].
  destruct (is_some (lookup (root w) (cur ++ [last comps []]))) eqn:S;
    [discriminate|].
  intros H. injection H as <-.
  unfold stat. rewrite resolve_nonempty by assumption.
  cbn [root cwd]. unfold start_of in *. cbn [cwd].
  destruct (split_last_name p Hn) as [k ->]. fold comps.
  rewrite nav_app.
  rewrite (nav_mono (root w) _ _
           (lookup_add_dir cur (last comps []) (NDir []) (root w)) _ _ En).
  rewrite nav_name by (assumption || now apply lookup_add_dir).
  assert (lookup (root w) (cur ++ [last comps []]) = None) as N
    by (destruct (lookup (root w) (cur ++ [last comps []]));
      [discriminate | reflexivity]).
  pose proof (lookup_add_new cur (last comps []) (root w) D N) as Dn.
  now rewrite nav_empties.
Qed.

Lemma model_mkdir_present (p : str) (w : world) :
  path_isdir p w = true ->
  exists e, mkdir p w = Raise e /\ is_oserror e = true.
Proof.
  cbn [mkdir path_isdir model_os]. intros D.
  destruct p as [|x0 p0] eqn:Ep; [discriminate|]. rewrite <- Ep in *.
  assert (p <> []) as Hp by (subst; discriminate). clear Ep.
  unfold create. destruct p as [|x1 p1] eqn:Ep; [congruence|]. rewrite <- Ep in *.
  clear Ep.
  set (comps := strip_trailing (Str.split p sep)).
  destruct (nav (root w) (start_of w p) (removelast comps)) as [cur|] eqn:En;
    [|now exists OSError].
  destruct (is_dir (lookup (root w) cur)) eqn:Dc; [|now exists OSError].
  destruct (name_ok (last comps [])) eqn:Hn; [|now exists FileExistsError].
  destruct (is_some (lookup (root w) (cur ++ [last comps []]))) eqn:S;
    [now exists FileExistsError|].
  exfalso. unfold stat in D. rewrite resolve_nonempty in D by assumption.
  destruct (split_last_name p Hn) as [k E]. fold comps in E.
  rewrite E, nav_app, En, nav_name in D by assumption.
  destruct (nav (root w) (cur ++ [last comps []]) (repeat [] k)) as [c|] eqn:Ek;
    [|discriminate].
  apply nav_empties_inv in Ek. subst c.
  destruct (lookup (root w) (cur ++ [last comps []])); discriminate.
Qed.

Lemma start_of_app (w : world) (p q : str) :
  p <> [] -> start_of w (p ++ q) = start_of w p.
Proof. destruct p; [congruence | reflexivity]. Qed.

Lemma model_exists_prefix (p q : str) (w : world) :
  p <> [] ->
  endswith p [sep] = true \/ startswith q [sep] = true ->
  path_exists (p ++ q) w = true -> path_exists p w = true.
Proof.
  intros Hp B. cbn [path_exists model_os]. unfold stat.
  rewrite !resolve_nonempty
    by (assumption || (intros E; apply app_eq_nil in E as [E _]; congruence)).
  rewrite start_of_app by assumption.
  assert (exists a b,
             Str.split (p ++ q) sep = a ++ b /\ b <> []
             /\ (Str.split p sep = a \/ Str.split p sep = a ++ [[]]))
  as (a & b & -> & Hb & Ha).
  { destruct B as [B|B].
    - apply endswith_iff in B as [p' ->].
      exists (Str.split p' sep), (Str.split q sep). repeat split.
      + rewrite <- app_assoc. apply split_app_sep.
      + apply split_nonnil.
      + right. apply (split_app_sep p' [] sep).
    - apply startswith_iff in B as [q' ->].
      exists (Str.split p sep), (Str.split q' sep). repeat split.
      + apply split_app_sep.
      + apply split_nonnil.
      + now left. }
  rewrite nav_app.
  destruct (nav (root w) (start_of w p) a) as [c1|] eqn:En; [|discriminate].
  intros H.
  assert (is_dir (lookup (root w) c1) = true) as D.
  { destruct (nav (root w) c1 b) as [c|] eqn:Eb; [|discriminate].
    eapply nav_nonempty_dir; eassumption. }
  destruct Ha as [->| ->].
  - rewrite En. destruct (lookup (root w) c1); [reflexivity | discriminate].
  - rewrite nav_app, En. cbn [nav]. rewrite D. simpl.
    destruct (lookup (root w) c1); [reflexivity | discriminate].
Qed.

Lemma model_laws : OSLaws model_os.
Proof.
  constructor.
  - reflexivity.
  - intros p w. cbn [path_isdir path_exists model_os].
    destruct (stat w p) as [[|es]|]; (discriminate || reflexivity).
  - exact model_mkdir_isdir.
  - exact model_mkdir_present.
  - exact model_exists_prefix.
  - intros p w es. cbn [scantree model_os].
    destruct (stat w p) as [[|sub]|]; try discriminate.
    destruct (names_ok (to_entries sub) && distinct (to_entries sub)) eqn:E;
      [|discriminate].
    intros H. injection H as <-. now apply andb_true_iff in E.
Qed.

End ModelFacts.

(** ** The listing that the walk reads *)

Module ListingFacts.

Import WalkFacts.

Lemma find_dir_in (d : str) (es : list entry) (sub : list entry) :
  find_dir d es = Some sub -> exists d', Str.eqb d' d = true /\ In (Dir d' sub) es.
Proof.
  induction es as [|[f|d' sub'] es IH]; intros H; cbn [find_dir] in H.
  - discriminate.
  - destruct (IH H) as (d0 & E & Hin). exists d0. split; [exact E | now right].
  - destruct (Str.eqb d' d) eqn:E.
    + injection H as ->. exists d'. split; [exact E | now left].
    + destruct (IH H) as (d0 & E0 & Hin). exists d0. split; [exact E0 | now right].
Qed.

Lemma find_dir_entry (d : str) (es : list entry) (sub : list entry) :
  find_dir d es = Some sub -> In (Dir d sub) es.
Proof.
  intros H. destruct (find_dir_in d es sub H) as (d' & E & Hin).
  apply StrFacts.eqb_eq in E. now subst d'.
Qed.

Lemma find_dir_none (d : str) (es : list entry) :
  find_dir d es = None -> ~ In d (dirnames es).
Proof.
  induction es as [|[f|d' sub'] es IH]; intros H Hin; cbn [find_dir] in H.
  - destruct Hin.
  - now apply IH.
  - destruct (Str.eqb d' d) eqn:E; [discriminate|].
    cbn in Hin. destruct Hin as [->|Hin]; [|now apply IH].
    now rewrite StrFacts.eqb_refl in E.
Qed.

Lemma unique_spec (x : str) (l : list str) :
  unique (x :: l) = true -> ~ In x l /\ unique l = true.
Proof.
  cbn [unique]. intros H. apply andb_true_iff in H as [H1 H2].
  split; [|exact H2]. intros Hin. apply negb_true_iff in H1.
  assert (existsb (Str.eqb x) l = true) as E
    by (apply existsb_exists; exists x; split;
        [assumption | apply StrFacts.eqb_refl]).
  congruence.
Qed.

(** In a listing without two entries of a name, the directory of a name
    is the one that the name finds. *)
Lemma find_dir_unique (d : str) (es : list entry) (sub : list entry) :
  unique (map entry_name es) = true ->
  In (Dir d sub) es -> find_dir d es = Some sub.
Proof.
  induction es as [|e es IH]; intros Hu Hin; [destruct Hin|].
  cbn [map] in Hu. apply unique_spec in Hu as [Hx Hu].
  destruct Hin as [->|Hin].
  - cbn [find_dir]. now rewrite StrFacts.eqb_refl.
  - assert (entry_name e <> d) as Hne.
    { intros E. apply Hx. rewrite E.
      change d with (entry_name (Dir d sub)). now apply in_map. }
    destruct e as [f|d' sub']; cbn [find_dir]; [now apply IH|].
    cbn [entry_name] in Hne. apply StrFacts.eqb_neq in Hne. rewrite Hne.
    now apply IH.
Qed.

Lemma distinct_child (d : str) (es sub : list entry) :
  distinct es = true -> In (Dir d sub) es -> distinct sub = true.
Proof.
  unfold distinct. intros H Hin. apply andb_true_iff in H as [_ H].
  rewrite forallb_forall in H. exact (H _ Hin).
Qed.

Lemma subtree_dir_at (es : list entry) (ds : list str) (sub : list entry) :
  subtree es ds = Some sub -> dir_at es ds sub.
Proof.
  revert es. induction ds as [|d ds IH]; intros es H; cbn [subtree] in H.
  - injection H as ->. constructor.
  - destruct (find_dir d es) as [sub'|] eqn:E; [|discriminate].
    econstructor; [exact (find_dir_entry _ _ _ E) | now apply IH].
Qed.

Lemma subtree_snoc (es : list entry) (ds : list str) (d : str)
    (sub : list entry) :
  subtree es ds = Some sub -> subtree es (ds ++ [d]) = find_dir d sub.
Proof.
  revert es. induction ds as [|d' ds IH]; intros es H; cbn [subtree app] in *.
  - injection H as ->. now destruct (find_dir d sub).
  - destruct (find_dir d' es) as [sub'|]; [now apply IH | discriminate].
Qed.

Lemma subtree_names (es : list entry) (ds : list str) (sub : list entry) :
  names_ok es = true -> subtree es ds = Some sub ->
  forallb name_ok ds = true /\ names_ok sub = true.
Proof.
  intros Hn H. exact (dir_at_names _ _ _ (subtree_dir_at _ _ _ H) Hn).
Qed.

Lemma subtree_distinct (es : list entry) (ds : list str) (sub : list entry) :
  distinct es = true -> subtree es ds = Some sub -> distinct sub = true.
Proof.
  intros Hd H. apply subtree_dir_at in H.
  induction H as [es|es d sub ds sub' Hin _ IH]; [exact Hd|].
  apply IH. exact (distinct_child _ _ _ Hd Hin).
Qed.

Lemma filenames_ok (es : list entry) (f : str) :
  names_ok es = true -> In f (filenames es) -> name_ok f = true.
Proof.
  intros Hn Hf. apply in_filenames in Hf.
  unfold names_ok in Hn. rewrite forallb_forall in Hn. exact (Hn _ Hf).
Qed.

Lemma in_dirnames (es : list entry) (d : str) :
  In d (dirnames es) <-> exists sub, In (Dir d sub) es.
Proof.
  unfold dirnames. rewrite in_flat_map. split.
  - intros [[g|d' sub] [He Hin]]; simpl in Hin; [tauto|].
    destruct Hin as [->|[]]. now exists sub.
  - intros [sub H]. exists (Dir d sub). split; [assumption | now left].
Qed.

Lemma dirnames_ok (es : list entry) (d : str) :
  names_ok es = true -> In d (dirnames es) -> name_ok d = true.
Proof.
  intros Hn Hd. apply in_dirnames in Hd as [sub Hd].
  unfold names_ok in Hn. rewrite forallb_forall in Hn.
  specialize (Hn _ Hd). cbn in Hn. now apply andb_true_iff in Hn.
Qed.

Lemma levels_child (d : str) (es sub : list entry) :
  In (Dir d sub) es -> S (levels sub) <= levels es.
Proof.
  intros Hin. unfold levels. apply le_n_S.
  assert (In (levels_entry (Dir d sub)) (map levels_entry es)) as H
    by now apply in_map.
  pose proof (list_max_le (map levels_entry es) (list_max (map levels_entry es)))
    as [Hle _].
  specialize (Hle (Nat.le_refl _)). rewrite Forall_forall in Hle.
  exact (Hle _ H).
Qed.

(** The files below a directory of a tree are files of the tree. *)
Lemma tree_files_child (d : str) (es sub : list entry) (x : list str * str) :
  In (Dir d sub) es -> In x (tree_files sub) ->
  In (d :: fst x, snd x) (tree_files es).
Proof.
  intros Hd Hx. destruct x as [ds f]. apply in_tree_files in Hx.
  apply in_tree_files. destruct Hx as [s [Hs Hf]]. exists s.
  split; [|exact Hf]. econstructor; eassumption.
Qed.

End ListingFacts.

(** ** The loop over the walk *)

Module LoopFacts.

Import Str StrFacts PosixPath PathFacts RunFacts WalkFacts StepFacts
       TraceFacts ListingFacts.

Local Abbreviation below ds :=
  (map (fun x : list str * str => (ds ++ fst x, snd x))).

Lemma below_nil (l : list (list str * str)) : below [] l = l.
Proof.
  rewrite <- (map_id l) at 2. apply map_ext. now intros [ds f].
Qed.

Lemma below_child (ds : list str) (d : str) (l : list (list str * str)) :
  below ds (map (fun x : list str * str => (d :: fst x, snd x)) l)
  = below (ds ++ [d]) l.
Proof.
  rewrite map_map. apply map_ext. intros [ds' f]. cbn [fst snd].
  now rewrite <- app_assoc.
Qed.

Lemma filter_below (ds : list str) (l : list (list str * str)) :
  filter is_md (below ds l) = below ds (filter is_md l).
Proof.
  induction l as [|x l IH]; [reflexivity|].
  change (below ds (x :: l)) with ((ds ++ fst x, snd x) :: below ds l).
  cbn [filter]. change (is_md (ds ++ fst x, snd x)) with (is_md x).
  destruct (is_md x); [|exact IH].
  change (below ds (x :: filter is_md l))
    with ((ds ++ fst x, snd x) :: below ds (filter is_md l)).
  now rewrite IH.
Qed.

Section Runs.

Context {W : Type}.

Lemma bind_cong_l {A B} (m m' : M W A) (k : A -> M W B) (w : W) :
  m w = m' w -> bind m k w = bind m' k w.
Proof. intros E. unfold bind. now rewrite E. Qed.

Lemma bind_cong_r {A B} (m : M W A) (k k' : A -> M W B) (w : W) :
  (forall t w1 a, m w = (t, w1, Ok a) -> k a w1 = k' a w1) ->
  bind m k w = bind m k' w.
Proof.
  intros H. unfold bind. destruct (m w) as [[t w1] [a|e]]; [|reflexivity].
  now rewrite (H t w1 a).
Qed.

Lemma threaded_ret {A} (a : A) : threaded (ret a : M W A).
Proof. intros w. reflexivity. Qed.

Lemma threaded_invoke {A} (c : call) (f : W -> W * result A) :
  threaded (invoke c f).
Proof. intros w. unfold invoke. now destruct (f w). Qed.

Lemma threaded_bind {A B} (m : M W A) (k : A -> M W B) :
  threaded m -> (forall a, threaded (k a)) -> threaded (bind m k).
Proof.
  intros Hm Hk w. specialize (Hm w). unfold bind.
  destruct (m w) as [[t1 w1] [a|e]]; [|exact Hm].
  specialize (Hk a w1). destruct (k a w1) as [[t2 w2] r].
  unfold worlds, trace_of, final_world in *. cbn [fst snd] in *.
  destruct t1 as [|x t1]; [|exact Hm].
  cbn [map app hd] in Hm. subst w1. cbn [app].
  destruct t2; exact Hk.
Qed.

Lemma threaded_reads {A B} (f : W -> A) (k : A -> M W B) :
  (forall a, threaded (k a)) -> threaded (bind (reads f) k).
Proof. intros Hk w. rewrite bind_reads. apply Hk. Qed.

Lemma threaded_try {A B} (f : W -> result A) (k : A -> M W B) :
  (forall a, threaded (k a)) -> threaded (bind (try_ f) k).
Proof.
  intros Hk w. rewrite bind_try. destruct (f w) as [a|e]; [apply Hk | reflexivity].
Qed.

Lemma threaded_for_each {A} (l : list A) (body : A -> M W unit) :
  (forall x, threaded (body x)) -> threaded (for_each l body).
Proof.
  intros H. induction l as [|x l IH]; [apply threaded_ret|].
  apply threaded_bind; [apply H | intros _; exact IH].
Qed.

End Runs.

Section Loop.

Context {W : Type} {os : OS W} {co : Collaborators W}.

Lemma threaded_convert_subpage (cfg : Config) (top dest root file : str) :
  threaded (Cli.convert_subpage cfg top dest root file).
Proof.
  unfold Cli.convert_subpage.
  destruct (endswith file Cli.md_suffix); [|apply threaded_ret].
  apply threaded_try. intros rel.
  apply threaded_bind; [apply threaded_invoke|]. intros _.
  apply threaded_invoke.
Qed.

Lemma threaded_walk (n : nat) (cfg : Config) (top dest : str) :
  forall root ds, threaded (Cli.walk_subpages n cfg top dest root ds).
Proof.
  induction n as [|n IH]; intros root ds; [apply threaded_ret|].
  cbn [Cli.walk_subpages]. apply threaded_reads.
  intros [es|]; [|apply threaded_ret].
  apply threaded_bind.
  - apply threaded_for_each. intros f. apply threaded_convert_subpage.
  - intros _. apply threaded_for_each. intros d. apply IH.
Qed.

Lemma threaded_run_page (cfg : Config) (top dest : str) (x : list str * str) :
  threaded (run_page cfg top dest x).
Proof.
  unfold run_page. apply threaded_bind; [apply threaded_invoke|].
  intros _. apply threaded_invoke.
Qed.

(** *** The tree is kept *)

Lemma kept_start {A} (top : str) (es : list entry) (m : M W A) (w : W) :
  threaded m -> tree_kept top es (m w) -> scantree top w = Some es.
Proof.
  intros Hm Hk. specialize (Hm w). unfold tree_kept in Hk.
  destruct (worlds (m w)) as [|w0 l] eqn:E.
  - unfold worlds in E. now destruct (map fst (trace_of (m w))).
  - cbn [hd] in Hm. subst w0. now inversion Hk.
Qed.

Lemma kept_bind_l {A B} (top : str) (es : list entry)
    (m : M W A) (k : A -> M W B) (w : W) :
  (forall a, threaded (k a)) ->
  tree_kept top es (bind m k w) -> tree_kept top es (m w).
Proof.
  intros Hk. unfold tree_kept, bind.
  destruct (m w) as [[t1 w1] [a|e]]; [|exact (fun H => H)].
  specialize (Hk a w1). destruct (k a w1) as [[t2 w2] r].
  unfold worlds, trace_of, final_world in *. cbn [fst snd] in *.
  rewrite map_app, <- app_assoc. intros H. apply Forall_app in H as [H1 H2].
  apply Forall_app. split; [exact H1|]. constructor; [|constructor].
  destruct (map fst t2 ++ [w2]) as [|w0 l] eqn:E.
  - now destruct (map fst t2).
  - cbn [hd] in Hk. subst w0. now inversion H2.
Qed.

Lemma kept_bind_r {A B} (top : str) (es : list entry)
    (m : M W A) (k : A -> M W B) (w w1 : W) (t : list (W * call)) (a : A) :
  m w = (t, w1, Ok a) ->
  tree_kept top es (bind m k w) -> tree_kept top es (k a w1).
Proof.
  intros E. unfold tree_kept, bind. rewrite E.
  destruct (k a w1) as [[t2 w2] r].
  unfold worlds, trace_of, final_world. cbn [fst snd].
  rewrite map_app, <- app_assoc. intros H. now apply Forall_app in H.
Qed.

(** *** The log is that of the loop body over markdown files *)

Lemma pages_trace_app (cfg : Config) (top dest : str)
    (l1 l2 : list (list str * str)) (t1 t2 : list (W * call))
    (r1 r2 : result unit) :
  pages_trace cfg top dest l1 t1 r1 ->
  pages_trace cfg top dest l2 t2 r2 ->
  pages_trace cfg top dest (l1 ++ l2)
    (match r1 with Ok _ => t1 ++ t2 | Raise _ => t1 end)
    (match r1 with Ok _ => r2 | Raise e => Raise e end).
Proof.
  intros H1 H2.
  induction H1 as [|x l w w1 e Hm|x l w w1 w2 e Hm Hc|x l w w1 w2 t r Hm Hc _ IH].
  - exact H2.
  - cbn [app]. eapply pages_makedirs_raises; eassumption.
  - cbn [app]. eapply pages_convert_raises; eassumption.
  - cbn [app]. destruct r as [[]|e].
    + cbn [app]. eapply pages_next; eassumption.
    + eapply pages_next; eassumption.
Qed.

Lemma paged_ret (cfg : Config) (top dest : str) :
  paged cfg top dest (ret tt : M W unit).
Proof. intros w. exists []. split; [constructor | reflexivity]. Qed.

Lemma paged_ext (cfg : Config) (top dest : str) (m m' : M W unit) :
  (forall w, m w = m' w) -> paged cfg top dest m' -> paged cfg top dest m.
Proof. intros E H w. rewrite E. apply H. Qed.

Lemma paged_bind (cfg : Config) (top dest : str)
    (m : M W unit) (k : unit -> M W unit) :
  paged cfg top dest m -> (forall a, paged cfg top dest (k a)) ->
  paged cfg top dest (bind m k).
Proof.
  intros Hm Hk w. destruct (Hm w) as (l1 & H1 & G1). unfold bind.
  destruct (m w) as [[t1 w1] [[]|e]].
  - destruct (Hk tt w1) as (l2 & H2 & G2).
    destruct (k tt w1) as [[t2 w2] r].
    unfold trace_of, outcome_of in *. cbn [fst snd] in *.
    exists (l1 ++ l2). split; [|now rewrite forallb_app, G1, G2].
    exact (pages_trace_app cfg top dest l1 l2 t1 t2 (Ok tt) r H1 H2).
  - exists l1. split; [exact H1 | exact G1].
Qed.

Lemma paged_for_each {A} (cfg : Config) (top dest : str)
    (l : list A) (body : A -> M W unit) :
  (forall x, In x l -> paged cfg top dest (body x)) ->
  paged cfg top dest (for_each l body).
Proof.
  induction l as [|x l IH]; intros H; [apply paged_ret|].
  cbn [for_each]. apply paged_bind; [apply H; now left|].
  intros _. apply IH. intros y Hy. apply H. now right.
Qed.

Lemma paged_run_page (cfg : Config) (top dest : str) (x : list str * str) :
  page_ok x = true -> paged cfg top dest (run_page cfg top dest x).
Proof.
  intros Hx w. exists [x]. split; [|cbn [forallb]; now rewrite Hx].
  unfold run_page, bind, invoke.
  destruct (makedirs (page_dir dest (fst x) (snd x)) true w)
    as [w1 [[]|e]] eqn:E1.
  - destruct (convert_file cfg _ _ _ w1) as [w2 [[]|e]] eqn:E2.
    + eapply pages_next; [eassumption | eassumption | constructor].
    + eapply pages_convert_raises; eassumption.
  - eapply pages_makedirs_raises; eassumption.
Qed.

Lemma for_each_quiet {A} (l : list A) (body : A -> M W unit) (w : W) :
  (forall x, In x l -> body x w = ret tt w) -> for_each l body w = ret tt w.
Proof.
  induction l as [|x l IH]; intros H; [reflexivity|].
  cbn [for_each]. rewrite (bind_cong_l _ (ret tt)) by (apply H; now left).
  rewrite bind_ret_l. apply IH. intros y Hy. apply H. now right.
Qed.

(** A directory whose tree holds no markdown file: the loop makes no
    call in it and below it. *)
Lemma walk_quiet (cfg : Config) (top dest : str) (es : list entry) (w : W) :
  scantree top w = Some es ->
  forall n ds sub root,
    subtree es ds = Some sub ->
    (forall x, In x (tree_files sub) -> is_md x = false) ->
    Cli.walk_subpages n cfg top dest root ds w = ret tt w.
Proof.
  intros Hs. induction n as [|n IH]; intros ds sub root Hsub Hno; [reflexivity|].
  cbn [Cli.walk_subpages]. rewrite bind_reads. unfold listdir.
  rewrite Hs, Hsub.
  rewrite (bind_cong_l _ (ret tt)).
  - rewrite bind_ret_l. apply for_each_quiet. intros d Hd.
    destruct (find_dir d sub) as [sub'|] eqn:E.
    + apply (IH _ sub').
      * rewrite (subtree_snoc _ _ _ _ Hsub). exact E.
      * intros x Hx.
        exact (Hno _ (tree_files_child _ _ _ _ (find_dir_entry _ _ _ E) Hx)).
    + apply walk_unreadable. unfold listdir.
      now rewrite Hs, (subtree_snoc _ _ _ _ Hsub).
  - apply for_each_quiet. intros f Hf. unfold Cli.convert_subpage.
    assert (is_md ([], f) = false) as Hmd.
    { apply Hno. unfold tree_files. apply in_or_app. left.
      now apply in_map. }
    unfold is_md in Hmd. cbn [snd] in Hmd. now rewrite Hmd.
Qed.

Hypothesis laws : OSLaws os.

(** The body of the loop on the files of a listed directory. *)
Lemma files_pages (cfg : Config) (top dest : str) (ds : list str)
    (sub : list entry) (w : W) :
  top <> [] -> isabs top = false ->
  forallb name_ok ds = true -> names_ok sub = true ->
  for_each (filenames sub) (Cli.convert_subpage cfg top dest (join_all top ds)) w
  = for_each (filter is_md (map (pair ds) (filenames sub)))
      (run_page cfg top dest) w.
Proof.
  intros Htop Hrel Hds Hn.
  transitivity
    (for_each (map (pair ds) (filenames sub))
       (fun x => Cli.convert_subpage cfg top dest (join_all top (fst x)) (snd x)) w).
  { now rewrite for_each_map. }
  rewrite (for_each_filter is_md).
  - apply for_each_ext. intros [ds' f] w' Hin.
    apply filter_In in Hin as [Hin Hmd].
    apply in_map_iff in Hin as (f' & E & Hf). injection E as <- <-.
    cbn [fst snd].
    rewrite (convert_subpage_page laws) by
      (assumption || exact (filenames_ok _ _ Hn Hf)).
    now rewrite Hmd.
  - intros [ds' f] w' Hin Hmd.
    apply in_map_iff in Hin as (f' & E & Hf). injection E as <- <-.
    cbn [fst snd].
    rewrite (convert_subpage_page laws) by
      (assumption || exact (filenames_ok _ _ Hn Hf)).
    now rewrite Hmd.
Qed.

Lemma join_all_snoc (top : str) (ds : list str) (d : str) :
  join (join_all top ds) d = join_all top (ds ++ [d]).
Proof. unfold join_all. now rewrite fold_left_app. Qed.

(** Whatever the loop finds, its log is that of the body over markdown
    files below [top], each with names of listings. *)
Lemma walk_paged (cfg : Config) (top dest : str) :
  top <> [] -> isabs top = false ->
  forall n ds,
    forallb name_ok ds = true ->
    paged cfg top dest (Cli.walk_subpages n cfg top dest (join_all top ds) ds).
Proof.
  intros Htop Hrel. induction n as [|n IH]; intros ds Hds; [apply paged_ret|].
  intros w. cbn [Cli.walk_subpages]. rewrite bind_reads.
  destruct (listdir top ds w) as [sub|] eqn:E; [|apply paged_ret].
  unfold listdir in E.
  destruct (scantree top w) as [es|] eqn:Es; [|discriminate].
  destruct (scantree_names laws _ _ _ Es) as [Hn _].
  destruct (subtree_names _ _ _ Hn E) as [_ Hsub].
  apply paged_bind.
  - apply (paged_ext _ _ _ _
             (for_each (filter is_md (map (pair ds) (filenames sub)))
                (run_page cfg top dest))).
    + intros w'. now apply files_pages.
    + apply paged_for_each. intros [ds' f] Hin. apply paged_run_page.
      apply filter_In in Hin as [Hin Hmd].
      apply in_map_iff in Hin as (f' & E' & Hf). injection E' as <- <-.
      unfold page_ok. cbn [fst snd].
      now rewrite Hds, (filenames_ok _ _ Hsub Hf), Hmd.
  - intros _. apply paged_for_each. intros d Hd.
    rewrite join_all_snoc. apply IH.
    rewrite forallb_app, Hds. cbn [forallb].
    now rewrite (dirnames_ok _ _ Hsub Hd).
Qed.

(** When the tree is kept and the bound is not reached, the loop is the
    body over the markdown files of the tree, in the order of the walk. *)
Lemma walk_exact (cfg : Config) (top dest : str) (es : list entry) :
  top <> [] -> isabs top = false ->
  names_ok es = true -> distinct es = true ->
  forall n ds sub w,
    subtree es ds = Some sub -> levels sub <= n ->
    tree_kept top es
      (Cli.walk_subpages n cfg top dest (join_all top ds) ds w) ->
    Cli.walk_subpages n cfg top dest (join_all top ds) ds w
    = for_each (filter is_md (below ds (tree_files sub)))
        (run_page cfg top dest) w.
Proof.
  intros Htop Hrel Hn Hd.
  induction n as [|n IH]; intros ds sub w Hsub Hlev Hk;
    [unfold levels in Hlev; lia|].
  pose proof (kept_start _ _ _ _ (threaded_walk _ _ _ _ _ _) Hk) as Hs.
  destruct (subtree_names _ _ _ Hn Hsub) as [Hds Hnsub].
  pose proof (subtree_distinct _ _ _ Hd Hsub) as Hdsub.
  revert Hk. cbn [Cli.walk_subpages]. rewrite bind_reads. unfold listdir.
  rewrite Hs, Hsub.
  unfold tree_files. rewrite map_app, filter_app, for_each_app.
  rewrite map_map.
  rewrite (map_ext (fun f : str => (ds ++ fst ([] : list str, f), snd ([] : list str, f)))
             (pair ds)) by (intros f; cbn [fst snd]; now rewrite app_nil_r).
  rewrite (bind_cong_l _ _ _ _ (files_pages cfg top dest ds sub w Htop Hrel Hds Hnsub)).
  intros Hk. apply bind_cong_r. intros t w1 [] HF.
  pose proof (kept_bind_r _ _ _ _ _ _ _ _ HF Hk) as Hk1.
  clear Hk HF.
  assert (forall rest,
             (forall d sub', In (Dir d sub') rest -> In (Dir d sub') sub) ->
             forall w',
               tree_kept top es
                 (for_each (dirnames rest)
                    (fun d => Cli.walk_subpages n cfg top dest
                                (join (join_all top ds) d) (ds ++ [d])) w') ->
               for_each (dirnames rest)
                 (fun d => Cli.walk_subpages n cfg top dest
                             (join (join_all top ds) d) (ds ++ [d])) w'
               = for_each (filter is_md (below ds (flat_map entry_files rest)))
                   (run_page cfg top dest) w') as Hdirs.
  { induction rest as [|[f|d sub'] rest IHr]; intros Hin w' Hk'.
    - reflexivity.
    - apply IHr; [|exact Hk']. intros d sub' H. apply Hin. now right.
    - change (dirnames (Dir d sub' :: rest)) with (d :: dirnames rest) in *.
      change (flat_map entry_files (Dir d sub' :: rest))
        with (map (fun x : list str * str => (d :: fst x, snd x)) (tree_files sub')
              ++ flat_map entry_files rest).
      rewrite map_app, filter_app, for_each_app, below_child.
      cbn [for_each] in *.
      assert (In (Dir d sub') sub) as Hd' by (apply Hin; now left).
      assert (Cli.walk_subpages n cfg top dest (join (join_all top ds) d)
                (ds ++ [d]) w'
              = for_each (filter is_md (below (ds ++ [d]) (tree_files sub')))
                  (run_page cfg top dest) w') as E.
      { rewrite join_all_snoc. apply IH.
        - rewrite (subtree_snoc _ _ _ _ Hsub). apply find_dir_unique; [|exact Hd'].
          unfold distinct in Hdsub. now apply andb_true_iff in Hdsub.
        - pose proof (levels_child _ _ _ Hd'). lia.
        - rewrite <- join_all_snoc.
          refine (kept_bind_l _ _ _ _ _ _ Hk'). intros _.
          apply threaded_for_each. intros d'. apply threaded_walk. }
      rewrite (bind_cong_l _ _ _ _ E). apply bind_cong_r. intros t' w2 [] HE.
      apply IHr; [intros d0 s0 H; apply Hin; now right|].
      rewrite <- E in HE. exact (kept_bind_r _ _ _ _ _ _ _ _ HE Hk'). }
  apply Hdirs; [auto | exact Hk1].
Qed.

End Loop.

End LoopFacts.

(** ** Shape of a run *)

Module ShapeFacts.

Import Str StrFacts PosixPath PathFacts RunFacts WalkFacts StepFacts
       TraceFacts GenerateFacts.







Section Run.

Context {W : Type} {os : OS W} {co : Collaborators W} {fuel : nat}.


Hypothesis laws : OSLaws os.

Lemma page_ok_spec (x : list str * str) :
  page_ok x = true ->
  forallb name_ok (fst x) = true /\ name_ok (snd x) = true
  /\ endswith (snd x) Cli.md_suffix = true.
Proof.
  unfold page_ok, is_md. intros H.
  apply andb_true_iff in H as [H H3]. apply andb_true_iff in H as [H1 H2].
  auto.
Qed.

(** The log of the subpage step, whatever the walk finds: that of the
    loop body over markdown files below the folder. *)
Lemma step_pages (cfg : Config) (folder : str) (w : W) :
  Cli.subpages_configured cfg = Some folder ->
  exists l,
    pages_trace cfg (subpages_top folder)
      (destination_folder (content_mapping cfg)) l
      (trace_of (Cli.convert_subpages fuel cfg w))
      (outcome_of (Cli.convert_subpages fuel cfg w))
    /\ forallb page_ok l = true.
Proof.
  intros Hc. unfold Cli.convert_subpages. rewrite Hc.
  fold (subpages_top folder). rewrite bind_reads.
  destruct (path_exists (subpages_top folder) w).
  - destruct (subpages_top_relative folder) as [H1 H2].
    exact (LoopFacts.walk_paged laws cfg _ _ H1 H2 fuel [] eq_refl w).
  - exists []. split; [constructor | reflexivity].
Qed.

(** The subpage step over a tree that its calls leave as it is, with a
    bound that the tree does not reach: one loop over the markdown files
    of the tree. *)
Lemma step_exact (cfg : Config) (folder : str) (es : list entry) (w : W) :
  walks cfg folder es w ->
  levels es <= fuel ->
  tree_kept (subpages_top folder) es (Cli.convert_subpages fuel cfg w) ->
  Cli.convert_subpages fuel cfg w
  = for_each (filter is_md (tree_files es))
      (run_page cfg (subpages_top folder)
         (destination_folder (content_mapping cfg))) w.
Proof.
  intros (Hc & He & Hs & Hn) Hlev.
  rewrite (convert_subpages_walk cfg folder w Hc He).
  destruct (subpages_top_relative folder) as [H1 H2].
  destruct (scantree_names laws _ _ _ Hs) as [_ Hd].
  intros Hk.
  rewrite <- (LoopFacts.below_nil (tree_files es)).
  exact (LoopFacts.walk_exact laws cfg _ _ es H1 H2 Hn Hd fuel [] es w
           eq_refl Hlev Hk).
Qed.

Lemma step_trace (cfg : Config) (folder : str) (es : list entry) (w : W) :
  walks cfg folder es w ->
  levels es <= fuel ->
  tree_kept (subpages_top folder) es (Cli.convert_subpages fuel cfg w) ->
  pages_trace cfg (subpages_top folder)
    (destination_folder (content_mapping cfg))
    (filter is_md (tree_files es))
    (trace_of (Cli.convert_subpages fuel cfg w))
    (outcome_of (Cli.convert_subpages fuel cfg w)).
Proof.
  intros Hw Hlev Hk. rewrite (step_exact cfg folder es w Hw Hlev Hk).
  apply for_each_pages_trace.
Qed.


End Run.

(** Two walked files with the same path are the same file. *)
Lemma walked_path_inj (top : str) (ds ds' : list str) (f f' : str) :
  forallb name_ok ds = true -> name_ok f = true ->
  forallb name_ok ds' = true -> name_ok f' = true ->
  walked_path top ds f = walked_path top ds' f' -> ds = ds' /\ f = f'.
Proof.
  intros Hds Hf Hds' Hf' E.
  rewrite !walked_path_eq in E by assumption.
  apply app_inv_head in E.
  apply (f_equal (fun s => Str.split s sep)) in E.
  rewrite !split_join in E.
  - now apply app_inj_tail in E.
  - destruct ds'; discriminate.
  - apply names_free, PageFacts.names_snoc; assumption.
  - destruct ds; discriminate.
  - apply names_free, PageFacts.names_snoc; assumption.
Qed.

End ShapeFacts.

(** * Properties of the orchestrator *)

Section Orchestrator.

Import ShapeFacts TraceFacts GenerateFacts.

Context {W : Type} {os : OS W} {co : Collaborators W} {fuel : nat}.




(** C5, amended.  When no subpages folder is configured, or the
    configured folder does not exist when the home page has been
    converted, the subpage step does nothing at all: it makes no call,
    writes no message, leaves the world as it is and returns; the next
    call of the run is the asset copy.  The run writes the banner of the
    destination folder and, when the asset copy returns, the closing
    message, and nothing else. *)
Theorem missing_subpages_skipped_silently (config : str) (cfg : Config)
    (w w1 w2 w3 w4 : W) :
  load_config config w = (w1, Ok cfg) ->
  fetch (source_repository cfg) w1 = (w2, Ok tt) ->
  create_structure (destination_folder (content_mapping cfg)) cfg w2
  = (w3, Ok tt) ->
  convert_file cfg (home_source cfg) (home_dest cfg) Cli.source_repo w3
  = (w4, Ok tt) ->
  subpages_folder (content_mapping cfg) = None
  \/ (exists folder,
        subpages_folder (content_mapping cfg) = Some folder
        /\ path_exists (lit "source_repo/" ++ folder) w4 = false) ->
  Cli.convert_subpages fuel cfg w4 = ([], w4, Ok tt)
  /\ exists rest,
       trace_of (Cli.generate fuel config w)
       = [(w, LoadConfig config);
          (w1, Fetch (source_repository cfg));
          (w2, Print (banner cfg));
          (w2, CreateStructure (destination_folder (content_mapping cfg)));
          (w3, ConvertFile (home_source cfg) (home_dest cfg) Cli.source_repo);
          (w4, CopyAssets Cli.source_repo (media_root cfg))] ++ rest
       /\ (rest = [] \/ exists w6, rest = [(w6, Echo success)])
       /\ (outputs (events (trace_of (Cli.generate fuel config w))) = [banner cfg]
           \/ outputs (events (trace_of (Cli.generate fuel config w)))
              = [banner cfg; success]).
Proof.
  intros Hl Hf Hc Hh Hskip.
  assert (Cli.convert_subpages fuel cfg w4 = ([], w4, Ok tt)) as Hs.
  { destruct (Cli.subpages_configured cfg) as [folder|] eqn:E.
    - assert (subpages_folder (content_mapping cfg) = Some folder) as Ef.
      { unfold Cli.subpages_configured in E.
        destruct (subpages_folder (content_mapping cfg)) as [s|]; [|discriminate].
        destruct (_ && _); congruence. }
      destruct Hskip as [Hn | (folder' & Hn & Hx)]; [congruence|].
      assert (folder' = folder) as -> by congruence.
      exact (StepFacts.convert_subpages_absent cfg folder w4 E Hx).
    - exact (StepFacts.convert_subpages_unset cfg w4 E). }
  split; [exact Hs|].
  rewrite generate_steps, Hl, Hf, Hc. cbv zeta. rewrite Hh, Hs.
  destruct (copy_assets cfg Cli.source_repo (media_root cfg) w4) as [w6 [[]|e]].
  - exists [(w6, Echo success)]. split; [reflexivity|].
    split; [right; now exists w6 | right; reflexivity].
  - exists []. split; [reflexivity|]. split; [now left | left; reflexivity].
Qed.

(** C8.  A configuration whose subpages folder is the string [<none>]
    counts as one without a subpages folder: the subpage step makes no
    call and leaves the world as it is, whatever the world holds, as it
    does for a configuration with no folder at all. *)
Theorem none_marker_means_unset (cfg : Config) (w : W) :
  subpages_folder (content_mapping cfg) = Some (lit "<none>") ->
  Cli.subpages_configured cfg = None
  /\ Cli.convert_subpages fuel cfg w = ([], w, Ok tt)
  /\ forall cfg0,
       subpages_folder (content_mapping cfg0) = None ->
       Cli.convert_subpages fuel cfg0 w = Cli.convert_subpages fuel cfg w.
Proof.
  intros H.
  assert (Cli.subpages_configured cfg = None) as E
    by (unfold Cli.subpages_configured; now rewrite H).
  split; [exact E|].
  rewrite (StepFacts.convert_subpages_unset cfg w E).
  split; [reflexivity|]. intros cfg0 H0.
  apply StepFacts.convert_subpages_unset.
  unfold Cli.subpages_configured. now rewrite H0.
Qed.

End Orchestrator.

Section Subpages.

Import Str StrFacts PosixPath PathFacts WalkFacts PageFacts ShapeFacts
       TraceFacts MakedirsFacts.

Context {W : Type} {os : OS W} {co : Collaborators W} {fuel : nat}.
Hypothesis laws : OSLaws os.

Lemma with_sep_plain (a : str) :
  a <> [] -> endswith a [sep] = false -> with_sep a = a ++ [sep].
Proof.
  intros Ha E. unfold with_sep. rewrite E. destruct a; [congruence | reflexivity].
Qed.

Lemma configured_folder (cfg : Config) (folder : str) :
  Cli.subpages_configured cfg = Some folder ->
  subpages_folder (content_mapping cfg) = Some folder
  /\ folder <> [] /\ folder <> lit "<none>".
Proof.
  unfold Cli.subpages_configured.
  destruct (subpages_folder (content_mapping cfg)) as [s|]; [|discriminate].
  destruct (nonempty s && negb (eqb s Cli.none_marker)) eqn:E; [|discriminate].
  intros H. injection H as ->. apply andb_true_iff in E as [E1 E2].
  repeat split.
  - intros ->. discriminate.
  - apply negb_true_iff in E2. now apply eqb_neq in E2.
Qed.

Lemma subpages_top_plain (folder : str) :
  folder <> [] -> endswith folder [sep] = false ->
  with_sep (subpages_top folder) = subpages_top folder ++ [sep].
Proof.
  intros Hf E. apply with_sep_plain; [discriminate|].
  destruct (endswith (subpages_top folder) [sep]) eqn:X; [|reflexivity].
  apply endswith_iff in X as [r Hr].
  destruct (exists_last Hf) as (f' & y & ->).
  unfold subpages_top in Hr. rewrite app_assoc in Hr.
  apply app_inj_tail in Hr as [_ ->].
  assert (endswith (f' ++ [sep]) [sep] = true) as Y
    by (apply endswith_iff; now exists f').
  congruence.
Qed.

(** Every call of the subpage step is a call of the loop body for a
    markdown file below the folder, whatever the walk has found. *)
Lemma step_calls (cfg : Config) (folder : str) (w : W) (c : call) :
  Cli.subpages_configured cfg = Some folder ->
  In c (events (trace_of (Cli.convert_subpages fuel cfg w))) ->
  exists x,
    page_ok x = true
    /\ In c (page_calls (subpages_top folder)
               (destination_folder (content_mapping cfg)) x).
Proof.
  intros Hc Hin.
  destruct (step_pages (fuel := fuel) laws cfg folder w Hc) as (l & Ht & Hl).
  destruct (pages_trace_events _ _ _ _ _ _ Ht) as [Hp _].
  pose proof (prefix_in _ _ _ Hp Hin) as Hin'.
  apply in_flat_map in Hin' as [x [Hx Hin']].
  exists x. split; [|exact Hin']. rewrite forallb_forall in Hl. auto.
Qed.

Lemma step_conversion (cfg : Config) (folder : str) (w : W) (s d b : str) :
  Cli.subpages_configured cfg = Some folder ->
  In (ConvertFile s d b) (events (trace_of (Cli.convert_subpages fuel cfg w))) ->
  exists ds stem,
    forallb name_ok ds = true /\ name_ok (stem ++ lit ".md") = true
    /\ s = walked_path (subpages_top folder) ds (stem ++ lit ".md")
    /\ d = page_dest (destination_folder (content_mapping cfg)) ds
             (stem ++ lit ".md")
    /\ b = Cli.source_repo.
Proof.
  intros Hc Hin.
  destruct (step_calls cfg folder w _ Hc Hin) as ([ds f] & Hx & Hcall).
  destruct (page_ok_spec _ Hx) as (Hds & Hf & Hmd). cbn [fst snd] in *.
  apply endswith_md in Hmd as [stem ->].
  destruct Hcall as [Hcall|[Hcall|[]]]; [discriminate|].
  injection Hcall as <- <- <-. exists ds, stem. auto 6.
Qed.

Lemma step_directory (cfg : Config) (folder : str) (w : W)
    (d : str) (ex : bool) :
  Cli.subpages_configured cfg = Some folder ->
  In (MakeDirs d ex) (events (trace_of (Cli.convert_subpages fuel cfg w))) ->
  exists ds stem,
    forallb name_ok ds = true /\ name_ok (stem ++ lit ".md") = true
    /\ d = page_dir (destination_folder (content_mapping cfg)) ds
             (stem ++ lit ".md")
    /\ ex = true.
Proof.
  intros Hc Hin.
  destruct (step_calls cfg folder w _ Hc Hin) as ([ds f] & Hx & Hcall).
  destruct (page_ok_spec _ Hx) as (Hds & Hf & Hmd). cbn [fst snd] in *.
  apply endswith_md in Hmd as [stem ->].
  destruct Hcall as [Hcall|[Hcall|[]]]; [|discriminate].
  injection Hcall as <- <-. exists ds, stem. auto.
Qed.

(** The calls of the subpage step over a tree that they leave as it is,
    from the markdown files of the tree. *)
Lemma step_events (cfg : Config) (folder : str) (es : list entry) (w : W) :
  walks cfg folder es w ->
  levels es <= fuel ->
  tree_kept (subpages_top folder) es (Cli.convert_subpages fuel cfg w) ->
  prefix (events (trace_of (Cli.convert_subpages fuel cfg w)))
    (flat_map (page_calls (subpages_top folder)
                 (destination_folder (content_mapping cfg)))
       (filter is_md (tree_files es)))
  /\ (outcome_of (Cli.convert_subpages fuel cfg w) = Ok tt ->
      events (trace_of (Cli.convert_subpages fuel cfg w))
      = flat_map (page_calls (subpages_top folder)
                    (destination_folder (content_mapping cfg)))
          (filter is_md (tree_files es))).
Proof.
  intros Hw Hlev Hk. eapply pages_trace_events, step_trace; eassumption.
Qed.


(** In the log of a loop that returned, each file has its two calls, the
    conversion right after the [makedirs], which returned. *)
Lemma pages_trace_pairs (cfg : Config) (top dest : str)
    (l : list (list str * str)) (t : list (W * call)) :
  pages_trace cfg top dest l t (Ok tt) ->
  forall x, In x l ->
    exists pre w0 w1 post,
      t = pre
          ++ (w0, MakeDirs (page_dir dest (fst x) (snd x)) true)
          :: (w1, ConvertFile (walked_path top (fst x) (snd x))
                    (page_dest dest (fst x) (snd x)) Cli.source_repo)
          :: post
      /\ makedirs (page_dir dest (fst x) (snd x)) true w0 = (w1, Ok tt).
Proof.
  intros H. remember (Ok tt) as r eqn:Er. revert Er.
  induction H as [|x l w w1 e H1|x l w w1 w2 e H1 H2|x l w w1 w2 t r H1 H2 _ IH];
    intros Er y Hy; try discriminate.
  - destruct Hy.
  - destruct Hy as [<-|Hy].
    + exists [], w, w1, t. split; [reflexivity | now rewrite Er].
    + destruct (IH Er y Hy) as (pre & v0 & v1 & post & -> & Hm).
      exists ((w, MakeDirs (page_dir dest (fst x) (snd x)) true)
              :: (w1, ConvertFile (walked_path top (fst x) (snd x))
                        (page_dest dest (fst x) (snd x)) Cli.source_repo)
              :: pre), v0, v1, post.
      split; [reflexivity | exact Hm].
Qed.

(** C1, amended.  For a markdown file at the relative path [a/b/c.md]
    below the subpages folder, where [c] has a character that is not a
    dot, the only destination that the subpage step passes to the
    converter for this file, wherever the walk finds it, is
    [os.path.join(destination_folder, "a/b/c", "index.md")]; when the file
    is in the tree at the start, the calls of the step leave the tree as
    it is, the bound of the walk is not reached and the step returns,
    the step has made this conversion; the destination is the string
    [<destination_folder>/a/b/c/index.md] when the destination folder is
    not empty and does not end in a separator; and the source path is
    [source_repo/<subpages_folder>/a/b/c.md] when the subpages folder
    does not end in a separator. *)
Theorem subpage_destination (cfg : Config) (folder : str)
    (es : list entry) (w : W) (ds : list str) (stem : str) :
  walks cfg folder es w ->
  forallb name_ok ds = true ->
  name_ok (stem ++ lit ".md") = true ->
  has_nondot stem = true ->
  let source := walked_path (subpages_top folder) ds (stem ++ lit ".md") in
  let dest := destination_folder (content_mapping cfg) in
  let target :=
    join (join dest (Str.join sep (ds ++ [stem]))) (lit "index.md") in
  (forall d b,
      In (ConvertFile source d b)
        (events (trace_of (Cli.convert_subpages fuel cfg w))) ->
      d = target)
  /\ (file_at es ds (stem ++ lit ".md") ->
      levels es <= fuel ->
      tree_kept (subpages_top folder) es (Cli.convert_subpages fuel cfg w) ->
      outcome_of (Cli.convert_subpages fuel cfg w) = Ok tt ->
      In (ConvertFile source target (lit "source_repo"))
        (events (trace_of (Cli.convert_subpages fuel cfg w))))
  /\ (dest <> [] -> endswith dest [sep] = false ->
      target = dest ++ lit "/" ++ Str.join sep (ds ++ [stem]) ++ lit "/index.md")
  /\ (endswith folder [sep] = false ->
      source = lit "source_repo/" ++ folder ++ lit "/"
               ++ Str.join sep (ds ++ [stem ++ lit ".md"])).
Proof.
  intros Hw Hds Hf Hstem source dest target.
  pose proof Hw as (Hc & _ & _ & Hn).
  assert (page_dest dest ds (stem ++ lit ".md") = target) as Htarget.
  { unfold page_dest, page_dir. rewrite page_stem by assumption.
    now rewrite Hstem. }
  split; [|split; [|split]].
  - intros d b Hin.
    destruct (step_conversion cfg folder w _ _ _ Hc Hin)
      as (ds' & stem' & Hds' & Hf' & Hs & -> & _).
    destruct (walked_path_inj _ _ _ _ _ Hds Hf Hds' Hf' Hs) as [<- E].
    rewrite <- E. exact Htarget.
  - intros Hfile Hlev Hk Hok.
    destruct (step_events cfg folder es w Hw Hlev Hk) as [_ He].
    rewrite (He Hok). apply in_flat_map. exists (ds, stem ++ lit ".md").
    split.
    + apply filter_In. split; [now apply in_tree_files|].
      unfold is_md. cbn [snd]. apply endswith_iff. now exists stem.
    + right. left. cbn [fst snd]. fold dest. now rewrite Htarget.
  - intros Hd He. rewrite <- Htarget, page_dest_eq by assumption.
    rewrite Hstem, with_sep_plain by assumption.
    now rewrite <- !app_assoc.
  - intros He. unfold source. rewrite walked_path_eq by assumption.
    destruct (configured_folder cfg folder Hc) as (_ & Hne & _).
    rewrite subpages_top_plain by assumption.
    unfold subpages_top. now rewrite <- !app_assoc.
Qed.


(** C10.  In the subpage step every conversion comes right after a call
    of [os.makedirs] with [exist_ok=True] on a directory [dir]: that call
    returned, the destination of the conversion is
    [os.path.join(dir, "index.md")], and [dir] is a directory in the world
    in which the converter is called.  The step never calls [os.makedirs]
    without [exist_ok], and [os.makedirs] with [exist_ok] on a name that is
    a directory already returns and changes nothing.  When the calls of
    the step leave the tree as it is, the bound of the walk is not
    reached and the step returns, the log holds, for every markdown file
    of the tree, the [os.makedirs] of its directory, which returned, and
    right after it the conversion of the file into that directory. *)
Theorem directory_made_before_conversion (cfg : Config) (folder : str)
    (es : list entry) (w : W) :
  walks cfg folder es w ->
  (forall pre w1 s d b post,
      trace_of (Cli.convert_subpages fuel cfg w)
      = pre ++ (w1, ConvertFile s d b) :: post ->
      exists pre' w0 dir,
        pre = pre' ++ [(w0, MakeDirs dir true)]
        /\ makedirs dir true w0 = (w1, Ok tt)
        /\ d = join dir (lit "index.md")
        /\ path_isdir dir w1 = true)
  /\ (forall w0 dir exist_ok,
        In (w0, MakeDirs dir exist_ok) (trace_of (Cli.convert_subpages fuel cfg w)) ->
        exist_ok = true)
  /\ (forall dir w0,
        path_isdir dir w0 = true -> makedirs dir true w0 = (w0, Ok tt))
  /\ (levels es <= fuel ->
      tree_kept (subpages_top folder) es (Cli.convert_subpages fuel cfg w) ->
      outcome_of (Cli.convert_subpages fuel cfg w) = Ok tt ->
      forall ds f,
        file_at es ds f -> endswith f (lit ".md") = true ->
        let dir := join (destination_folder (content_mapping cfg))
                     (fst (splitext (Str.join sep (ds ++ [f])))) in
        exists pre w0 w1 post,
          trace_of (Cli.convert_subpages fuel cfg w)
          = pre
            ++ (w0, MakeDirs dir true)
            :: (w1, ConvertFile (walked_path (subpages_top folder) ds f)
                      (join dir (lit "index.md")) (lit "source_repo"))
            :: post
          /\ makedirs dir true w0 = (w1, Ok tt)
          /\ path_isdir dir w1 = true).
Proof.
  intros Hw. pose proof Hw as (Hc & _ & _ & Hn).
  assert (forall ds stem w0 w1,
             forallb name_ok ds = true -> name_ok (stem ++ lit ".md") = true ->
             makedirs (page_dir (destination_folder (content_mapping cfg)) ds
                         (stem ++ lit ".md")) true w0 = (w1, Ok tt) ->
             path_isdir (page_dir (destination_folder (content_mapping cfg)) ds
                           (stem ++ lit ".md")) w1 = true) as Hdir.
  { intros ds stem w0 w1 Hds Hf Hm.
    apply (makedirs_isdir laws _ w0); [|exact Hm]. now apply page_dir_tail. }
  split; [|split; [|split]].
  - intros pre w1 s d b post E.
    destruct (step_pages (fuel := fuel) laws cfg folder w Hc) as (l & Ht & Hl).
    destruct (pages_trace_blocks _ _ _ _ _ _ Ht _ _ _ _ _ _ E)
      as (pre' & w0 & x & Hx & Hpre & Hm & _ & Hd & _).
    exists pre', w0,
      (page_dir (destination_folder (content_mapping cfg)) (fst x) (snd x)).
    split; [exact Hpre|]. split; [exact Hm|]. split; [exact Hd|].
    rewrite forallb_forall in Hl.
    destruct (page_ok_spec _ (Hl _ Hx)) as (Hxd & Hxf & Hmd).
    destruct (endswith_md _ Hmd) as [stem Es].
    rewrite Es in *. exact (Hdir _ _ _ _ Hxd Hxf Hm).
  - intros w0 dir eo Hin.
    apply (in_map snd) in Hin. cbn [snd] in Hin.
    fold (events (trace_of (Cli.convert_subpages fuel cfg w))) in Hin.
    destruct (step_directory cfg folder w _ _ Hc Hin) as (_ & _ & _ & _ & _ & E).
    exact E.
  - intros dir w0. apply (makedirs_present laws).
  - intros Hlev Hk Hok ds f Hfile Hmd dir.
    pose proof (step_trace laws cfg folder es w Hw Hlev Hk) as Ht.
    rewrite Hok in Ht.
    assert (In (ds, f) (filter is_md (tree_files es))) as Hin
      by (apply filter_In; split; [now apply in_tree_files | exact Hmd]).
    destruct (pages_trace_pairs _ _ _ _ _ Ht _ Hin)
      as (pre & w0 & w1 & post & E & Hm).
    cbn [fst snd] in E, Hm.
    exists pre, w0, w1, post. split; [exact E|]. split; [exact Hm|].
    destruct (file_at_names _ _ _ Hfile Hn) as [Hds Hf].
    destruct (endswith_md _ Hmd) as [stem Es]. subst f.
    exact (Hdir _ _ _ _ Hds Hf Hm).
Qed.

Lemma sources_of_pages (top dest : str) (l : list (list str * str)) :
  sources_of (flat_map (page_calls top dest) l)
  = map (fun x => walked_path top (fst x) (snd x)) l.
Proof.
  induction l as [|x l IH]; [reflexivity|].
  cbn [flat_map map]. unfold sources_of in *. rewrite flat_map_app, IH.
  reflexivity.
Qed.

(** The sources of a step that returns, in the order of the walk. *)
Lemma step_sources (cfg : Config) (folder : str) (es : list entry) (w : W) :
  walks cfg folder es w ->
  levels es <= fuel ->
  tree_kept (subpages_top folder) es (Cli.convert_subpages fuel cfg w) ->
  outcome_of (Cli.convert_subpages fuel cfg w) = Ok tt ->
  sources_of (events (trace_of (Cli.convert_subpages fuel cfg w)))
  = map (fun x => walked_path (subpages_top folder) (fst x) (snd x))
      (filter is_md (tree_files es)).
Proof.
  intros Hw Hlev Hk Hok. destruct (step_events cfg folder es w Hw Hlev Hk) as [_ He].
  rewrite (He Hok). apply sources_of_pages.
Qed.

End Subpages.

(** The markdown files that [os.walk] yields over a fixed tree are those
    of the tree, a directory before its sub-directories. *)
Lemma walk_sources_files (top : str) (es : list entry) :
  walk_sources top es
  = map (fun x => walked_path top (fst x) (snd x))
      (filter is_md (tree_files es)).
Proof.
  unfold walk_sources.
  assert (forall L : list (str * list str * list str),
             flat_map (fun t : str * list str * list str =>
                         map (PosixPath.join (fst (fst t)))
                           (filter (fun f => Str.endswith f (lit ".md")) (snd t))) L
             = map (fun p : str * str => PosixPath.join (fst p) (snd p))
                 (filter (fun p : str * str => Str.endswith (snd p) (lit ".md"))
                    (flat_map WalkFacts.visit L))) as H.
  { induction L as [|[[root dirs] files] L IH]; [reflexivity|].
    cbn [flat_map fst snd]. rewrite filter_app, map_app, IH. f_equal.
    clear IH. induction files as [|f files IHf]; [reflexivity|].
    cbn [filter map fst snd].
    destruct (Str.endswith f (lit ".md")); cbn [map fst snd]; now rewrite IHf. }
  rewrite H, WalkFacts.visit_walk. clear H.
  induction (tree_files es) as [|[ds f] l IH]; [reflexivity|].
  cbn [map filter fst snd]. unfold is_md at 1. cbn [snd].
  change Cli.md_suffix with (lit ".md").
  destruct (Str.endswith f (lit ".md")); cbn [map fst snd]; now rewrite IH.
Qed.

(** C6, amended.  When the calls of the subpage step leave the tree of
    the subpages folder as it is, the bound of the walk is not reached
    and the step returns, the source paths that it passed to the
    converter are those of the markdown files of the tree in the order of
    [os.walk]: the files of a directory in the order of its listing,
    before the files of its sub-directories, which are entered in listing
    order.  The order then depends on the tree and its listings only: a
    second such run over the same tree, in another world and with
    collaborators that behave otherwise, passes the same sources in the
    same order. *)
Theorem traversal_in_walk_order {W : Type} (os : OS W)
    (co co' : Collaborators W) (fuel fuel' : nat) (cfg : Config)
    (folder : str) (es : list entry) (w w' : W) :
  OSLaws os ->
  walks cfg folder es w ->
  walks cfg folder es w' ->
  levels es <= fuel -> levels es <= fuel' ->
  tree_kept (subpages_top folder) es (@Cli.convert_subpages W os co fuel cfg w) ->
  tree_kept (subpages_top folder) es (@Cli.convert_subpages W os co' fuel' cfg w') ->
  outcome_of (@Cli.convert_subpages W os co fuel cfg w) = Ok tt ->
  outcome_of (@Cli.convert_subpages W os co' fuel' cfg w') = Ok tt ->
  sources_of (events (trace_of (@Cli.convert_subpages W os co fuel cfg w)))
  = walk_sources (subpages_top folder) es
  /\ walk_sources (subpages_top folder) es
     = map (fun x => walked_path (subpages_top folder) (fst x) (snd x))
         (filter is_md
            (map (fun f => ([], f)) (filenames es) ++ flat_map entry_files es))
  /\ sources_of (events (trace_of (@Cli.convert_subpages W os co' fuel' cfg w')))
     = sources_of (events (trace_of (@Cli.convert_subpages W os co fuel cfg w))).
Proof.
  intros laws Hw Hw' Hlev Hlev' Hk Hk' Hok Hok'.
  pose proof (@step_sources W os co fuel laws cfg folder es w Hw Hlev Hk Hok) as E.
  pose proof (@step_sources W os co' fuel' laws cfg folder es w' Hw' Hlev' Hk' Hok')
    as E'.
  split; [now rewrite walk_sources_files|].
  split; [apply walk_sources_files | now rewrite E, E'].
Qed.

(** ** Destinations of distinct pages *)

Module DestFacts.

Import Str StrFacts PosixPath PathFacts PageFacts.

(** Two pages with the same destination have the same directories and
    the same page name. *)
Lemma page_dest_names (dest : str) (ds ds' : list str) (stem stem' : str) :
  forallb name_ok ds = true -> name_ok (stem ++ lit ".md") = true ->
  forallb name_ok ds' = true -> name_ok (stem' ++ lit ".md") = true ->
  page_dest dest ds (stem ++ lit ".md") = page_dest dest ds' (stem' ++ lit ".md") ->
  ds = ds'
  /\ (if has_nondot stem then stem else stem ++ lit ".md")
     = (if has_nondot stem' then stem' else stem' ++ lit ".md").
Proof.
  intros Hds Hf Hds' Hf' E.
  rewrite !page_dest_eq in E by assumption.
  apply app_inv_head, app_inv_tail in E.
  apply (f_equal (fun s => Str.split s sep)) in E.
  rewrite !split_join in E.
  - now apply app_inj_tail in E.
  - destruct ds'; discriminate.
  - apply names_free, names_snoc; [assumption | now apply page_name_ok].
  - destruct ds; discriminate.
  - apply names_free, names_snoc; [assumption | now apply page_name_ok].
Qed.

(** The flattening is injective on the markdown files whose names have
    a character that is not a dot before [.md]. *)
Lemma page_dest_injective (dest : str) (ds ds' : list str) (stem stem' : str) :
  forallb name_ok ds = true -> name_ok (stem ++ lit ".md") = true ->
  forallb name_ok ds' = true -> name_ok (stem' ++ lit ".md") = true ->
  has_nondot stem = true -> has_nondot stem' = true ->
  page_dest dest ds (stem ++ lit ".md") = page_dest dest ds' (stem' ++ lit ".md") ->
  ds = ds' /\ stem = stem'.
Proof.
  intros Hds Hf Hds' Hf' Hs Hs' E.
  destruct (page_dest_names dest ds ds' stem stem' Hds Hf Hds' Hf' E) as [H1 H2].
  now rewrite Hs, Hs' in H2.
Qed.

(** No page of the subpages folder is written over the home page. *)
Lemma page_dest_not_home (cfg : Config) (ds : list str) (stem : str) :
  forallb name_ok ds = true -> name_ok (stem ++ lit ".md") = true ->
  page_dest (destination_folder (content_mapping cfg)) ds (stem ++ lit ".md")
  <> home_dest cfg.
Proof.
  intros Hds Hf E. rewrite page_dest_eq in E by assumption.
  unfold home_dest in E.
  set (dest := destination_folder (content_mapping cfg)) in *.
  assert (Str.join sep (ds ++ [if has_nondot stem then stem else stem ++ lit ".md"])
        <> []) as Hne.
  { apply join_names_nonempty; [|destruct ds; discriminate].
    apply names_snoc; [assumption | now apply page_name_ok]. }
  assert (with_sep dest = dest \/ with_sep dest = dest ++ [sep]) as [Hd|Hd].
  { unfold with_sep. destruct dest; [now left|].
    destruct (endswith _ _); [now left | now right]. }
  - rewrite Hd in E. apply app_inv_head in E.
    apply (f_equal (@length _)) in E. rewrite length_app in E.
    destruct (Str.join sep (ds ++ [if has_nondot stem then stem else stem ++ lit ".md"]));
    [congruence|].
    simpl in E. lia.
  - rewrite Hd, <- app_assoc in E. apply app_inv_head in E.
    apply (f_equal (@length _)) in E. cbn [app length] in E.
    rewrite length_app in E. simpl in E. lia.
Qed.

End DestFacts.

(** * Sample runs *)

Import Sample.

Lemma walks_site : walks cfg_site (lit "sub") (Model.to_entries pages) w_site.
Proof. repeat split. Qed.

(** A second run starts in the world that the first run left. *)
Lemma walks_site_again :
  walks cfg_site (lit "sub") (Model.to_entries pages)
    (final_world (run cfg_site w_site)).
Proof. repeat split. Qed.

Lemma file_b : file_at (Model.to_entries pages) [lit "a"] (lit "b" ++ lit ".md").
Proof.
  exists [File (lit "b.md"); File (lit "c.txt")]. split.
  - eapply dir_below; [left; reflexivity | apply dir_here].
  - left. reflexivity.
Qed.

Lemma file_c : file_at (Model.to_entries pages) [lit "a"] (lit "c.txt").
Proof.
  exists [File (lit "b.md"); File (lit "c.txt")]. split.
  - eapply dir_below; [left; reflexivity | apply dir_here].
  - right. left. reflexivity.
Qed.

(** C1, as the specification states it, fails.  A file named [.md] is a markdown file
    for the subpage step, and its destination keeps the suffix:
    [site/.md/index.md], not the destination folder, the relative path
    without [.md] and [index.md].  With the destination folder [site/] the
    page [z.md] goes to [site/z/index.md], which is not the string
    [site/] followed by [/z/index.md]. *)
Lemma flattening_counterexample :
  (file_at (Model.to_entries dotted) [] ([] ++ lit ".md")
   /\ events (trace_of (step cfg_site w_dotted))
      = [MakeDirs (lit "site/.md") true;
         ConvertFile (lit "source_repo/sub/.md") (lit "site/.md/index.md")
           (lit "source_repo");
         MakeDirs (lit "site/.md") true;
         ConvertFile (lit "source_repo/sub/.md.md") (lit "site/.md/index.md")
           (lit "source_repo")]
   /\ lit "site/.md/index.md"
      <> lit "site" ++ lit "/" ++ Str.join Str.sep ([] ++ [[]]) ++ lit "/index.md")
  /\ (events (trace_of (step cfg_slash w_site))
      = [MakeDirs (lit "site/z") true;
         ConvertFile (lit "source_repo/sub/z.md") (lit "site/z/index.md")
           (lit "source_repo");
         MakeDirs (lit "site/a/b") true;
         ConvertFile (lit "source_repo/sub/a/b.md") (lit "site/a/b/index.md")
           (lit "source_repo")]
      /\ lit "site/z/index.md"
         <> destination_folder (content_mapping cfg_slash) ++ lit "/"
            ++ Str.join Str.sep ([] ++ [lit "z"]) ++ lit "/index.md").
Proof.
  split; split.
  - exists (Model.to_entries dotted). split; [apply dir_here | left; reflexivity].
  - split; [vm_compute; reflexivity | discriminate].
  - vm_compute; reflexivity.
  - discriminate.
Qed.

(** C2, the code at the failing input.  The files [.md] and [.md.md] of
    one folder are two sources, and the subpage step passes the same
    destination, [site/.md/index.md], to the converter for both. *)
Lemma dotted_pages_share_a_destination :
  outcome_of (step cfg_site w_dotted) = Ok tt
  /\ In (ConvertFile (lit "source_repo/sub/.md") (lit "site/.md/index.md")
           (lit "source_repo"))
       (events (trace_of (step cfg_site w_dotted)))
  /\ In (ConvertFile (lit "source_repo/sub/.md.md") (lit "site/.md/index.md")
           (lit "source_repo"))
       (events (trace_of (step cfg_site w_dotted)))
  /\ lit "source_repo/sub/.md" <> lit "source_repo/sub/.md.md"
  /\ page_dest (lit "site") [] (lit ".md") = page_dest (lit "site") [] (lit ".md.md").
Proof.
  split; [vm_compute; reflexivity|].
  split; [vm_compute; auto|]. split; [vm_compute; auto 6|].
  split; [discriminate | vm_compute; reflexivity].
Qed.

(** C5, as the specification states it, fails.  With no subpages folder configured,
    and with a configured folder that does not exist, the run returns and
    writes two messages, the banner of the destination folder and the
    closing message: the step is skipped without a warning. *)
Lemma skip_without_warning :
  (subpages_folder (content_mapping cfg_unset) = None
   /\ outcome_of (run cfg_unset w_site) = Ok tt
   /\ outputs (events (trace_of (run cfg_unset w_site)))
      = [lit "Destination folder: site"; lit "Website generated successfully!"])
  /\ (subpages_folder (content_mapping cfg_site) = Some (lit "sub")
      /\ path_exists (lit "source_repo/sub") w_bare = false
      /\ outcome_of (run cfg_site w_bare) = Ok tt
      /\ outputs (events (trace_of (run cfg_site w_bare)))
         = [lit "Destination folder: site"; lit "Website generated successfully!"]).
Proof. repeat split. Qed.

(** C6, as the specification states it, fails.  In a tree whose listings are in the
    order of the names, the walk passes [source_repo/sub/z.md] before
    [source_repo/sub/a/b.md]: the files of the folder come before those of
    its sub-directory, and the sequence is not in lexical order. *)
Lemma walk_order_counterexample :
  outcome_of (step cfg_site w_site) = Ok tt
  /\ sources_of (events (trace_of (step cfg_site w_site)))
     = [lit "source_repo/sub/z.md"; lit "source_repo/sub/a/b.md"]
  /\ lexically_sorted (sources_of (events (trace_of (step cfg_site w_site))))
     = false.
Proof. repeat split. Qed.

(** The walk lists a directory when it enters it.  With the destination
    folder [out] inside the walked folder, the pages that the step writes
    for [x.md] and [a/b.md] are there when the walk enters [out]: the step
    converts them too, and the tree that it walks is not kept. *)
Lemma walk_finds_written_pages :
  sources_of (events (trace_of (step cfg_inside w_inside)))
  = [lit "source_repo/sub/x.md";
     lit "source_repo/sub/a/b.md";
     lit "source_repo/sub/out/x/index.md";
     lit "source_repo/sub/out/a/b/index.md"]
  /\ walk_sources (lit "source_repo/sub") (Model.to_entries inside)
     = [lit "source_repo/sub/x.md"; lit "source_repo/sub/a/b.md"]
  /\ scantree (lit "source_repo/sub") (final_world (step cfg_inside w_inside))
     <> scantree (lit "source_repo/sub") w_inside.
Proof.
  split; [vm_compute; reflexivity|]. split; [vm_compute; reflexivity|].
  vm_compute. discriminate.
Qed.

(** The page that the step writes for [x.md] is found in [out], and the
    [makedirs] of its own directory, [out/out/x/index], fails on the
    regular file [out/out/x]: the step raises on a file that was not there
    when it started. *)
Lemma failure_at_a_written_page :
  events (trace_of (step cfg_inside w_inside_blocked))
  = [MakeDirs (lit "source_repo/sub/out/x") true;
     ConvertFile (lit "source_repo/sub/x.md")
       (lit "source_repo/sub/out/x/index.md") (lit "source_repo");
     MakeDirs (lit "source_repo/sub/out/out/x/index") true]
  /\ outcome_of (step cfg_inside w_inside_blocked) = Raise OSError.
Proof. split; vm_compute; reflexivity. Qed.

Lemma walks_inside :
  walks cfg_inside (lit "sub") (Model.to_entries inside) w_inside.
Proof. repeat split. Qed.

Lemma kept_site :
  tree_kept (subpages_top (lit "sub")) (Model.to_entries pages)
    (step cfg_site w_site).
Proof.
  unfold tree_kept. apply Forall_forall. intros w' Hin. vm_compute in Hin.
  repeat (destruct Hin as [<-|Hin]; [vm_compute; reflexivity|]). destruct Hin.
Qed.

Lemma kept_site_again :
  tree_kept (subpages_top (lit "sub")) (Model.to_entries pages)
    (step cfg_site (final_world (run cfg_site w_site))).
Proof.
  unfold tree_kept. apply Forall_forall. intros w' Hin. vm_compute in Hin.
  repeat (destruct Hin as [<-|Hin]; [vm_compute; reflexivity|]). destruct Hin.
Qed.

Lemma levels_site : levels (Model.to_entries pages) <= fuel.
Proof. apply Nat.leb_le. reflexivity. Qed.

(** The theorems at the sample worlds. *)

Lemma subpage_destination_witness :
  walks cfg_site (lit "sub") (Model.to_entries pages) w_site
  /\ has_nondot (lit "b") = true
  /\ In (ConvertFile (lit "source_repo/sub/a/b.md") (lit "site/a/b/index.md")
           (lit "source_repo"))
       (events (trace_of (step cfg_site w_site)))
  /\ forall d b,
       In (ConvertFile (lit "source_repo/sub/out/x/index.md") d b)
         (events (trace_of (step cfg_inside w_inside))) ->
       d = lit "source_repo/sub/out/out/x/index/index.md".
Proof.
  split; [exact walks_site|]. split; [reflexivity|]. split.
  - exact (proj1 (proj2 (subpage_destination
                           (co := Model.model_collaborators cfg_site)
                           (fuel := fuel)
                           ModelFacts.model_laws cfg_site (lit "sub")
                           (Model.to_entries pages) w_site [lit "a"] (lit "b")
                           walks_site eq_refl eq_refl eq_refl))
             file_b levels_site kept_site eq_refl).
  - exact (proj1 (subpage_destination
                    (co := Model.model_collaborators cfg_inside)
                    (fuel := fuel)
                    ModelFacts.model_laws cfg_inside (lit "sub")
                    (Model.to_entries inside) w_inside
                    [lit "out"; lit "x"] (lit "index")
                    walks_inside eq_refl eq_refl eq_refl)).
Defined.



Lemma missing_subpages_skipped_silently_witness :
  subpages_folder (content_mapping cfg_unset) = None
  /\ (outputs (events (trace_of (run cfg_unset w_site))) = [banner cfg_unset]
      \/ outputs (events (trace_of (run cfg_unset w_site)))
         = [banner cfg_unset; success]).
Proof.
  split; [reflexivity|].
  edestruct (missing_subpages_skipped_silently
               (co := Model.model_collaborators cfg_unset) (fuel := fuel)
               (lit "config.yml") cfg_unset w_site)
    as (_ & rest & _ & _ & H);
    [reflexivity | reflexivity | reflexivity | reflexivity
    | left; reflexivity | exact H].
Defined.

Lemma traversal_in_walk_order_witness :
  walks cfg_site (lit "sub") (Model.to_entries pages) w_site
  /\ walks cfg_site (lit "sub") (Model.to_entries pages)
       (final_world (run cfg_site w_site))
  /\ sources_of (events (trace_of (step cfg_site w_site)))
     = walk_sources (lit "source_repo/sub") (Model.to_entries pages)
  /\ sources_of (events (trace_of (step cfg_site (final_world (run cfg_site w_site)))))
     = sources_of (events (trace_of (step cfg_site w_site))).
Proof.
  split; [exact walks_site|]. split; [exact walks_site_again|].
  pose proof (traversal_in_walk_order Model.model_os
                (Model.model_collaborators cfg_site)
                (Model.model_collaborators cfg_site) fuel fuel
                cfg_site (lit "sub") (Model.to_entries pages)
                w_site (final_world (run cfg_site w_site))
                ModelFacts.model_laws walks_site walks_site_again
                levels_site levels_site kept_site kept_site_again
                eq_refl eq_refl) as H.
  split; [exact (proj1 H) | exact (proj2 (proj2 H))].
Defined.


Lemma none_marker_means_unset_witness :
  subpages_folder (content_mapping cfg_none) = Some (lit "<none>")
  /\ path_exists (lit "source_repo/<none>") w_none = true
  /\ step cfg_none w_none = ([], w_none, Ok tt).
Proof.
  split; [reflexivity|]. split; [reflexivity|].
  exact (proj1 (proj2 (none_marker_means_unset
                         (co := Model.model_collaborators cfg_none)
                         (fuel := fuel)
                         cfg_none w_none eq_refl))).
Defined.


Lemma directory_made_before_conversion_witness :
  walks cfg_site (lit "sub") (Model.to_entries pages) w_site
  /\ exists pre w0 w1 post,
       trace_of (step cfg_site w_site)
       = pre
         ++ (w0, MakeDirs (lit "site/a/b") true)
         :: (w1, ConvertFile (lit "source_repo/sub/a/b.md")
                   (lit "site/a/b/index.md") (lit "source_repo"))
         :: post
       /\ makedirs (lit "site/a/b") true w0 = (w1, Ok tt)
       /\ path_isdir (lit "site/a/b") w1 = true.
Proof.
  split; [exact walks_site|].
  exact (proj2 (proj2 (proj2 (directory_made_before_conversion
                                (co := Model.model_collaborators cfg_site)
                                (fuel := fuel)
                                ModelFacts.model_laws cfg_site (lit "sub")
                                (Model.to_entries pages) w_site walks_site)))
           levels_site kept_site eq_refl [lit "a"] (lit "b.md") file_b eq_refl).
Defined.

(** * Further properties *)

(** ** Removal in the file system *)

Module RemovalFacts.

Import Str StrFacts PosixPath Model ModelFacts Removal.

Lemma find_filter (n c : str) (es : list (str * node)) :
  find n (filter (fun e : str * node => negb (eqb (fst e) c)) es)
  = if eqb n c then None else find n es.
Proof.
  induction es as [|[m x] es IH]; [now destruct (eqb n c)|].
  cbn [filter fst]. destruct (eqb m c) eqn:Emc; cbn [negb].
  - rewrite IH. cbn [find]. destruct (eqb m n) eqn:Emn; [|reflexivity].
    apply eqb_eq in Emc, Emn. subst. now rewrite eqb_refl.
  - cbn [find]. destruct (eqb m n) eqn:Emn; [|exact IH].
    apply eqb_eq in Emn. subst. now rewrite Emc.
Qed.

Lemma find_remove (n c d : str) (es : list (str * node)) (path : list str) :
  find n (remove es (c :: d :: path))
  = match find n es with
    | Some (NDir sub) =>
        if eqb n c then Some (NDir (remove sub (d :: path))) else Some (NDir sub)
    | o => o
    end.
Proof.
  cbn [remove]. induction es as [|[m x] es IH]; [reflexivity|].
  cbn [map find]. destruct (eqb m c) eqn:Emc.
  - apply eqb_eq in Emc. subst m. destruct x as [|sub]; cbn [find].
    + destruct (eqb c n) eqn:Ecn; [reflexivity | exact IH].
    + destruct (eqb c n) eqn:Ecn; [|exact IH].
      apply eqb_eq in Ecn. subst n. now rewrite eqb_refl.
  - cbn [find]. destruct (eqb m n) eqn:Emn; [|exact IH].
    apply eqb_eq in Emn. subst n. rewrite Emc. now destruct x.
Qed.

(** What is left after a removal was there before. *)
Lemma lookup_remove_some (path : list str) :
  forall es q,
    is_some (lookup (remove es path) q) = true ->
    is_some (lookup es q) = true.
Proof.
  induction path as [|c path IH]; intros es q H; [exact H|].
  destruct q as [|d q]; [reflexivity|].
  destruct path as [|c' path].
  - cbn [remove lookup] in *. rewrite find_filter in H.
    destruct (eqb d c); [discriminate | exact H].
  - cbn [lookup] in *. rewrite find_remove in H.
    destruct (find d es) as [[|sub]|]; try exact H.
    destruct (eqb d c); [now apply IH | exact H].
Qed.

Lemma lookup_remove_dir (path : list str) :
  forall es q,
    is_dir (lookup (remove es path) q) = true ->
    is_dir (lookup es q) = true.
Proof.
  induction path as [|c path IH]; intros es q H; [exact H|].
  destruct q as [|d q]; [reflexivity|].
  destruct path as [|c' path].
  - cbn [remove lookup] in *. rewrite find_filter in H.
    destruct (eqb d c); [discriminate | exact H].
  - cbn [lookup] in *. rewrite find_remove in H.
    destruct (find d es) as [[|sub]|]; try exact H.
    destruct (eqb d c); [now apply IH | exact H].
Qed.

(** What was removed is not there. *)
Lemma lookup_removed (path : list str) :
  forall es, path <> [] -> lookup (remove es path) path = None.
Proof.
  induction path as [|c path IH]; intros es Hne; [congruence|].
  destruct path as [|c' path].
  - cbn [remove lookup]. rewrite find_filter. now rewrite eqb_refl.
  - cbn [lookup]. rewrite find_remove.
    destruct (find c es) as [[|sub]|]; try reflexivity.
    rewrite eqb_refl. apply IH. discriminate.
Qed.

Lemma stat_after_remove (w : world) (cur : list str) (p : str) :
  is_some (stat {| cwd := cwd w; root := remove (root w) cur |} p) = true ->
  exists c,
    resolve w p = Some c
    /\ is_some (lookup (remove (root w) cur) c) = true.
Proof.
  unfold stat. destruct p as [|x p]; [discriminate|].
  rewrite !resolve_nonempty by discriminate. unfold start_of. cbn [cwd root].
  destruct (nav (remove (root w) cur) _ _) as [c|] eqn:En; [|discriminate].
  intros H. exists c. split; [|exact H].
  exact (nav_mono _ (root w) _ (lookup_remove_dir cur (root w)) _ _ En).
Qed.

Lemma rmtree_cases (q : str) (w : world) :
  (exists cur,
      cur <> []
      /\ rmtree q w
         = ({| cwd := cwd w; root := remove (root w) cur |}, Ok tt)
      /\ resolve w q = Some cur)
  \/ rmtree q w = (w, Raise OSError).
Proof.
  unfold rmtree, model_remover.
  destruct (resolve w q) as [cur|]; [|now right].
  destruct cur as [|c cur]; [now right|].
  destruct (is_dir (lookup (root w) (c :: cur))); [|now right].
  left. exists (c :: cur). repeat split. discriminate.
Qed.

Lemma model_rmtree_gone (p : str) (w w' : world) :
  rmtree p w = (w', Ok tt) -> path_exists p w' = false.
Proof.
  destruct (rmtree_cases p w) as [(cur & Hne & -> & Hr) | ->]; [|discriminate].
  intros H. injection H as <-.
  unfold path_exists, model_os.
  destruct (is_some (stat {| cwd := cwd w; root := remove (root w) cur |} p)) eqn:S;
    [|reflexivity].
  apply stat_after_remove in S as (c' & Hc & Hl).
  assert (c' = cur) as -> by congruence.
  rewrite lookup_removed in Hl by assumption. discriminate.
Qed.

Lemma model_rmtree_no_new (p q : str) (w w' : world) (r : result unit) :
  path_exists p w = false -> rmtree q w = (w', r) -> path_exists p w' = false.
Proof.
  intros Hp.
  destruct (rmtree_cases q w) as [(cur & Hne & -> & Hr) | ->];
    [|intros H; injection H as <- _; exact Hp].
  intros H. injection H as <- _.
  unfold path_exists, model_os in *.
  destruct (is_some (stat {| cwd := cwd w; root := remove (root w) cur |} p)) eqn:S;
    [|reflexivity].
  apply stat_after_remove in S as (c' & Hc & Hl).
  apply lookup_remove_some in Hl.
  unfold stat in Hp. rewrite Hc, Hl in Hp. discriminate.
Qed.

Lemma model_remover_laws : RemoverLaws model_os model_remover.
Proof.
  constructor; [exact model_rmtree_gone | exact model_rmtree_no_new].
Qed.

End RemovalFacts.

(** ** [clean] *)

Section CleanProperties.

Context {W : Type} {os : OS W} {rm : Remover W}.
Hypothesis laws : RemoverLaws os rm.

Lemma clean_one_gone (path message : str) (w w' : W) (t : list clean_call) :
  clean_one path message w = (t, w', Ok tt) -> path_exists path w' = false.
Proof.
  unfold clean_one. destruct (path_exists path w) eqn:E.
  - destruct (rmtree path w) as [w1 [[]|e]] eqn:R; [|discriminate].
    intros H. injection H as _ <-. exact (rmtree_gone laws _ _ _ R).
  - intros H. injection H as _ <-. exact E.
Qed.

Lemma clean_one_no_new (p path message : str) (w w' : W)
    (t : list clean_call) (r : result unit) :
  path_exists p w = false ->
  clean_one path message w = (t, w', r) -> path_exists p w' = false.
Proof.
  intros Hp. unfold clean_one. destruct (path_exists path w).
  - destruct (rmtree path w) as [w1 [[]|e]] eqn:R;
      intros H; injection H as _ <- _; exact (rmtree_no_new laws _ _ _ _ _ Hp R).
  - intros H. injection H as _ <- _. exact Hp.
Qed.

Lemma clean_gone_both (w w' : W) (t : list clean_call) :
  clean w = (t, w', Ok tt) ->
  path_exists (lit "source_repo") w' = false
  /\ path_exists (lit "site_contents") w' = false.
Proof.
  unfold clean.
  destruct (clean_one (lit "source_repo") _ w) as [[t1 w1] [[]|e]] eqn:E1;
    [|discriminate].
  destruct (clean_one (lit "site_contents") _ w1) as [[t2 w2] r] eqn:E2.
  intros H. injection H as <- <- ->.
  split.
  - apply (clean_one_no_new _ _ _ _ _ _ _ (clean_one_gone _ _ _ _ _ E1) E2).
  - exact (clean_one_gone _ _ _ _ _ E2).
Qed.


(** X2.  [clean()] is idempotent: after a [clean()] that returned, a
    second one removes nothing, writes nothing, leaves the world as it is
    and returns. *)
Theorem clean_twice_is_silent (w w' : W) (t : list clean_call) :
  clean w = (t, w', Ok tt) -> clean w' = ([], w', Ok tt).
Proof.
  intros H. destruct (clean_gone_both w w' t H) as [H1 H2].
  unfold clean, clean_one. now rewrite H1, H2.
Qed.

End CleanProperties.

(** ** [setup] and [themes] *)

Module SetupFacts.

Import Str StrFacts Setup.

Lemma py_index_last {A} (l : list A) (x : A) : py_index (l ++ [x]) (-1) = Ok x.
Proof.
  unfold py_index. rewrite length_app. cbn [length].
  replace (-1 <? 0)%Z with true by reflexivity.
  replace (-1 + Z.of_nat (length l + 1))%Z with (Z.of_nat (length l)) by lia.
  destruct (Z.ltb_spec (Z.of_nat (length l)) 0); [lia|].
  destruct (Z.leb_spec (Z.of_nat (length l + 1)) (Z.of_nat (length l))); [lia|].
  cbn [orb]. rewrite Nat2Z.id, nth_error_app2, Nat.sub_diag by lia. reflexivity.
Qed.

Lemma py_index_before_last {A} (l : list A) (y x : A) :
  py_index (l ++ [y; x]) (-2) = Ok y.
Proof.
  unfold py_index. rewrite length_app. cbn [length].
  replace (-2 <? 0)%Z with true by reflexivity.
  replace (-2 + Z.of_nat (length l + 2))%Z with (Z.of_nat (length l)) by lia.
  destruct (Z.ltb_spec (Z.of_nat (length l)) 0); [lia|].
  destruct (Z.leb_spec (Z.of_nat (length l + 2)) (Z.of_nat (length l))); [lia|].
  cbn [orb]. rewrite Nat2Z.id, nth_error_app2, Nat.sub_diag by lia. reflexivity.
Qed.

Lemma py_index_last_of_two {A} (l : list A) (y x : A) :
  py_index (l ++ [y; x]) (-1) = Ok x.
Proof.
  change (l ++ [y; x]) with (l ++ [y] ++ [x]).
  rewrite app_assoc. apply py_index_last.
Qed.

Lemma py_index_in_range {A} (l : list A) (j : Z) :
  (0 <= j < Z.of_nat (length l))%Z ->
  exists x, py_index l j = Ok x /\ nth_error l (Z.to_nat j) = Some x.
Proof.
  intros H. unfold py_index. cbv zeta.
  assert ((j <? 0)%Z = false) as E0 by (apply Z.ltb_ge; lia).
  rewrite E0. cbv iota. rewrite E0.
  replace (Z.of_nat (length l) <=? j)%Z with false
    by (symmetry; apply Z.leb_gt; lia).
  cbn [orb].
  destruct (nth_error l (Z.to_nat j)) as [x|] eqn:E; [exists x; split; reflexivity|].
  apply nth_error_None in E. lia.
Qed.

Lemma py_index_raises {A} (l : list A) (i : Z) (e : exn) :
  py_index l i = Raise e -> e = IndexError.
Proof.
  unfold py_index. destruct (_ || _); [congruence|].
  destruct (nth_error _ _); congruence.
Qed.

(** [s.split(c)] as its parts but the last, and the last. *)
Lemma split_snoc (s : str) (c : ascii) :
  split s c = removelast (split s c) ++ [last (split s c) []].
Proof. apply app_removelast_last, split_nonnil. Qed.

(** Text without the separator, put after [p], goes to the last part. *)
Lemma split_app_free (p q : str) (c : ascii) :
  ~ In c q ->
  split (p ++ q) c = removelast (split p c) ++ [last (split p c) [] ++ q].
Proof.
  intros Hq. induction p as [|x p IH].
  - cbn [app]. rewrite split_notin by assumption. reflexivity.
  - cbn [app split]. destruct (Ascii.eqb x c).
    + rewrite IH. pose proof (split_nonnil p c) as Hne.
      destruct (split p c) as [|h t] eqn:E; [congruence|]. reflexivity.
    + rewrite IH. pose proof (split_nonnil p c) as Hne.
      destruct (split p c) as [|h t] eqn:E; [congruence|].
      destruct t as [|h' t]; reflexivity.
Qed.

Lemma split_last_app (p q : str) (c : ascii) :
  ~ In c q -> last (split (p ++ q) c) [] = last (split p c) [] ++ q.
Proof. intros Hq. rewrite split_app_free by assumption. apply last_last. Qed.

Lemma split_last_sep (p : str) (c : ascii) : last (split (p ++ [c]) c) [] = [].
Proof. rewrite split_app_sep. cbn [split]. apply last_last. Qed.

Lemma slice_suffix (repo : str) : slice_until (repo ++ lit ".git") (-4) = repo.
Proof.
  unfold slice_until. rewrite length_app.
  change (length (lit ".git")) with 4.
  replace (-4 <? 0)%Z with true by reflexivity.
  replace (Z.to_nat (Z.max 0 (Z.of_nat (length repo + 4) + -4))) with (length repo)
    by lia.
  apply firstn_length_app.
Qed.

Lemma py_index_defined {A} (l : list A) (i : Z) :
  (- Z.of_nat (length l) <= i < Z.of_nat (length l))%Z ->
  exists x, py_index l i = Ok x.
Proof.
  intros H. unfold py_index. cbv zeta.
  set (j := if (i <? 0)%Z then (i + Z.of_nat (length l))%Z else i).
  assert (0 <= j < Z.of_nat (length l))%Z as Hj
    by (unfold j; destruct (Z.ltb_spec i 0); lia).
  replace (j <? 0)%Z with false by (symmetry; apply Z.ltb_ge; lia).
  replace (Z.of_nat (length l) <=? j)%Z with false
    by (symmetry; apply Z.leb_gt; lia).
  cbn [orb].
  destruct (nth_error l (Z.to_nat j)) as [x|] eqn:E; [now exists x|].
  apply nth_error_None in E. lia.
Qed.

Lemma not_in_suffix (repo : str) :
  ~ In "/"%char repo -> ~ In "/"%char (repo ++ lit ".git").
Proof.
  intros H Hin. apply in_app_or in Hin as [Hin|Hin]; [tauto|].
  cbn in Hin. intuition discriminate.
Qed.

(** The user name is the text between the last [/] or [:] before the
    repository name, and that name. *)
Lemma default_pages_url_parts (pre user repo : str) :
  pre = [] \/ (exists p c, pre = p ++ [c] /\ (c = "/"%char \/ c = ":"%char)) ->
  ~ In "/"%char user -> ~ In ":"%char user -> ~ In "/"%char repo ->
  default_pages_url (pre ++ user ++ "/"%char :: repo ++ lit ".git")
  = Ok (lit "https://" ++ user ++ lit ".github.io/" ++ repo ++ lit "/").
Proof.
  intros Hpre Hu1 Hu2 Hr. unfold default_pages_url.
  assert (endswith (pre ++ user ++ "/"%char :: repo ++ lit ".git") (lit ".git")
          = true) as ->.
  { apply endswith_iff. exists (pre ++ user ++ "/"%char :: repo).
    now rewrite <- !app_assoc. }
  rewrite (app_assoc pre user), split_app_sep.
  rewrite (split_notin (repo ++ lit ".git")) by now apply not_in_suffix.
  rewrite (split_snoc (pre ++ user)), <- app_assoc. cbn [app].
  rewrite py_index_last_of_two, py_index_before_last, slice_suffix.
  rewrite (split_last_app pre user) by assumption.
  rewrite (split_snoc (_ ++ user) ":"%char), py_index_last.
  rewrite split_last_app by assumption.
  assert (last (split (last (split pre "/"%char) []) ":"%char) [] = []) as ->.
  { destruct Hpre as [-> | (p & c & -> & [-> | ->])]; [reflexivity | |].
    - now rewrite split_last_sep.
    - rewrite split_last_app by (cbn; intuition discriminate).
      apply split_last_sep. }
  reflexivity.
Qed.

(** [setup] raises only in the default of the pages URL. *)
Lemma default_pages_url_raises (url : str) :
  (forall e, default_pages_url url = Raise e -> e = IndexError)
  /\ ((exists e, default_pages_url url = Raise e)
      <-> endswith url (lit ".git") = true /\ ~ In "/"%char url).
Proof.
  unfold default_pages_url.
  destruct (endswith url (lit ".git")) eqn:E.
  2:{ split; [discriminate|]. split; [intros [e H]; discriminate|].
      intros [H _]. discriminate. }
  destruct (in_dec ascii_dec "/"%char url) as [Hin|Hin].
  - apply in_split in Hin as (l1 & l2 & ->).
    rewrite split_app_sep.
    rewrite (split_snoc l2), app_assoc, py_index_last.
    destruct (py_index_defined
                ((split l1 "/"%char ++ removelast (split l2 "/"%char))
                 ++ [last (split l2 "/"%char) []]) (-2)) as [owner ->].
    { pose proof (split_nonnil l1 "/"%char) as Hne.
      rewrite !length_app. cbn [length].
      destruct (split l1 "/"%char); [congruence|]. cbn [length]. lia. }
    rewrite (split_snoc owner), py_index_last.
    split; [discriminate|]. split; [intros [e H]; discriminate|].
    intros [_ H]. exfalso. apply H, in_or_app. right. now left.
  - rewrite split_notin by assumption.
    change (py_index [url] (-1)) with (Ok url).
    change (py_index [url] (-2)) with (@Raise str IndexError).
    split; [intros e H; now injection H as <-|].
    split; [tauto | intros _; now exists IndexError].
Qed.

Lemma theme_in_range (choice : option Z) :
  in_range choice ->
  exists theme,
    py_index available_themes
      (match choice with Some n => n | None => 8%Z end - 1) = Ok theme
    /\ nth_error available_themes
         (Z.to_nat (match choice with Some n => n | None => 8%Z end - 1))
       = Some theme.
Proof.
  intros H. apply py_index_in_range.
  destruct choice as [n|]; cbn in *; lia.
Qed.

End SetupFacts.

Section SetupProperties.

Import Str StrFacts Setup SetupFacts.

Context {W : Type} {cf : ConfigFile W}.

(** X3.  For a repository URL of the form [<pre><user>/<repo>.git],
    where [<pre>] is empty or ends in [/] or [:], the user name holds no
    [/] and no [:] and the repository name no [/] (as in
    [git@github.com:user/repo.git] and [https://github.com/user/repo.git]),
    and an empty line at the prompt of the pages URL, the answers give a
    configuration whose [github_pages_url] is
    [https://<user>.github.io/<repo>/]; [setup()] passes it to the write
    of [config.yml] and ends as the write ends: it returns when the write
    returns and raises what the write raises. *)
Theorem pages_url_from_repository (i : Inputs) (pre user repo : str) (w : W) :
  in_range (in_theme i) ->
  prompt (in_github_repository_url i)
    (lit "git@github.com:your-username/your-repo.git")
  = pre ++ user ++ "/"%char :: repo ++ lit ".git" ->
  pre = [] \/ (exists p c, pre = p ++ [c] /\ (c = "/"%char \/ c = ":"%char)) ->
  ~ In "/"%char user -> ~ In ":"%char user -> ~ In "/"%char repo ->
  in_github_pages_url i = [] ->
  exists data,
    config_data i = Ok data
    /\ field (lit "site_metadata") (lit "github_pages_url") data
       = Some (YStr (lit "https://" ++ user ++ lit ".github.io/"
                     ++ repo ++ lit "/"))
    /\ setup i w
       = match write_config data w with
         | (w', Ok _) => (w', Ok data)
         | (w', Raise e) => (w', Raise e)
         end.
Proof.
  intros Hth Hurl Hpre Hu1 Hu2 Hr Hp. unfold setup, config_data. cbv zeta.
  destruct (theme_in_range _ Hth) as (theme & -> & _).
  rewrite Hurl, (default_pages_url_parts pre user repo Hpre Hu1 Hu2 Hr), Hp.
  eexists. split; [reflexivity|]. split; reflexivity.
Qed.

(** X4.  With an accepted theme number, [setup()] ends in one of two
    ways, whatever is typed at the other prompts.  When the repository
    URL that was typed ends in [.git] and holds no [/], it raises
    [IndexError] ([repo_url.split('/')[-2]] is out of range) before
    [config.yml] is opened, and leaves the world as it is.  Otherwise the
    answers give a configuration, and [setup()] ends as the write of
    [config.yml] ends: it raises only what [open] or [yaml.dump] raise. *)
Theorem setup_fails_without_slash (i : Inputs) (w : W) :
  in_range (in_theme i) ->
  (endswith (in_github_repository_url i) (lit ".git") = true ->
   ~ In "/"%char (in_github_repository_url i) ->
   setup i w = (w, Raise IndexError))
  /\ (endswith (in_github_repository_url i) (lit ".git") = false
      \/ In "/"%char (in_github_repository_url i) ->
      exists data,
        config_data i = Ok data
        /\ setup i w
           = match write_config data w with
             | (w', Ok _) => (w', Ok data)
             | (w', Raise e) => (w', Raise e)
             end).
Proof.
  intros Hth. unfold setup, config_data. cbv zeta.
  destruct (theme_in_range _ Hth) as (theme & -> & _).
  set (url := prompt (in_github_repository_url i) _).
  destruct (default_pages_url_raises url) as [H1 H2].
  assert ((endswith url (lit ".git") = true /\ ~ In "/"%char url)
          <-> (endswith (in_github_repository_url i) (lit ".git") = true
               /\ ~ In "/"%char (in_github_repository_url i))) as Hsame.
  { unfold url, prompt. destruct (in_github_repository_url i) as [|c s].
    - split; [|intros [H _]; discriminate].
      intros [_ H]. exfalso. apply H. cbn. tauto.
    - tauto. }
  destruct (default_pages_url url) as [d|e0].
  - split.
    + intros He Hs.
      destruct (proj2 H2 (proj2 Hsame (conj He Hs))) as [e H]. discriminate.
    + intros _. eexists. split; reflexivity.
  - split.
    + intros _ _. now rewrite (H1 e0 eq_refl).
    + intros Hor. exfalso.
      destruct (proj1 Hsame (proj1 H2 (ex_intro _ e0 eq_refl))) as [He Hs].
      destruct Hor as [Hor|Hor]; [congruence | contradiction].
Qed.

(** X5.  The theme that [setup()] stores for the accepted number [n] is
    the [n]-th name of its list, and it is one of the themes that
    [themes()] prints (as the line [- <theme>]); an empty line at the
    prompt stores [minima]. *)
Theorem chosen_theme_is_listed (i : Inputs) (data : yaml) :
  in_range (in_theme i) -> config_data i = Ok data ->
  exists theme,
    field (lit "site_metadata") (lit "theme") data = Some (YStr theme)
    /\ nth_error available_themes
         (Z.to_nat (match in_theme i with Some n => n | None => 8%Z end - 1))
       = Some theme
    /\ In (lit "- " ++ theme) themes
    /\ (in_theme i = None -> theme = lit "minima").
Proof.
  intros Hth. unfold config_data. cbv zeta.
  destruct (theme_in_range _ Hth) as (theme & -> & Hn).
  destruct (default_pages_url _) as [d|e]; [|discriminate].
  intros H. injection H as <-. exists theme.
  split; [reflexivity|]. split; [exact Hn|]. split.
  - change themes
      with (lit "Available themes:" :: map (app (lit "- ")) available_themes).
    right. apply in_map. eapply nth_error_In. exact Hn.
  - intros E. rewrite E in Hn. cbn in Hn. now injection Hn as <-.
Qed.

End SetupProperties.

(** ** The run of [generate] *)

Section RunProperties.

Import Str StrFacts PathFacts PageFacts ShapeFacts TraceFacts GenerateFacts.

Context {W : Type} {os : OS W} {co : Collaborators W} {fuel : nat}.

Lemma page_calls_no_echo (l : list call) (m : str) :
  Forall (fun c => is_page_call c = true) l -> ~ In (Echo m) l.
Proof.
  intros H Hin. rewrite Forall_forall in H. apply H in Hin. discriminate.
Qed.

Lemma page_calls_no_copy (l : list call) (s t : str) :
  Forall (fun c => is_page_call c = true) l -> ~ In (CopyAssets s t) l.
Proof.
  intros H Hin. rewrite Forall_forall in H. apply H in Hin. discriminate.
Qed.

(** X6.  A run of [generate] writes a closing message exactly when it
    returns without an exception; the message is then the last call of
    the run, it is [Website generated successfully!], and no other call
    of the run is a closing message. *)
Theorem success_message_iff_returned (config : str) (w : W) :
  ((exists m, In (Echo m) (events (trace_of (Cli.generate fuel config w))))
   <-> outcome_of (Cli.generate fuel config w) = Ok tt)
  /\ (outcome_of (Cli.generate fuel config w) = Ok tt ->
      exists pre,
        events (trace_of (Cli.generate fuel config w)) = pre ++ [Echo success]
        /\ forall m, ~ In (Echo m) pre).
Proof.
  rewrite generate_steps.
  destruct (load_config config w) as [w1 [cfg|e]].
  2:{ split; [split; [intros [m [H|[]]]|]; discriminate | discriminate]. }
  destruct (fetch _ w1) as [w2 [[]|e]].
  2:{ split; [split; [intros [m H]; cbn in H; intuition discriminate|];
              discriminate | discriminate]. }
  destruct (create_structure _ cfg w2) as [w3 [[]|e]].
  2:{ split; [split; [intros [m H]; cbn in H; intuition discriminate|];
              discriminate | discriminate]. }
  cbv zeta.
  destruct (convert_file cfg _ _ _ w3) as [w4 [[]|e]].
  2:{ split; [split; [intros [m H]; cbn in H; intuition discriminate|];
              discriminate | discriminate]. }
  pose proof (convert_subpages_calls (fuel := fuel) cfg w4) as Hsubs.
  destruct (Cli.convert_subpages fuel cfg w4) as [[subs w5] r].
  unfold trace_of in Hsubs. cbn [fst] in Hsubs.
  assert (forall m tail,
             (forall m', ~ In (Echo m') tail) ->
             ~ In (Echo m)
                 (opening config cfg ++ events subs ++ tail)) as Hno.
  { intros m tail Ht Hin. apply in_app_or in Hin as [Hin|Hin].
    - cbn in Hin. intuition discriminate.
    - apply in_app_or in Hin as [Hin|Hin].
      + exact (page_calls_no_echo _ _ Hsubs Hin).
      + exact (Ht _ Hin). }
  destruct r as [[]|e].
  - destruct (copy_assets cfg _ _ w5) as [w6 [[]|e]];
      unfold trace_of, outcome_of, events; cbn [fst snd]; rewrite !map_app.
    + split.
      * split; [reflexivity|]. intros _. exists success.
        apply in_or_app. right. apply in_or_app. right. cbn. tauto.
      * intros _.
        exists (opening config cfg ++ events subs
                ++ [CopyAssets Cli.source_repo (media_root cfg)]).
        split; [unfold opening, events; cbn [map snd app];
                now rewrite <- !app_assoc|].
        intros m. apply Hno. intros m' H. cbn in H. intuition discriminate.
    + split; [|discriminate]. split; [|discriminate].
      intros [m H]. exfalso. revert H. apply Hno.
      intros m' H. cbn in H. intuition discriminate.
  - unfold trace_of, outcome_of, events; cbn [fst snd]; rewrite !map_app.
    split; [|discriminate]. split; [|discriminate].
    intros [m H]. exfalso. revert H.
    rewrite <- (app_nil_r (map snd subs)). apply Hno. intros m' [].
Qed.

(** X7.  [copy_assets] is called only in a run where the configuration
    was loaded, the source fetched, the layout created, the home page
    converted and the subpage step returned without an exception; it is
    called in the world that the subpage step left. *)
Theorem assets_copied_after_conversions (config : str) (w : W) (s t : str) :
  In (CopyAssets s t) (events (trace_of (Cli.generate fuel config w))) ->
  exists w1 cfg w2 w3 w4 subs w5,
    load_config config w = (w1, Ok cfg)
    /\ fetch (source_repository cfg) w1 = (w2, Ok tt)
    /\ create_structure (destination_folder (content_mapping cfg)) cfg w2
       = (w3, Ok tt)
    /\ convert_file cfg (home_source cfg) (home_dest cfg) Cli.source_repo w3
       = (w4, Ok tt)
    /\ Cli.convert_subpages fuel cfg w4 = (subs, w5, Ok tt)
    /\ In (w5, CopyAssets s t) (trace_of (Cli.generate fuel config w)).
Proof.
  rewrite generate_steps.
  destruct (load_config config w) as [w1 [cfg|e]] eqn:E1.
  2:{ intros H. cbn in H. intuition discriminate. }
  destruct (fetch _ w1) as [w2 [[]|e]] eqn:E2.
  2:{ intros H. cbn in H. intuition discriminate. }
  destruct (create_structure _ cfg w2) as [w3 [[]|e]] eqn:E3.
  2:{ intros H. cbn in H. intuition discriminate. }
  cbv zeta.
  destruct (convert_file cfg _ _ _ w3) as [w4 [[]|e]] eqn:E4.
  2:{ intros H. cbn in H. intuition discriminate. }
  pose proof (convert_subpages_calls (fuel := fuel) cfg w4) as Hsubs.
  destruct (Cli.convert_subpages fuel cfg w4) as [[subs w5] r] eqn:E5.
  unfold trace_of in Hsubs. cbn [fst] in Hsubs.
  assert (forall tail,
             In (CopyAssets s t)
                (opening config cfg ++ events subs ++ tail) ->
             In (CopyAssets s t) tail) as Htail.
  { intros tail Hin. apply in_app_or in Hin as [Hin|Hin].
    - cbn in Hin. intuition discriminate.
    - apply in_app_or in Hin as [Hin|Hin]; [|exact Hin].
      now apply page_calls_no_copy in Hin. }
  destruct r as [[]|e].
  - destruct (copy_assets cfg _ _ w5) as [w6 [[]|e]];
      intros Hin; exists w1, cfg, w2, w3, w4, subs, w5;
      (split; [reflexivity|]); (split; [exact E2|]); (split; [exact E3|]);
      (split; [exact E4|]); (split; [exact E5|]);
      unfold trace_of, events in *; cbn [fst] in *; rewrite !map_app in Hin;
      apply Htail in Hin; cbn in Hin.
    + destruct Hin as [Hin|[Hin|[]]]; [|discriminate].
      injection Hin as <- <-.
      apply in_or_app. right. apply in_or_app. right. now left.
    + destruct Hin as [Hin|[]]. injection Hin as <- <-.
      apply in_or_app. right. apply in_or_app. right. now left.
  - unfold trace_of, events; cbn [fst]; rewrite !map_app.
    intros Hin. rewrite <- (app_nil_r (map snd subs)) in Hin.
    apply Htail in Hin. destruct Hin.
Qed.

End RunProperties.

(** ** The subpage step *)

Section StepProperties.

Import Str StrFacts PosixPath PathFacts RunFacts WalkFacts PageFacts.
Import ShapeFacts TraceFacts GenerateFacts.

Context {W : Type} {os : OS W} {co : Collaborators W} {fuel : nat}.

(** Where the loop over the pages stops, when it raises. *)
Lemma pages_trace_stops (cfg : Config) (top dest : str)
    (l : list (list str * str)) (t : list (W * call)) (e : exn) :
  pages_trace cfg top dest l t (Raise e) ->
  exists done x rest pre w0 w1,
    l = done ++ x :: rest
    /\ events pre = flat_map (page_calls top dest) done
    /\ ((t = pre ++ [(w0, MakeDirs (page_dir dest (fst x) (snd x)) true)]
         /\ makedirs (page_dir dest (fst x) (snd x)) true w0 = (w1, Raise e))
        \/ (exists w2,
              t = pre ++ [(w0, MakeDirs (page_dir dest (fst x) (snd x)) true);
                          (w1, ConvertFile (walked_path top (fst x) (snd x))
                                 (page_dest dest (fst x) (snd x))
                                 Cli.source_repo)]
              /\ makedirs (page_dir dest (fst x) (snd x)) true w0 = (w1, Ok tt)
              /\ convert_file cfg (walked_path top (fst x) (snd x))
                   (page_dest dest (fst x) (snd x)) Cli.source_repo w1
                 = (w2, Raise e))).
Proof.
  intros H. remember (Raise e) as r eqn:Er. revert Er.
  induction H as [|x l w w1 e' H1|x l w w1 w2 e' H1 H2|x l w w1 w2 t r H1 H2 _ IH];
    intros Er.
  - discriminate.
  - injection Er as ->. exists [], x, l, [], w, w1.
    split; [reflexivity|]. split; [reflexivity|]. left. now split.
  - injection Er as ->. exists [], x, l, [], w, w1.
    split; [reflexivity|]. split; [reflexivity|]. right. exists w2.
    split; [reflexivity|]. now split.
  - destruct (IH Er) as (done & y & rest & pre & v0 & v1 & -> & Hpre & Hend).
    exists (x :: done), y, rest,
      ((w, MakeDirs (page_dir dest (fst x) (snd x)) true)
       :: (w1, ConvertFile (walked_path top (fst x) (snd x))
                 (page_dest dest (fst x) (snd x)) Cli.source_repo) :: pre),
      v0, v1.
    split; [reflexivity|]. split.
    + unfold events in *. cbn [map snd flat_map page_calls app].
      now rewrite Hpre.
    + destruct Hend as [[-> Hm] | (v2 & -> & Hm & Hc)].
      * left. now split.
      * right. exists v2. split; [reflexivity|]. now split.
Qed.

(** A folder whose tree holds no markdown file: the step makes no call. *)
Lemma convert_subpages_listed (cfg : Config) (folder : str)
    (es : list entry) (w : W) :
  Cli.subpages_configured cfg = Some folder ->
  path_exists (subpages_top folder) w = true ->
  scantree (subpages_top folder) w = Some es ->
  filter is_md (tree_files es) = [] ->
  Cli.convert_subpages fuel cfg w = ([], w, Ok tt).
Proof.
  intros Hc He Hs Hnone.
  rewrite (StepFacts.convert_subpages_walk cfg folder w Hc He).
  apply (LoopFacts.walk_quiet cfg _ _ es w Hs fuel [] es); [reflexivity|].
  intros x Hx. destruct (is_md x) eqn:E; [|reflexivity].
  assert (In x (filter is_md (tree_files es))) as Hin
    by (apply filter_In; now split).
  rewrite Hnone in Hin. destruct Hin.
Qed.

(** X8.  The subpage step does nothing at all (no call, the world as
    it is, no exception) unless the configured folder is not empty and
    not [<none>], [source_repo/<folder>] exists and can be listed, and
    its tree holds a file whose name ends in [.md]. *)
Theorem subpage_step_needs_a_page (cfg : Config) (w : W) :
  Cli.convert_subpages fuel cfg w = ([], w, Ok tt)
  \/ exists folder es ds f,
       subpages_folder (content_mapping cfg) = Some folder
       /\ folder <> [] /\ folder <> lit "<none>"
       /\ path_exists (lit "source_repo/" ++ folder) w = true
       /\ scantree (lit "source_repo/" ++ folder) w = Some es
       /\ file_at es ds f /\ endswith f (lit ".md") = true.
Proof.
  destruct (Cli.subpages_configured cfg) as [folder|] eqn:Hc.
  2:{ left. now apply StepFacts.convert_subpages_unset. }
  destruct (path_exists (subpages_top folder) w) eqn:He.
  2:{ left. now apply (StepFacts.convert_subpages_absent cfg folder). }
  destruct (scantree (subpages_top folder) w) as [es|] eqn:Hs.
  2:{ left. now apply (StepFacts.convert_subpages_unreadable cfg folder). }
  destruct (filter is_md (tree_files es)) as [|[ds f] l] eqn:Hl.
  { left. now apply (convert_subpages_listed cfg folder es). }
  right. exists folder, es, ds, f.
  assert (In (ds, f) (filter is_md (tree_files es))) as Hin
    by (rewrite Hl; now left).
  apply filter_In in Hin as [Hin Hmd]. apply in_tree_files in Hin.
  unfold Cli.subpages_configured in Hc.
  destruct (subpages_folder (content_mapping cfg)) as [s|]; [|discriminate].
  destruct (nonempty s && negb (eqb s Cli.none_marker)) eqn:E; [|discriminate].
  injection Hc as ->. apply andb_true_iff in E as [E1 E2].
  split; [reflexivity|]. split; [intros ->; discriminate|].
  split; [apply negb_true_iff in E2; now apply eqb_neq in E2|].
  split; [exact He|]. split; [exact Hs|]. split; [exact Hin | exact Hmd].
Qed.

Hypothesis laws : OSLaws os.

(** X9.  When the subpage step raises, its log is the two calls of each
    of some markdown files below the folder, which all returned, followed
    by the call that raised the exception of the step: the [makedirs] of
    one more file, or that [makedirs], which returned, and the conversion
    of the file.  No call follows the one that raised.  When the calls of
    the step leave the tree as it is and the bound of the walk is not
    reached, the markdown files of the tree, in the order of the walk, are
    [done ++ x :: rest] with such a log for [done] and [x]: no call is
    made for the files of [rest]. *)
Theorem first_failure_ends_the_walk (cfg : Config) (folder : str)
    (es : list entry) (w : W) (e : exn) :
  walks cfg folder es w ->
  outcome_of (Cli.convert_subpages fuel cfg w) = Raise e ->
  let top := subpages_top folder in
  let dest := destination_folder (content_mapping cfg) in
  let stopped (done : list (list str * str)) (x : list str * str) :=
    exists pre w0 w1,
      events pre = flat_map (page_calls top dest) done
      /\ ((trace_of (Cli.convert_subpages fuel cfg w)
           = pre ++ [(w0, MakeDirs (page_dir dest (fst x) (snd x)) true)]
           /\ makedirs (page_dir dest (fst x) (snd x)) true w0 = (w1, Raise e))
          \/ (exists w2,
                trace_of (Cli.convert_subpages fuel cfg w)
                = pre ++ [(w0, MakeDirs (page_dir dest (fst x) (snd x)) true);
                          (w1, ConvertFile (walked_path top (fst x) (snd x))
                                 (page_dest dest (fst x) (snd x))
                                 Cli.source_repo)]
                /\ makedirs (page_dir dest (fst x) (snd x)) true w0 = (w1, Ok tt)
                /\ convert_file cfg (walked_path top (fst x) (snd x))
                     (page_dest dest (fst x) (snd x)) Cli.source_repo w1
                   = (w2, Raise e))) in
  (exists done x, forallb page_ok (done ++ [x]) = true /\ stopped done x)
  /\ (levels es <= fuel ->
      tree_kept top es (Cli.convert_subpages fuel cfg w) ->
      exists done x rest,
        filter is_md (tree_files es) = done ++ x :: rest /\ stopped done x).
Proof.
  intros Hw Hr top dest stopped. pose proof Hw as (Hc & _ & _ & _).
  split.
  - destruct (step_pages (fuel := fuel) laws cfg folder w Hc) as (l & Ht & Hl).
    rewrite Hr in Ht.
    destruct (pages_trace_stops _ _ _ _ _ _ Ht)
      as (done & x & rest & pre & w0 & w1 & El & Hpre & Hend).
    exists done, x. split.
    + rewrite El, forallb_app in Hl. cbn [forallb] in Hl.
      apply andb_true_iff in Hl as [H1 H2]. apply andb_true_iff in H2 as [H2 _].
      rewrite forallb_app, H1. cbn [forallb]. now rewrite H2.
    + exists pre, w0, w1. split; [exact Hpre | exact Hend].
  - intros Hlev Hk.
    pose proof (step_trace laws cfg folder es w Hw Hlev Hk) as Ht.
    rewrite Hr in Ht.
    destruct (pages_trace_stops _ _ _ _ _ _ Ht)
      as (done & x & rest & pre & w0 & w1 & El & Hpre & Hend).
    exists done, x, rest. split; [exact El|].
    exists pre, w0, w1. split; [exact Hpre | exact Hend].
Qed.

(** X10.  The subpage step stays in its folders.  Every directory that
    it makes is the destination folder followed by names of the tree,
    none of them [.] or [..], and it is made with [exist_ok=True]; every
    conversion reads a path of such names below [source_repo/<folder>],
    relative to [source_repo], and writes [index.md] in such a
    directory of the destination folder. *)
Theorem step_stays_in_its_folders (cfg : Config) (folder : str)
    (es : list entry) (w : W) :
  walks cfg folder es w ->
  let dest := destination_folder (content_mapping cfg) in
  (forall d ex,
      In (MakeDirs d ex) (events (trace_of (Cli.convert_subpages fuel cfg w))) ->
      ex = true
      /\ exists names,
           names <> [] /\ forallb name_ok names = true
           /\ d = with_sep dest ++ Str.join sep names)
  /\ (forall s d b,
        In (ConvertFile s d b) (events (trace_of (Cli.convert_subpages fuel cfg w))) ->
        b = lit "source_repo"
        /\ (exists names,
              names <> [] /\ forallb name_ok names = true
              /\ s = with_sep (lit "source_repo/" ++ folder)
                     ++ Str.join sep names)
        /\ exists names,
             names <> [] /\ forallb name_ok names = true
             /\ d = with_sep dest ++ Str.join sep names ++ lit "/index.md").
Proof.
  intros Hw dest. pose proof Hw as (Hc & _). split.
  - intros d ex Hin.
    destruct (step_directory laws cfg folder w d ex Hc Hin)
      as (ds & stem & Hds & Hfn & -> & ->).
    split; [reflexivity|].
    exists (ds ++ [if has_nondot stem then stem else stem ++ lit ".md"]).
    split; [destruct ds; discriminate|].
    split; [apply names_snoc; [assumption | now apply page_name_ok]|].
    now apply page_dir_eq.
  - intros s d b Hin.
    destruct (step_conversion laws cfg folder w s d b Hc Hin)
      as (ds & stem & Hds & Hfn & -> & -> & ->).
    split; [reflexivity|]. split.
    + exists (ds ++ [stem ++ lit ".md"]).
      split; [destruct ds; discriminate|].
      split; [now apply names_snoc|]. now apply walked_path_eq.
    + exists (ds ++ [if has_nondot stem then stem else stem ++ lit ".md"]).
      split; [destruct ds; discriminate|].
      split; [apply names_snoc; [assumption | now apply page_name_ok]|].
      now apply page_dest_eq.
Qed.

(** X11.  No conversion of the subpage step writes
    [<destination_folder>/index.md], the destination of the home page. *)
Theorem subpages_never_overwrite_home (cfg : Config) (folder : str)
    (es : list entry) (w : W) (s d b : str) :
  walks cfg folder es w ->
  In (ConvertFile s d b) (events (trace_of (Cli.convert_subpages fuel cfg w))) ->
  d <> destination_folder (content_mapping cfg) ++ lit "/index.md".
Proof.
  intros Hw Hin. pose proof Hw as (Hc & _).
  destruct (step_conversion laws cfg folder w s d b Hc Hin)
    as (ds & stem & Hds & Hfn & _ & -> & _).
  now apply DestFacts.page_dest_not_home.
Qed.

(** X12.  Two conversions of the subpage step with different sources
    and the same destination involve a file whose name is dots followed
    by [.md] (such as [.md]): apart from these names the destinations of
    the step are pairwise distinct, whatever the walk finds. *)
Theorem destinations_collide_only_on_dot_names (cfg : Config) (folder : str)
    (es : list entry) (w : W) (s s' d b b' : str) :
  walks cfg folder es w ->
  In (ConvertFile s d b) (events (trace_of (Cli.convert_subpages fuel cfg w))) ->
  In (ConvertFile s' d b') (events (trace_of (Cli.convert_subpages fuel cfg w))) ->
  s <> s' ->
  exists ds stem,
    forallb name_ok ds = true /\ name_ok (stem ++ lit ".md") = true
    /\ has_nondot stem = false
    /\ (s = walked_path (subpages_top folder) ds (stem ++ lit ".md")
        \/ s' = walked_path (subpages_top folder) ds (stem ++ lit ".md")).
Proof.
  intros Hw Hin Hin' Hne. pose proof Hw as (Hc & _).
  destruct (step_conversion laws cfg folder w s d b Hc Hin)
    as (ds & stem & Hds & Hfn & Hs & Hd & _).
  destruct (step_conversion laws cfg folder w s' d b' Hc Hin')
    as (ds' & stem' & Hds' & Hfn' & Hs' & Hd' & _).
  rewrite Hd in Hd'.
  destruct (DestFacts.page_dest_names _ _ _ _ _ Hds Hfn Hds' Hfn' Hd')
    as [<- Hstem].
  destruct (has_nondot stem) eqn:E.
  - destruct (has_nondot stem') eqn:E'.
    + subst stem'. congruence.
    + exists ds, stem'. auto 6.
  - exists ds, stem. auto 6.
Qed.

End StepProperties.

(** ** The commands together *)

Section Together.

Import Str StrFacts Setup SetupFacts.

Context {W : Type} {os : OS W} {co : Collaborators W} {rm : Remover W}
        {fuel : nat}.

(** X13.  [setup()] and [generate] agree on the marker.  An empty line
    or [<none>] at the prompt of the subpages folder is dumped as
    [<none>], for which the subpage step of [generate] does nothing; any
    other answer is dumped as it is and is the folder that the step
    walks. *)
Theorem setup_answer_decides_subpages (i : Inputs) (data : yaml) :
  config_data i = Ok data ->
  exists s,
    field (lit "content_mapping") (lit "subpages_folder") data = Some (YStr s)
    /\ (in_subpages_folder i = [] \/ in_subpages_folder i = lit "<none>" ->
        s = lit "<none>"
        /\ forall cfg w,
             subpages_folder (content_mapping cfg) = Some s ->
             Cli.convert_subpages fuel cfg w = ([], w, Ok tt))
    /\ (in_subpages_folder i <> [] -> in_subpages_folder i <> lit "<none>" ->
        s = in_subpages_folder i
        /\ forall cfg,
             subpages_folder (content_mapping cfg) = Some s ->
             Cli.subpages_configured cfg = Some s).
Proof.
  unfold config_data. cbv zeta.
  destruct (py_index available_themes _) as [theme|e]; [|discriminate].
  destruct (default_pages_url _) as [d|e]; [|discriminate].
  intros H. injection H as <-.
  exists (prompt (in_subpages_folder i) (lit "<none>")).
  split; [reflexivity|]. split.
  - intros Hin.
    assert (prompt (in_subpages_folder i) (lit "<none>") = lit "<none>") as ->
      by (destruct Hin as [-> | ->]; reflexivity).
    split; [reflexivity|]. intros cfg w Hs.
    apply StepFacts.convert_subpages_unset.
    unfold Cli.subpages_configured. now rewrite Hs.
  - intros H1 H2.
    assert (prompt (in_subpages_folder i) (lit "<none>") = in_subpages_folder i)
      as -> by (destruct (in_subpages_folder i); [congruence | reflexivity]).
    split; [reflexivity|]. intros cfg Hs.
    unfold Cli.subpages_configured. rewrite Hs.
    apply eqb_neq in H2. unfold Cli.none_marker. rewrite H2.
    destruct (in_subpages_folder i); [congruence | reflexivity].
Qed.

Hypothesis laws : OSLaws os.
Hypothesis removal : RemoverLaws os rm.

(** X14.  The destination folder that [setup()] dumps for an empty
    line at its prompt is a folder that [clean()] removes: it does not
    exist after a [clean()] that returned. *)
Theorem clean_removes_default_site (i : Inputs) (data : yaml)
    (w w' : W) (t : list clean_call) :
  config_data i = Ok data -> in_destination_folder i = [] ->
  clean w = (t, w', Ok tt) ->
  exists s,
    field (lit "content_mapping") (lit "destination_folder") data
    = Some (YStr s)
    /\ path_exists s w' = false.
Proof.
  unfold config_data. cbv zeta.
  destruct (py_index available_themes _) as [theme|e]; [|discriminate].
  destruct (default_pages_url _) as [d|e]; [|discriminate].
  intros H Hd Hc. injection H as <-. rewrite Hd.
  exists (lit "site_contents"). split; [reflexivity|].
  exact (proj2 (clean_gone_both removal w w' t Hc)).
Qed.

(** X15.  After a [clean()] that returned no path below [source_repo/]
    exists, so that the subpage step of [generate], whatever the
    configuration, does nothing in the world that [clean()] left. *)
Theorem nothing_to_convert_after_clean (w w' : W) (t : list clean_call) :
  clean w = (t, w', Ok tt) ->
  (forall q, path_exists (lit "source_repo/" ++ q) w' = false)
  /\ forall cfg, Cli.convert_subpages fuel cfg w' = ([], w', Ok tt).
Proof.
  intros Hc. destruct (clean_gone_both removal w w' t Hc) as [Hs _].
  assert (forall q, path_exists (lit "source_repo/" ++ q) w' = false) as Hq.
  { intros q. destruct (path_exists (lit "source_repo/" ++ q) w') eqn:E;
      [|reflexivity].
    change (lit "source_repo/" ++ q)
      with (lit "source_repo" ++ "/"%char :: q) in E.
    apply (exists_prefix laws) in E;
      [congruence | discriminate | right; reflexivity]. }
  split; [exact Hq|]. intros cfg.
  destruct (Cli.subpages_configured cfg) as [folder|] eqn:Hf.
  - apply (StepFacts.convert_subpages_absent cfg folder w' Hf), Hq.
  - now apply StepFacts.convert_subpages_unset.
Qed.

(** X16.  When [clean()] raises, the failed [shutil.rmtree] is its last
    call and no message follows it: either the removal of [source_repo]
    failed, and [site_contents] was not touched, or that of
    [site_contents] failed, in a world where it exists and [source_repo]
    does not. *)
Theorem failed_removal_ends_clean (w w' : W) (t : list clean_call) (e : exn) :
  clean w = (t, w', Raise e) ->
  (t = [RmTree (lit "source_repo")]
   /\ path_exists (lit "source_repo") w = true
   /\ rmtree (lit "source_repo") w = (w', Raise e))
  \/ exists pre w1,
       t = pre ++ [RmTree (lit "site_contents")]
       /\ (forall p, In (RmTree p) pre -> p = lit "source_repo")
       /\ path_exists (lit "source_repo") w1 = false
       /\ path_exists (lit "site_contents") w1 = true
       /\ rmtree (lit "site_contents") w1 = (w', Raise e).
Proof.
  unfold clean.
  destruct (clean_one (lit "source_repo") _ w) as [[t1 w1] [[]|e1]] eqn:E1.
  - destruct (clean_one (lit "site_contents") _ w1) as [[t2 w2] r] eqn:E2.
    intros H. injection H as <- <- ->. right. exists t1, w1.
    pose proof (clean_one_gone removal _ _ _ _ _ E1) as Hgone.
    unfold clean_one in E1, E2.
    destruct (path_exists (lit "site_contents") w1) eqn:P2; [|discriminate].
    destruct (rmtree (lit "site_contents") w1) as [v [[]|e2]] eqn:R2;
      [discriminate|].
    injection E2 as <- <- <-.
    split; [reflexivity|]. split; [|auto].
    intros p Hp. destruct (path_exists (lit "source_repo") w).
    + destruct (rmtree (lit "source_repo") w) as [v' [[]|e1]]; [|discriminate].
      injection E1 as <- _. destruct Hp as [Hp|[Hp|[]]]; [|discriminate].
      now injection Hp as <-.
    + injection E1 as <- _. destruct Hp.
  - intros H. injection H as <- <- <-. left.
    unfold clean_one in E1.
    destruct (path_exists (lit "source_repo") w); [|discriminate].
    destruct (rmtree (lit "source_repo") w) as [v [[]|e2]]; [discriminate|].
    injection E1 as <- <- <-. auto.
Qed.

End Together.

(** ** The further properties at the sample worlds *)

Lemma walks_blocked :
  walks cfg_site (lit "sub") (Model.to_entries pages) w_blocked.
Proof. repeat split. Qed.

Lemma walks_dotted :
  walks cfg_site (lit "sub") (Model.to_entries dotted) w_dotted.
Proof. repeat split. Qed.


Lemma clean_twice_is_silent_witness :
  clean (snd (fst (clean w_built))) = ([], snd (fst (clean w_built)), Ok tt).
Proof.
  exact (clean_twice_is_silent RemovalFacts.model_remover_laws w_built
           (snd (fst (clean w_built))) (fst (fst (clean w_built))) eq_refl).
Defined.

Lemma pages_url_from_repository_witness :
  exists data,
    Setup.config_data
      (Setup.typed (lit "git@github.com:fonte-wiki/Divisor.git") None)
    = Ok data
    /\ Setup.field (lit "site_metadata") (lit "github_pages_url") data
       = Some (Setup.YStr (lit "https://fonte-wiki.github.io/Divisor/"))
    /\ snd (Setup.setup
              (Setup.typed (lit "git@github.com:fonte-wiki/Divisor.git") None)
              w_bare)
       = Ok data
    /\ snd (Setup.setup
              (Setup.typed (lit "git@github.com:fonte-wiki/Divisor.git") None)
              w_config_dir)
       = Raise OSError.
Proof.
  destruct (pages_url_from_repository
              (Setup.typed (lit "git@github.com:fonte-wiki/Divisor.git") None)
              (lit "git@github.com:") (lit "fonte-wiki") (lit "Divisor") w_bare)
    as (data & H1 & H2 & H3).
  - exact I.
  - reflexivity.
  - right. exists (lit "git@github.com"), ":"%char.
    split; [reflexivity | right; reflexivity].
  - cbn. intuition discriminate.
  - cbn. intuition discriminate.
  - cbn. intuition discriminate.
  - reflexivity.
  - exists data. split; [exact H1|]. split; [exact H2|].
    split; [rewrite H3; reflexivity | vm_compute; reflexivity].
Defined.

Lemma setup_fails_without_slash_witness :
  Setup.setup (Setup.typed (lit "Divisor.git") (Some 13%Z)) w_bare
  = (w_bare, Raise IndexError)
  /\ snd (Setup.setup
            (Setup.typed (lit "git@github.com:fonte-wiki/Divisor.git")
               (Some 13%Z)) w_config_dir)
     = Raise OSError.
Proof.
  assert (Setup.in_range (Some 13%Z)) as Hr by (cbn; lia).
  split.
  - apply (proj1 (setup_fails_without_slash
                    (Setup.typed (lit "Divisor.git") (Some 13%Z)) w_bare Hr)).
    + reflexivity.
    + cbn. intuition discriminate.
  - destruct (proj2 (setup_fails_without_slash
                       (Setup.typed
                          (lit "git@github.com:fonte-wiki/Divisor.git")
                          (Some 13%Z)) w_config_dir Hr))
      as (data & _ & H).
    + right. cbn. tauto.
    + rewrite H. reflexivity.
Defined.

Lemma chosen_theme_is_listed_witness :
  exists data,
    Setup.config_data Setup.no_input = Ok data
    /\ Setup.field (lit "site_metadata") (lit "theme") data
       = Some (Setup.YStr (lit "minima"))
    /\ In (lit "- minima") Setup.themes.
Proof.
  destruct (chosen_theme_is_listed Setup.no_input _ I eq_refl)
    as (theme & H1 & _ & H3 & H4).
  rewrite (H4 eq_refl) in H1, H3.
  eexists. split; [reflexivity|]. split; [exact H1 | exact H3].
Defined.

Lemma assets_copied_after_conversions_witness :
  In (CopyAssets (lit "source_repo") (lit "site/assets/media"))
     (events (trace_of (run cfg_site w_site)))
  /\ exists w4 subs w5,
       step cfg_site w4 = (subs, w5, Ok tt)
       /\ In (w5, CopyAssets (lit "source_repo") (lit "site/assets/media"))
            (trace_of (run cfg_site w_site)).
Proof.
  assert (In (CopyAssets (lit "source_repo") (lit "site/assets/media"))
             (events (trace_of (run cfg_site w_site)))) as Hin.
  { vm_compute. do 9 right. left. reflexivity. }
  split; [exact Hin|].
  destruct (assets_copied_after_conversions
              (co := Model.model_collaborators cfg_site) (fuel := fuel)
              (lit "config.yml") w_site _ _ Hin)
    as (w1 & cfg & w2 & w3 & w4 & subs & w5 & H1 & _ & _ & _ & H5 & H6).
  cbn in H1. injection H1 as <- <-.
  exists w4, subs, w5. split; [exact H5 | exact H6].
Defined.

Lemma kept_blocked :
  tree_kept (subpages_top (lit "sub")) (Model.to_entries pages)
    (step cfg_site w_blocked).
Proof.
  unfold tree_kept. apply Forall_forall. intros w' Hin. vm_compute in Hin.
  repeat (destruct Hin as [<-|Hin]; [vm_compute; reflexivity|]). destruct Hin.
Qed.

Lemma first_failure_ends_the_walk_witness :
  walks cfg_site (lit "sub") (Model.to_entries pages) w_blocked
  /\ outcome_of (step cfg_site w_blocked) = Raise OSError
  /\ exists done x rest,
       filter is_md (tree_files (Model.to_entries pages)) = done ++ x :: rest.
Proof.
  split; [exact walks_blocked|]. split; [reflexivity|].
  destruct (proj2 (first_failure_ends_the_walk
                     (co := Model.model_collaborators cfg_site) (fuel := fuel)
                     ModelFacts.model_laws cfg_site (lit "sub")
                     (Model.to_entries pages) w_blocked OSError
                     walks_blocked eq_refl)
              levels_site kept_blocked)
    as (done & x & rest & H & _).
  exists done, x, rest. exact H.
Defined.

Lemma step_stays_in_its_folders_witness :
  walks cfg_site (lit "sub") (Model.to_entries pages) w_site
  /\ forall d ex,
       In (MakeDirs d ex) (events (trace_of (step cfg_site w_site))) ->
       ex = true
       /\ exists names,
            names <> [] /\ forallb name_ok names = true
            /\ d = with_sep (lit "site") ++ Str.join Str.sep names.
Proof.
  split; [exact walks_site|].
  exact (proj1 (step_stays_in_its_folders
                  (co := Model.model_collaborators cfg_site) (fuel := fuel)
                  ModelFacts.model_laws cfg_site (lit "sub")
                  (Model.to_entries pages) w_site walks_site)).
Defined.

Lemma subpages_never_overwrite_home_witness :
  In (ConvertFile (lit "source_repo/sub/a/b.md") (lit "site/a/b/index.md")
        (lit "source_repo"))
     (events (trace_of (step cfg_site w_site)))
  /\ lit "site/a/b/index.md"
     <> destination_folder (content_mapping cfg_site) ++ lit "/index.md".
Proof.
  assert (In (ConvertFile (lit "source_repo/sub/a/b.md")
                (lit "site/a/b/index.md") (lit "source_repo"))
             (events (trace_of (step cfg_site w_site)))) as Hin.
  { vm_compute. do 3 right. left. reflexivity. }
  split; [exact Hin|].
  exact (subpages_never_overwrite_home
           (co := Model.model_collaborators cfg_site) (fuel := fuel)
           ModelFacts.model_laws cfg_site (lit "sub")
           (Model.to_entries pages) w_site _ _ _ walks_site Hin).
Defined.

Lemma destinations_collide_only_on_dot_names_witness :
  walks cfg_site (lit "sub") (Model.to_entries dotted) w_dotted
  /\ exists ds stem,
       has_nondot stem = false
       /\ (lit "source_repo/sub/.md"
           = walked_path (subpages_top (lit "sub")) ds (stem ++ lit ".md")
           \/ lit "source_repo/sub/.md.md"
              = walked_path (subpages_top (lit "sub")) ds (stem ++ lit ".md")).
Proof.
  split; [exact walks_dotted|].
  assert (In (ConvertFile (lit "source_repo/sub/.md") (lit "site/.md/index.md")
                (lit "source_repo"))
             (events (trace_of (step cfg_site w_dotted)))) as Hin.
  { vm_compute. right. left. reflexivity. }
  assert (In (ConvertFile (lit "source_repo/sub/.md.md")
                (lit "site/.md/index.md") (lit "source_repo"))
             (events (trace_of (step cfg_site w_dotted)))) as Hin'.
  { vm_compute. do 3 right. left. reflexivity. }
  destruct (destinations_collide_only_on_dot_names
              (co := Model.model_collaborators cfg_site) (fuel := fuel)
              ModelFacts.model_laws cfg_site (lit "sub")
              (Model.to_entries dotted) w_dotted _ _ _ _ _
              walks_dotted Hin Hin')
    as (ds & stem & _ & _ & H1 & H2); [discriminate|].
  exists ds, stem. split; [exact H1 | exact H2].
Defined.

Lemma setup_answer_decides_subpages_witness :
  exists data,
    Setup.config_data Setup.no_input = Ok data
    /\ Setup.field (lit "content_mapping") (lit "subpages_folder") data
       = Some (Setup.YStr (lit "<none>"))
    /\ step cfg_none w_none = ([], w_none, Ok tt).
Proof.
  destruct (setup_answer_decides_subpages
              (co := Model.model_collaborators cfg_none) (fuel := fuel)
              Setup.no_input _ eq_refl) as (s & Hf & Hskip & _).
  destruct (Hskip (or_introl eq_refl)) as [-> H].
  eexists. split; [reflexivity|]. split; [exact Hf|].
  exact (H cfg_none w_none eq_refl).
Defined.

Lemma clean_removes_default_site_witness :
  exists s,
    s = lit "site_contents"
    /\ path_exists s w_built = true
    /\ path_exists s (snd (fst (clean w_built))) = false.
Proof.
  assert (clean w_built
          = (fst (fst (clean w_built)), snd (fst (clean w_built)), Ok tt))
    as Hc by reflexivity.
  destruct (clean_removes_default_site RemovalFacts.model_remover_laws
              Setup.no_input _ w_built (snd (fst (clean w_built)))
              (fst (fst (clean w_built))) eq_refl eq_refl Hc)
    as (s & Hs & Hgone).
  cbn in Hs. injection Hs as <-.
  eexists. split; [reflexivity|]. split; [reflexivity | exact Hgone].
Defined.

Lemma nothing_to_convert_after_clean_witness :
  step cfg_site (snd (fst (clean w_built)))
  = ([], snd (fst (clean w_built)), Ok tt).
Proof.
  exact (proj2 (nothing_to_convert_after_clean
                  (co := Model.model_collaborators cfg_site) (fuel := fuel)
                  ModelFacts.model_laws RemovalFacts.model_remover_laws
                  w_built (snd (fst (clean w_built)))
                  (fst (fst (clean w_built))) eq_refl) cfg_site).
Defined.

Lemma failed_removal_ends_clean_witness :
  fst (fst (clean w_stray)) = [RmTree (lit "source_repo")]
  /\ path_exists (lit "site_contents") (snd (fst (clean w_stray))) = true.
Proof.
  split; [|reflexivity].
  assert (clean w_stray
          = (fst (fst (clean w_stray)), snd (fst (clean w_stray)), Raise OSError))
    as Hc by reflexivity.
  destruct (failed_removal_ends_clean RemovalFacts.model_remover_laws w_stray
              (snd (fst (clean w_stray))) (fst (fst (clean w_stray))) OSError
              Hc)
    as [[H _] | (pre & w1 & H & _)]; [exact H|].
  exfalso. change (fst (fst (clean w_stray))) with [RmTree (lit "source_repo")] in H.
  destruct pre as [|c [|c' pre]]; discriminate H.
Defined.
